(** * SpeiiKhiev Video Downloader: the batch orchestration core of [app2.py]

    A shallow embedding of the validation helpers ([SecurityUtils]), the two
    collectors ([VideoInfoThread], [ProfileFetchThread]) and the download
    orchestrator ([DownloadThread]) together with the properties the
    specification states about them.

    Conventions.
    - A Python [str] is a [list ascii]: one [ascii] per character.  Every
      character outside the white list of [sanitize_filename] is treated alike
      by the code, so code points above 255 behave as any other such character.
    - [os.path] is [posixpath].
    - Qt signals are recorded as a log of events, in emission order.
    - The file system, the network and the clock are an abstract [World]
      threaded through the calls that touch them. *)

From Stdlib Require Import Ascii String List Bool Arith ZArith QArith Qabs Lia.
From Stdlib Require Import DecimalString Floats Uint63.
Import ListNotations.
Close Scope Q_scope.

Set Implicit Arguments.

(* ===================================================================== *)
(** * Python strings *)
(* ===================================================================== *)

Module PyStr.

Definition str := list ascii.

(** A literal. *)
Definition py (s : string) : str := list_ascii_of_string s.

(** [s.startswith(p)] *)
Fixpoint startswith (p s : str) : bool :=
  match p, s with
  | [], _ => true
  | _ :: _, [] => false
  | a :: p', b :: s' => Ascii.eqb a b && startswith p' s'
  end.

(** [needle in hay] *)
Fixpoint str_in (needle hay : str) : bool :=
  startswith needle hay
  || match hay with
     | [] => false
     | _ :: hay' => str_in needle hay'
     end.

(** [c in chars] for a single character [c]. *)
Definition char_in (c : ascii) (chars : str) : bool :=
  existsb (Ascii.eqb c) chars.

(** [s.replace(old, new)] for a non-empty [old]: the occurrences of [old] are
    found from left to right and do not overlap; [skip] counts the characters
    of a matched occurrence that are still to be dropped. *)
Fixpoint replace_from (old new s : str) (skip : nat) : str :=
  match s with
  | [] => []
  | c :: s' =>
      match skip with
      | S k => replace_from old new s' k
      | O =>
          if startswith old s
          then new ++ replace_from old new s' (length old - 1)
          else c :: replace_from old new s' 0
      end
  end.

Definition replace (old new s : str) : str := replace_from old new s 0.

(** [s.count(c)] for a single character [c]. *)
Definition count (c : ascii) (s : str) : nat :=
  length (filter (Ascii.eqb c) s).

(** [s.lstrip(chars)], [s.rstrip(chars)], [s.strip(chars)] *)
Fixpoint lstrip (chars s : str) : str :=
  match s with
  | [] => []
  | c :: s' => if char_in c chars then lstrip chars s' else s
  end.

Definition rstrip (chars s : str) : str := rev (lstrip chars (rev s)).

Definition strip (chars s : str) : str := rstrip chars (lstrip chars s).

(** [s.lower()] on ASCII letters. *)
Definition lower_char (c : ascii) : ascii :=
  let n := nat_of_ascii c in
  if (65 <=? n) && (n <=? 90) then ascii_of_nat (n + 32) else c.

Definition lower (s : str) : str := map lower_char s.

(** [s[:n]] for [n >= 0]. *)
Definition slice_to (n : nat) (s : str) : str := firstn n s.

(** [str(n)] and [f'{n:02d}'] for a non-negative integer. *)
Definition str_of_nat (n : nat) : str :=
  list_ascii_of_string (NilZero.string_of_uint (Nat.to_uint n)).

Definition fmt_02d (n : nat) : str :=
  if n <? 10 then py "0" ++ str_of_nat n else str_of_nat n.

Definition str_eqb (a b : str) : bool :=
  if list_eq_dec ascii_dec a b then true else false.

End PyStr.
Import PyStr.

(* ===================================================================== *)
(** * posixpath *)
(* ===================================================================== *)

Module PosixPath.

Definition sep : ascii := "/"%char.

(** [os.path.basename(p)]: what follows the last ['/']. *)
Fixpoint basename (p : str) : str :=
  match p with
  | [] => []
  | c :: p' =>
      if char_in sep p' then basename p'
      else if Ascii.eqb c sep then p' else p
  end.

(** [os.path.dirname(p)]: what precedes the last ['/'], without its trailing
    slashes unless it consists of slashes only. *)
Definition head_of (p : str) : str :=
  firstn (length p - length (basename p)) p.

Definition dirname (p : str) : str :=
  let head := head_of p in
  if forallb (Ascii.eqb sep) head then head else rstrip [sep] head.

(** [os.path.join(a, b)] *)
Definition join (a b : str) : str :=
  if startswith [sep] b then b
  else match rev a with
       | [] => b
       | c :: _ => if Ascii.eqb c sep then a ++ b else a ++ sep :: b
       end.

End PosixPath.

(* ===================================================================== *)
(** * Data model *)
(* ===================================================================== *)

(** The dict built by the collectors and read by the orchestrator. *)
Record VideoRecord := mkVideo {
  id : str;
  title : str;
  url : str;
  thumbnail : str;
  duration : Z;
  view_count : Z;
  like_count : Z
}.

(** The metadata dict returned by [ydl.extract_info(url, download=False)].
    A field is [None] when the key is absent from the dict. *)
Record Info := mkInfo {
  info_id : option str;
  info_display_id : option str;
  info_title : option str;
  info_description : option str;
  info_uploader : option str;
  info_channel : option str;
  info_upload_date : option str;
  info_thumbnail : option str;
  info_duration : option Z;
  info_view_count : option Z;
  info_like_count : option Z
}.

(** An element of [info['entries']] in the flat listing of a profile. *)
Record Entry := mkEntry {
  entry_id : option str;
  entry_title : option str;
  entry_url : option str;
  entry_webpage_url : option str;
  entry_thumbnail : option str;
  entry_duration : option Z;
  entry_view_count : option Z;
  entry_like_count : option Z
}.

(** An [instaloader] post; [video_duration] and [video_view_count] are [None]
    when the attribute is missing. *)
Record Post := mkPost {
  shortcode : str;
  caption : option str;
  post_url : str;
  is_video : bool;
  video_duration : option Z;
  video_view_count : option Z;
  likes : Z
}.

(** Result of a call into a library: it returns or it raises. *)
Inductive Outcome (A : Type) :=
  | Returns (a : A)
  | Raises (e : str).
Arguments Returns {A} a.
Arguments Raises {A} e.

(** An [instaloader] profile; each step of the iteration over
    [profile.get_posts()] yields a post or raises. *)
Record Profile := mkProfile {
  full_name : str;
  mediacount : Z;
  get_posts : list (Outcome Post)
}.

Inductive Platform := TikTok | YouTube | Instagram | Facebook | Unknown.

(** The texts sent through the signals, one constructor per format string. *)
Inductive Message :=
  | MsgAlreadyExists (title50 : str)          (* "✓ Already exists: {title[:50]}" *)
  | MsgDownloaded (title50 : str)             (* "✓ Downloaded: {title[:50]}" *)
  | MsgFailed (title50 : str)                 (* "✗ Failed: {title[:50]}" *)
  | MsgDownloading (idx total : nat) (title50 : str)
                                              (* "[{idx}/{total}] Downloading: {title[:50]}..." *)
  | MsgComplete (success_count failed_count : nat)
                                              (* "\n🎉 Complete! Success: {..}, Failed: {..}" *)
  | MsgError (e : str)                        (* "Error: {str(e)}" *)
  | MsgInvalidURL (idx : nat)                 (* "⚠️ Invalid URL {idx}: Skipping" *)
  | MsgExtracting (idx total : nat)           (* "Extracting info {idx}/{total}..." *)
  | MsgExtractFailed (e50 : str)              (* "⚠️ Failed: {str(e)[:50]}" *)
  | MsgLoaded (n : nat)                       (* "Loaded {len(videos)} videos" *)
  | MsgNoValidURLs                            (* "No valid URLs found" *)
  | MsgDetected (p : Platform)                (* "Detected platform: {platform}" *)
  | MsgFetching (p : Platform)                (* "Fetching {platform} profile..." *)
  | MsgNoProfileInfo                          (* "Could not fetch profile information" *)
  | MsgNoVideosIn (p : Platform)              (* "No videos found in this {platform} profile." *)
  | MsgFound (n : nat) (p : Platform)         (* "Found {len(videos)} videos from {platform}" *)
  | MsgNoVideosInProfile                      (* "No videos found in profile" *)
  | MsgNoUsername                             (* "Could not extract Instagram username from URL" *)
  | MsgFetchingInstagram (username : str)     (* "Fetching Instagram profile: @{username}" *)
  | MsgUsingInstaloader                       (* "Using instaloader for Instagram..." *)
  | MsgFoundProfile (full_name : str)         (* "Found profile: {profile.full_name}" *)
  | MsgTotalPosts (mediacount : Z)            (* "Total posts: {profile.mediacount}" *)
  | MsgFoundVideo (n : nat) (shortcode : str) (* "Found video {len(videos)}: {post.shortcode}" *)
  | MsgNoInstagramVideos                      (* "No videos found in this Instagram profile" *)
  | MsgPrivate                                (* "This Instagram profile is private. ..." *)
  | MsgRateLimit                              (* "Instagram rate limit reached. ..." *)
  | MsgInstagramError (e : str)               (* "Instagram error: {error_msg}" *)
  | MsgNeedsInstaloader.                      (* "Instagram scraping requires 'instaloader'. ..." *)

(** What a thread does that the outside can observe: the signals it emits and
    the calls it makes to the downloader and to the clock. *)
Inductive Event :=
  | Finished (success : bool) (message : Message) (video_id : str)
                                              (* DownloadThread.finished *)
  | Collected (success : bool) (message : Message) (videos : list VideoRecord)
                                              (* the collectors' finished *)
  | StatusUpdate (message : Message)
  | Progress (value : Z)
  | CallDownload (url outtmpl : str) (result : Outcome unit)
                                              (* ydl.download([url]) and how it ended *)
  | CallSleep (seconds : Q).                  (* time.sleep(seconds) *)

(* ===================================================================== *)
(** * The environment and the effects of a thread *)
(* ===================================================================== *)

(** [shutil.disk_usage] multiplies a count of blocks by the size of a block,
    and Python reads both from the operating system as signed 64-bit
    integers: the product is within [2^126] of zero. *)
Definition disk_usage_range (free : Z) : bool :=
  (- 2 ^ 126 <=? free)%Z && (free <=? 2 ^ 126)%Z.

(** Everything the program reaches outside itself. *)
Class Environment := {
  World : Type;
  (** [os.listdir(path)]; [None] when it raises. *)
  listdir : World -> str -> option (list str);
  (** [os.path.abspath] and [os.path.realpath]. *)
  abspath : World -> str -> str;
  realpath : World -> str -> str;
  (** [shutil.disk_usage(path).free], in bytes; [None] when it raises. *)
  disk_free : World -> str -> option Z;
  disk_free_range : forall w path,
    match disk_free w path with
    | Some free => disk_usage_range free = true
    | None => True
    end;
  (** [urlparse(url)]: the scheme and the netloc; [None] when it raises. *)
  urlparse : str -> option (str * str);
  (** [with yt_dlp.YoutubeDL(opts) as ydl: ydl.download([url])], where
      [opts['outtmpl']] is the second argument.  An abort raised by the
      progress hook is one of the ways in which it raises. *)
  ydl_download : World -> str -> str -> World * Outcome unit;
  (** [ydl.extract_info(url, download=False)]; a falsy result is [None]. *)
  extract_info : World -> str -> World * Outcome (option Info);
  (** The same with [extract_flat]; the entries are those of
      [info.get('entries', [])], a falsy entry being [None]. *)
  extract_flat : World -> str -> Z -> World * Outcome (option (list (option Entry)));
  (** [import instaloader] succeeds. *)
  instaloader_available : World -> bool;
  (** [instaloader.Profile.from_username(L.context, username)] *)
  from_username : World -> str -> World * Outcome Profile;
  (** [time.sleep(seconds)], for a delay that it accepts (it raises for one
      of [2^63] nanoseconds or more; the thread is built with the delay 2). *)
  sleep : World -> Q -> World;
  (** The value of [self._is_running] found by the n-th read of it that the
      running thread makes; [stop()] is called from another thread. *)
  is_running : nat -> bool
}.

Module Eff.

(** A value, or the message of the exception that propagates. *)
Inductive Res (A : Type) :=
  | Ok (a : A)
  | Exc (e : str).
Arguments Ok {A} a.
Arguments Exc {A} e.

Section WithEnv.
Context {env : Environment}.

Record St := mkSt {
  world : World;
  reads : nat;          (* reads of [self._is_running] made so far *)
  log : list Event      (* events so far, oldest first *)
}.

Definition M (A : Type) := St -> Res A * St.

Definition ret {A} (a : A) : M A := fun st => (Ok a, st).

Definition bind {A B} (m : M A) (k : A -> M B) : M B :=
  fun st =>
    match m st with
    | (Ok a, st') => k a st'
    | (Exc e, st') => (Exc e, st')
    end.

Definition raise {A} (e : str) : M A := fun st => (Exc e, st).

(** [try: body except Exception as e: handler(e)] *)
Definition try_except {A} (body : M A) (handler : str -> M A) : M A :=
  fun st =>
    match body st with
    | (Ok a, st') => (Ok a, st')
    | (Exc e, st') => handler e st'
    end.

Definition emit (ev : Event) : M unit :=
  fun st => (Ok tt, mkSt (world st) (reads st) (log st ++ [ev])).

(** Reading [self._is_running]. *)
Definition running : M bool :=
  fun st => (Ok (is_running (reads st)), mkSt (world st) (S (reads st)) (log st)).

Definition get_world : M World := fun st => (Ok (world st), st).

Definition set_world (w : World) : M unit :=
  fun st => (Ok tt, mkSt w (reads st) (log st)).

Definition of_outcome {A} (o : Outcome A) : M A :=
  match o with
  | Returns a => ret a
  | Raises e => raise e
  end.

(** A call that changes the world and returns or raises. *)
Definition call {A} (f : World -> World * Outcome A) : M A :=
  fun st =>
    let (w, o) := f (world st) in
    of_outcome o (mkSt w (reads st) (log st)).

(** [ydl.download([url])] with [outtmpl], entered in the log with its result. *)
Definition download (url outtmpl : str) : M unit :=
  fun st =>
    let (w, o) := ydl_download (world st) url outtmpl in
    of_outcome o (mkSt w (reads st) (log st ++ [CallDownload url outtmpl o])).

(** The state in which a thread starts. *)
Definition init (w : World) : St := mkSt w 0 [].

Definition time_sleep (seconds : Q) : M unit :=
  bind (emit (CallSleep seconds))
       (fun _ => bind get_world (fun w => set_world (sleep w seconds))).

Definition os_listdir (path : str) : M (list str) :=
  bind get_world (fun w =>
    match listdir w path with
    | Some names => ret names
    | None => raise (py "OSError")
    end).

End WithEnv.
End Eff.
Import Eff.

Declare Scope eff_scope.
Delimit Scope eff_scope with eff.
Notation "x <- c1 ;; c2" := (bind c1 (fun x => c2))
  (at level 100, c1 at next level, right associativity) : eff_scope.
Notation "c1 ;; c2" := (bind c1 (fun _ => c2))
  (at level 100, right associativity) : eff_scope.
Open Scope eff_scope.

(* ===================================================================== *)
(** * Numbers *)
(* ===================================================================== *)

Module PyNum.

(** [float(n)] for an integer [0 <= n < 2^53]. *)
Definition float_of_Z (n : Z) : float := PrimFloat.of_uint63 (Uint63.of_Z n).

(** [int(f)]: truncation towards zero of a finite float. *)
Definition py_int (f : float) : Z :=
  match Prim2SF f with
  | S754_finite s m e =>
      let v := if (0 <=? e)%Z then Z.shiftl (Zpos m) e
               else Z.shiftr (Zpos m) (- e) in
      if s then (- v)%Z else v
  | _ => 0%Z
  end.

(** [int((num / den) * scale)] in double precision; [None] stands for the
    [ZeroDivisionError] of [num / 0]. *)
Definition int_scaled (num den scale : Z) : option Z :=
  if (den =? 0)%Z then None
  else Some (py_int (PrimFloat.mul (PrimFloat.div (float_of_Z num) (float_of_Z den))
                                   (float_of_Z scale))).

(** The integer nearest to [n / d] for [0 < d], a tie going to the even one. *)
Definition round_half_even (n d : Z) : Z :=
  let q := (n / d)%Z in
  let r := (n mod d)%Z in
  if (2 * r <? d)%Z then q
  else if (d <? 2 * r)%Z then (q + 1)%Z
  else if Z.even q then q else (q + 1)%Z.

(** The double nearest to the integer [z], as an integer: [z] itself while
    it has at most 53 significant bits, and otherwise its leading 53 bits
    rounded to nearest, ties to even.  It is the value of [float(z)], and
    [z / 2**k] is this value divided by [2**k] (the division of two
    integers is correctly rounded, and a power of two only moves the
    exponent), as long as the result is below [2^1024]. *)
Definition to_double (z : Z) : Z :=
  let a := Z.abs z in
  if (a <? 2 ^ 53)%Z then z
  else
    let e := (Z.log2 a - 52)%Z in
    (Z.sgn z * (round_half_even a (2 ^ e) * 2 ^ e))%Z.

(** [q > 0] *)
Definition Qpositive (q : Q) : bool := negb (Qle_bool q 0).

End PyNum.
Import PyNum.

(* ===================================================================== *)
(** * SecurityUtils *)
(* ===================================================================== *)

Module SecurityUtils.

Definition ascii_letters : str :=
  py "abcdefghijklmnopqrstuvwxyzABCDEFGHIJKLMNOPQRSTUVWXYZ".
Definition digits : str := py "0123456789".

(** [f"-_.() {string.ascii_letters}{string.digits}"] *)
Definition valid_chars : str := py "-_.() " ++ ascii_letters ++ digits.

Definition sanitize_filename (filename : str) : str :=
  match filename with
  | [] => py "video"
  | _ =>
      let filename :=
        replace (py "\") [] (replace (py "/") [] (replace (py "..") [] filename)) in
      let sanitized :=
        map (fun c => if char_in c valid_chars then c else "_"%char) filename in
      let sanitized := strip (py ". ") sanitized in
      let sanitized := PosixPath.basename sanitized in
      let sanitized :=
        if 100 <? length sanitized then slice_to 100 sanitized else sanitized in
      match sanitized with
      | [] => py "video"
      | _ => sanitized
      end
  end.

Section WithEnv.
Context {env : Environment}.

(** The body of the [try] never raises: a failing [urlparse] is the only
    exception, and it is answered by [False]. *)
Definition is_valid_url (url : str) : bool :=
  match urlparse url with
  | None => false
  | Some (scheme, netloc) =>
      if negb (str_eqb scheme (py "http") || str_eqb scheme (py "https")) then false
      else if match netloc with [] => true | _ => false end then false
      else if str_in (py "..") url || (10 <? count "/"%char url) then false
      else true
  end.

Definition sanitize_path (w : World) (filepath : str) : str :=
  let abs_path := abspath w filepath in
  let real_path := realpath w abs_path in
  real_path.

(** [free_mb] is a double: the quotient of the byte count by [1024 * 1024],
    rounded to 53 significant bits (it is exact for a byte count below
    [2^53]); it is held here as the rational number that the double is.  The
    division cannot overflow on a byte count that [disk_usage] reports, and
    Python compares a float with an integer exactly. *)
Definition check_disk_space (w : World) (path : str) (required_mb : Z) : bool * Q :=
  match disk_free w path with
  | Some free =>
      let free_mb := (inject_Z (to_double free) / inject_Z (1024 * 1024))%Q in
      (negb (Qle_bool free_mb (inject_Z required_mb)), free_mb)
  | None => (true, 0%Q)
  end.

End WithEnv.
End SecurityUtils.

(* ===================================================================== *)
(** * VideoInfoThread *)
(* ===================================================================== *)

Module VideoInfoThread.
Section WithEnv.
Context {env : Environment}.

(** [d.get(key, default)] *)
Definition get {A} (field : option A) (default : A) : A :=
  match field with
  | Some v => v
  | None => default
  end.

Definition truthy (s : str) : bool :=
  match s with [] => false | _ => true end.

(** [s.split('\n')[0]] *)
Fixpoint first_line (s : str) : str :=
  match s with
  | [] => []
  | c :: s' => if Ascii.eqb c "010"%char then [] else c :: first_line s'
  end.

(** Lines 576-592: the title of a record. *)
Definition derive_title (url : str) (info : Info) : str :=
  let title := get (info_title info) [] in
  let description := get (info_description info) [] in
  let title :=
    if str_in (py "instagram.com") url then
      if truthy description && negb (str_eqb description title) then
        let title := first_line description in
        if 100 <? length title then slice_to 100 title else title
      else title
    else title in
  if negb (truthy title) || str_eqb title (py "Untitled") then
    let uploader :=
      get (info_uploader info) (get (info_channel info) (py "unknown")) in
    let upload_date := get (info_upload_date info) [] in
    if truthy upload_date then uploader ++ py "_" ++ upload_date
    else uploader ++ py "_video"
  else title.

(** Lines 594-602. *)
Definition video_info_of (idx : nat) (url : str) (info : Info) : VideoRecord :=
  let i := get (info_id info) [] in
  {| id := if truthy i then i
           else get (info_display_id info) (py "video_" ++ str_of_nat idx);
     title := derive_title url info;
     url := url;
     thumbnail := get (info_thumbnail info) [];
     duration := get (info_duration info) 0%Z;
     view_count := get (info_view_count info) 0%Z;
     like_count := get (info_like_count info) 0%Z |}.

(** The body of the [for] loop, lines 557-607, on the list collected so far. *)
Definition loop_body (total idx : nat) (url : str) (videos : list VideoRecord)
  : M (list VideoRecord) :=
  try_except
    (if negb (SecurityUtils.is_valid_url url) then
       emit (StatusUpdate (MsgInvalidURL idx)) ;;
       ret videos
     else
       emit (StatusUpdate (MsgExtracting idx total)) ;;
       match int_scaled (Z.of_nat idx) (Z.of_nat total) 90 with
       | None => raise (py "division by zero")
       | Some p =>
           emit (Progress p) ;;
           info <- call (fun w => extract_info w url) ;;
           match info with
           | Some info => ret (videos ++ [video_info_of idx url info])
           | None => ret videos
           end
       end)
    (fun e =>
       emit (StatusUpdate (MsgExtractFailed (slice_to 50 e))) ;;
       ret videos).

(** [for idx, url in enumerate(self.urls, idx): if not self._is_running: break ...] *)
Fixpoint for_urls (total idx : nat) (urls : list str) (videos : list VideoRecord)
  : M (list VideoRecord) :=
  match urls with
  | [] => ret videos
  | url :: rest =>
      r <- running ;;
      if negb r then ret videos
      else
        videos <- loop_body total idx url videos ;;
        for_urls total (S idx) rest videos
  end.

Definition run (urls : list str) : M unit :=
  try_except
    (let total := length urls in
     videos <- for_urls total 1 urls [] ;;
     emit (Progress 100) ;;
     match videos with
     | [] => emit (Collected false MsgNoValidURLs [])
     | _ =>
         r <- running ;;
         if r then emit (Collected true (MsgLoaded (length videos)) videos)
         else emit (Collected false MsgNoValidURLs [])
     end)
    (fun e => emit (Collected false (MsgError e) [])).

End WithEnv.
End VideoInfoThread.

(* ===================================================================== *)
(** * ProfileFetchThread *)
(* ===================================================================== *)

Module ProfileFetchThread.
Import VideoInfoThread.

Definition Platform_eqb (a b : Platform) : bool :=
  match a, b with
  | TikTok, TikTok | YouTube, YouTube | Instagram, Instagram
  | Facebook, Facebook | Unknown, Unknown => true
  | _, _ => false
  end.

Definition detect_platform (url : str) : Platform :=
  let url_lower := lower url in
  if str_in (py "tiktok.com") url_lower then TikTok
  else if str_in (py "youtube.com") url_lower || str_in (py "youtu.be") url_lower
  then YouTube
  else if str_in (py "instagram.com") url_lower then Instagram
  else if str_in (py "facebook.com") url_lower || str_in (py "fb.com") url_lower
  then Facebook
  else Unknown.

(** The longest prefix without ['/'] and ['?']: what [([^/\?]+)] matches. *)
Fixpoint segment (s : str) : str :=
  match s with
  | [] => []
  | c :: s' => if char_in c (py "/?") then [] else c :: segment s'
  end.

(** [re.search(lit + '([^/\?]+)', s).group(1)] for a literal [lit]: the
    leftmost place where [lit] is followed by a non-empty segment. *)
Fixpoint search_group (lit s : str) : option str :=
  let here :=
    if startswith lit s then
      match segment (skipn (length lit) s) with
      | [] => None
      | g => Some g
      end
    else None in
  match here with
  | Some g => Some g
  | None =>
      match s with
      | [] => None
      | _ :: s' => search_group lit s'
      end
  end.

(** [s.split('?')[0]] *)
Fixpoint before_question (s : str) : str :=
  match s with
  | [] => []
  | c :: s' => if Ascii.eqb c "?"%char then [] else c :: before_question s'
  end.

Definition extract_instagram_username (url : str) : option str :=
  let clean username := strip (py "/") (before_question username) in
  match search_group (py "instagram.com/") url with
  | Some username => Some (clean username)
  | None =>
      match search_group (py "instagram.com/@") url with
      | Some username => Some (clean username)
      | None => None
      end
  end.

(** Lines 392-402. *)
Definition video_info_of_post (post : Post) : VideoRecord :=
  {| id := shortcode post;
     title := match caption post with
              | Some c => if truthy c then slice_to 100 c else py "Untitled"
              | None => py "Untitled"
              end;
     url := py "https://www.instagram.com/p/" ++ shortcode post ++ py "/";
     thumbnail := post_url post;
     duration := get (video_duration post) 0%Z;
     view_count := get (video_view_count post) 0%Z;
     like_count := likes post |}.

(** Lines 498-516. *)
Definition video_info_of_entry (platform : Platform) (idx : nat) (entry : Entry)
  : VideoRecord :=
  let video_id := get (entry_id entry) (py "video_" ++ str_of_nat idx) in
  let title := get (entry_title entry) (py "Untitled") in
  let video_url :=
    match entry_url entry with
    | Some u => if truthy u then u else get (entry_webpage_url entry) []
    | None => get (entry_webpage_url entry) []
    end in
  let video_url :=
    if negb (startswith (py "http") video_url) then
      match platform with
      | TikTok => py "https://www.tiktok.com/@user/video/" ++ video_id
      | YouTube => py "https://www.youtube.com/watch?v=" ++ video_id
      | _ => video_url
      end
    else video_url in
  {| id := video_id;
     title := slice_to 100 title;
     url := video_url;
     thumbnail := get (entry_thumbnail entry) [];
     duration := get (entry_duration entry) 0%Z;
     view_count := get (entry_view_count entry) 0%Z;
     like_count := get (entry_like_count entry) 0%Z |}.

Section WithEnv.
Context {env : Environment}.

(** [60 + int((num / den) * 30)] *)
Definition progress_60_90 (num den : Z) : M unit :=
  match int_scaled num den 30 with
  | None => raise (py "division by zero")
  | Some p => emit (Progress (60 + p))
  end.

(** The [for post in profile.get_posts()] loop of
    [scrape_instagram_with_instaloader]. *)
Fixpoint for_posts (max_videos : Z) (posts : list (Outcome Post)) (count : Z)
  (videos : list VideoRecord) : M (list VideoRecord) :=
  match posts with
  | [] => ret videos
  | next :: rest =>
      post <- of_outcome next ;;
      r <- running ;;
      if negb r then ret videos
      else if (max_videos <=? count)%Z then ret videos
      else
        let count := (count + 1)%Z in
        videos <-
          (if is_video post then
             let videos := videos ++ [video_info_of_post post] in
             emit (StatusUpdate (MsgFoundVideo (length videos) (shortcode post))) ;;
             ret videos
           else ret videos) ;;
        progress_60_90 count max_videos ;;
        time_sleep (1 # 2)%Q ;;
        for_posts max_videos rest count videos
  end.

Definition scrape_instagram_with_instaloader (max_videos : Z) (username : str)
  : M (list VideoRecord) :=
  emit (StatusUpdate MsgUsingInstaloader) ;;
  profile <- call (fun w => from_username w username) ;;
  emit (StatusUpdate (MsgFoundProfile (full_name profile))) ;;
  emit (StatusUpdate (MsgTotalPosts (mediacount profile))) ;;
  for_posts max_videos (get_posts profile) 0%Z [].

(** The [for idx, entry in enumerate(entries)] loop of [run]. *)
Fixpoint for_entries (platform : Platform) (n_entries : nat) (idx : nat)
  (entries : list (option Entry)) (videos : list VideoRecord)
  : M (list VideoRecord) :=
  match entries with
  | [] => ret videos
  | entry :: rest =>
      r <- running ;;
      if negb r then ret videos
      else
        let videos :=
          match entry with
          | Some entry => videos ++ [video_info_of_entry platform idx entry]
          | None => videos
          end in
        progress_60_90 (Z.of_nat idx) (Z.of_nat n_entries) ;;
        for_entries platform n_entries (S idx) rest videos
  end.

(** The Instagram branch of [run], lines 425-462. *)
Definition run_instagram (url : str) (max_videos : Z) : M unit :=
  w <- get_world ;;
  if instaloader_available w then
    match extract_instagram_username url with
    | Some ((_ :: _) as username) =>
        emit (StatusUpdate (MsgFetchingInstagram username)) ;;
        emit (Progress 30) ;;
        try_except
          (videos <- scrape_instagram_with_instaloader max_videos username ;;
           match videos with
           | [] => emit (Collected false MsgNoInstagramVideos [])
           | _ =>
               r <- running ;;
               if r then
                 emit (Progress 100) ;;
                 emit (Collected true (MsgFound (length videos) Instagram) videos)
               else emit (Collected false MsgNoInstagramVideos [])
           end)
          (fun error_msg =>
             if str_in (py "private") (lower error_msg)
             then emit (Collected false MsgPrivate [])
             else if str_in (py "429") error_msg || str_in (py "rate") (lower error_msg)
             then emit (Collected false MsgRateLimit [])
             else emit (Collected false (MsgInstagramError error_msg) []))
    | _ => emit (Collected false MsgNoUsername [])
    end
  else emit (Collected false MsgNeedsInstaloader []).

(** The branch of [run] for the other platforms, lines 464-527. *)
Definition run_listing (platform : Platform) (url : str) (max_videos : Z) : M unit :=
  r <- running ;;
  if negb r then ret tt
  else
    emit (StatusUpdate (MsgFetching platform)) ;;
    emit (Progress 30) ;;
    info <- call (fun w => extract_flat w url max_videos) ;;
    match info with
    | None => emit (Collected false MsgNoProfileInfo [])
    | Some entries =>
        emit (Progress 60) ;;
        match entries with
        | [] => emit (Collected false (MsgNoVideosIn platform) [])
        | _ =>
            videos <- for_entries platform (length entries) 0 entries [] ;;
            emit (Progress 100) ;;
            match videos with
            | [] => emit (Collected false MsgNoVideosInProfile [])
            | _ =>
                r <- running ;;
                if r then emit (Collected true (MsgFound (length videos) platform) videos)
                else emit (Collected false MsgNoVideosInProfile [])
            end
        end
    end.

Definition run (url : str) (max_videos : Z) : M unit :=
  try_except
    (r <- running ;;
     if negb r then ret tt
     else
       let platform := detect_platform url in
       emit (StatusUpdate (MsgDetected platform)) ;;
       emit (Progress 10) ;;
       if Platform_eqb platform Instagram then run_instagram url max_videos
       else run_listing platform url max_videos)
    (fun error_msg => emit (Collected false (MsgError error_msg) [])).

End WithEnv.
End ProfileFetchThread.

(* ===================================================================== *)
(** * DownloadThread *)
(* ===================================================================== *)

Module DownloadThread.
Section WithEnv.
Context {env : Environment}.

(** The fields set by [__init__]; [_is_running] is read through [running]. *)
Record DownloadThread := mkDownloadThread {
  videos : list VideoRecord;
  save_path : str;
  filename_format : Z;
  rate_limit_delay : Q
}.

Definition is_already_downloaded (video_id save_path : str) : M bool :=
  try_except
    (names <- os_listdir save_path ;;
     ret (existsb (str_in video_id) names))
    (fun _ => ret false).

(** Lines 679-690. *)
Definition final_filename (filename_format : Z) (idx : nat) (video : VideoRecord) : str :=
  let clean_title := SecurityUtils.sanitize_filename (title video) in
  let final_filename :=
    if (filename_format =? 0)%Z then
      fmt_02d idx ++ py "_" ++ clean_title
    else if (filename_format =? 1)%Z then
      let safe_id := slice_to 30 (SecurityUtils.sanitize_filename (id video)) in
      safe_id
    else if (filename_format =? 2)%Z then
      let safe_id := slice_to 10 (SecurityUtils.sanitize_filename (id video)) in
      fmt_02d idx ++ py "_" ++ clean_title ++ py "_" ++ safe_id
    else clean_title in
  SecurityUtils.sanitize_filename final_filename.

(** Lines 694-695. *)
Definition output_template (w : World) (save_path : str) (final_filename : str) : str :=
  let output_template := PosixPath.join save_path (final_filename ++ py ".%(ext)s") in
  SecurityUtils.sanitize_path w output_template.

(** The body of the [for] loop, lines 667-717, on the two counters
    [(success_count, failed_count)]. *)
Definition loop_body (self : DownloadThread) (total idx : nat) (video : VideoRecord)
  (counts : nat * nat) : M (nat * nat) :=
  let (success_count, failed_count) := counts in
  let video_id := id video in
  let title := title video in
  let url := url video in
  try_except
    (dup <- is_already_downloaded video_id (save_path self) ;;
     if dup then
       let success_count := S success_count in
       emit (Finished true (MsgAlreadyExists (slice_to 50 title)) video_id) ;;
       ret (success_count, failed_count)
     else
       let final_filename := final_filename (filename_format self) idx video in
       emit (StatusUpdate (MsgDownloading idx total (slice_to 50 title))) ;;
       w <- get_world ;;
       let output_template := output_template w (save_path self) final_filename in
       download url output_template ;;
       let success_count := S success_count in
       emit (Finished true (MsgDownloaded (slice_to 50 title)) video_id) ;;
       (if (idx <? total) && Qpositive (rate_limit_delay self)
        then time_sleep (rate_limit_delay self)
        else ret tt) ;;
       ret (success_count, failed_count))
    (fun e =>
       let failed_count := S failed_count in
       emit (Finished false (MsgFailed (slice_to 50 title)) video_id) ;;
       ret (success_count, failed_count)).

(** [for idx, video in enumerate(self.videos, idx): if not self._is_running: break ...] *)
Fixpoint for_videos (self : DownloadThread) (total idx : nat)
  (videos : list VideoRecord) (counts : nat * nat) : M (nat * nat) :=
  match videos with
  | [] => ret counts
  | video :: rest =>
      r <- running ;;
      if negb r then ret counts
      else
        counts <- loop_body self total idx video counts ;;
        for_videos self total (S idx) rest counts
  end.

Definition run (self : DownloadThread) : M unit :=
  try_except
    (let total := length (videos self) in
     counts <- for_videos self total 1 (videos self) (0, 0) ;;
     r <- running ;;
     if r then
       emit (StatusUpdate (MsgComplete (fst counts) (snd counts)))
     else ret tt)
    (fun e => emit (StatusUpdate (MsgError e))).

End WithEnv.
End DownloadThread.

(* ===================================================================== *)
(** * Reading a log *)
(* ===================================================================== *)

Module Log.

(** The per-item outcomes: [(success, video_id)] of each [finished] signal. *)
Fixpoint outcomes (l : list Event) : list (bool * str) :=
  match l with
  | [] => []
  | Finished success _ video_id :: l' => (success, video_id) :: outcomes l'
  | _ :: l' => outcomes l'
  end.

(** The aggregate lines. *)
Fixpoint summaries (l : list Event) : list (nat * nat) :=
  match l with
  | [] => []
  | StatusUpdate (MsgComplete s f) :: l' => (s, f) :: summaries l'
  | _ :: l' => summaries l'
  end.

(** The download calls: [(url, outtmpl)]. *)
Fixpoint downloads (l : list Event) : list (str * str) :=
  match l with
  | [] => []
  | CallDownload url outtmpl _ :: l' => (url, outtmpl) :: downloads l'
  | _ :: l' => downloads l'
  end.

(** How many download calls raised. *)
Fixpoint raised (l : list Event) : nat :=
  match l with
  | [] => 0
  | CallDownload _ _ (Raises _) :: l' => S (raised l')
  | _ :: l' => raised l'
  end.

(** How many outcomes report a failure. *)
Definition failures (l : list Event) : nat :=
  length (filter (fun o => negb (fst o)) (outcomes l)).

(** The pauses. *)
Fixpoint sleeps (l : list Event) : list Q :=
  match l with
  | [] => []
  | CallSleep seconds :: l' => seconds :: sleeps l'
  | _ :: l' => sleeps l'
  end.

(** The progress values. *)
Fixpoint progress_values (l : list Event) : list Z :=
  match l with
  | [] => []
  | Progress v :: l' => v :: progress_values l'
  | _ :: l' => progress_values l'
  end.

(** The records handed over by a collector that reports success. *)
Fixpoint collected (l : list Event) : list VideoRecord :=
  match l with
  | [] => []
  | Collected true _ videos :: l' => videos ++ collected l'
  | _ :: l' => collected l'
  end.

End Log.

(* ===================================================================== *)
(** * A small concrete environment *)
(* ===================================================================== *)

Module TestWorld.

(** A scheme followed by [://] and a netloc that ends at ['/'], ['?'] or
    ['#']: the part of [urlparse] that [is_valid_url] looks at. *)
Fixpoint split_at_colon (s : str) : option (str * str) :=
  match s with
  | [] => None
  | c :: s' =>
      if Ascii.eqb c ":"%char then Some ([], s')
      else match split_at_colon s' with
           | Some (a, b) => Some (c :: a, b)
           | None => None
           end
  end.

Fixpoint netloc_of (s : str) : str :=
  match s with
  | [] => []
  | c :: s' => if char_in c (py "/?#") then [] else c :: netloc_of s'
  end.

Definition scheme_chars : str :=
  SecurityUtils.ascii_letters ++ SecurityUtils.digits ++ py "+-.".

Definition urlparse_simple (url : str) : option (str * str) :=
  let (scheme, rest) :=
    match split_at_colon url with
    | Some (c :: a, b) =>
        if char_in c SecurityUtils.ascii_letters
           && forallb (fun x => char_in x scheme_chars) (c :: a)
        then (lower (c :: a), b) else ([], url)
    | _ => ([], url)
    end in
  Some (scheme, if startswith (py "//") rest then netloc_of (skipn 2 rest) else []).

Fixpoint assoc (k : str) (l : list (str * str)) : option str :=
  match l with
  | [] => None
  | (k', v) :: l' => if str_eqb k k' then Some v else assoc k l'
  end.

Record Config := mkConfig {
  save_dir : str;                (* the one directory that can be listed *)
  failing : list str;            (* the urls whose download raises *)
  links : list (str * str);      (* symbolic links: path and target *)
  free_bytes : option Z;         (* what [disk_usage] finds, if it is in range *)
  stop_at : option nat;          (* the first read of the flag that finds False *)
  infos : str -> Outcome (option Info);
  listings : str -> Outcome (option (list (option Entry)))
}.

(** The world is the list of the file names in [save_dir]; a download that
    returns adds its file. *)
Definition env_of (c : Config) : Environment := {|
  World := list str;
  listdir := fun w path => if str_eqb path (save_dir c) then Some w else None;
  abspath := fun _ path => path;
  realpath := fun _ path => match assoc path (links c) with
                            | Some target => target
                            | None => path
                            end;
  disk_free := fun _ _ =>
    match free_bytes c with
    | Some free => if disk_usage_range free then Some free else None
    | None => None
    end;
  disk_free_range := fun _ _ =>
    ltac:(destruct (free_bytes c) as [free|];
          [destruct (disk_usage_range free) eqn:E; [exact E | exact I] | exact I]);
  urlparse := urlparse_simple;
  ydl_download := fun w url outtmpl =>
    if existsb (str_eqb url) (failing c) then (w, Raises (py "DownloadError"))
    else (w ++ [replace (py "%(ext)s") (py "mp4") (PosixPath.basename outtmpl)],
          Returns tt);
  extract_info := fun w url => (w, infos c url);
  extract_flat := fun w url _ => (w, listings c url);
  instaloader_available := fun _ => false;
  from_username := fun w _ => (w, Raises (py "ProfileNotExistsException"));
  sleep := fun w _ => w;
  is_running := fun n => match stop_at c with
                         | Some k => n <? k
                         | None => true
                         end
|}.

Definition video (i t u : string) : VideoRecord :=
  mkVideo (py i) (py t) (py u) [] 0 0 0.

Definition no_info : Info :=
  mkInfo None None None None None None None None None None None.

Definition plain (failing : list str) (links : list (str * str)) (stop_at : option nat)
  : Config :=
  mkConfig (py "/dl") failing links None stop_at
           (fun _ => Returns (Some no_info)) (fun _ => Returns None).

(** Five records. *)
Definition five : list VideoRecord :=
  [ video "id1" "One" "https://example.com/1";
    video "id2" "Two" "https://example.com/2";
    video "id3" "Three" "https://example.com/3";
    video "id4" "Four" "https://example.com/4";
    video "id5" "Five" "https://example.com/5" ].

End TestWorld.

(* ===================================================================== *)
(** * Notions used to state the properties *)
(* ===================================================================== *)

Module Spec.

(** A character of the white list of [sanitize_filename]. *)
Definition allowed (c : ascii) : Prop :=
  char_in c SecurityUtils.valid_chars = true.

Section WithEnv.
Context {env : Environment}.

(** What [is_already_downloaded] answers in a given world. *)
Definition already (w : World) (video_id save_path : str) : bool :=
  match listdir w save_path with
  | Some names => existsb (str_in video_id) names
  | None => false
  end.

(** The pause after a downloaded item: taken when the item is not the last
    one and the delay is positive. *)
Definition paces (self : DownloadThread.DownloadThread) (total idx : nat) : bool :=
  (idx <? total) && Qpositive (DownloadThread.rate_limit_delay self).

(** The destination that the orchestrator passes for a record. *)
Definition destination (self : DownloadThread.DownloadThread) (w : World)
  (idx : nat) (video : VideoRecord) : str :=
  DownloadThread.output_template w (DownloadThread.save_path self)
    (DownloadThread.final_filename (DownloadThread.filename_format self) idx video).

(** The state in which a run started in the world [w] is done with the
    records [pre], the first ones of its batch. *)
Definition state_before (self : DownloadThread.DownloadThread) (w : World)
  (pre : list VideoRecord) : St :=
  snd (DownloadThread.for_videos self (length (DownloadThread.videos self)) 1 pre
         (0, 0) (init w)).

End WithEnv.

(** [time.sleep] holds its argument as a signed 64-bit count of nanoseconds
    and raises [OverflowError] for a delay that does not fit; a delay of at
    most [2^62] nanoseconds fits whatever the rounding. *)
Definition sleep_accepts (seconds : Q) : Prop :=
  (seconds * inject_Z (10 ^ 9) <= inject_Z (2 ^ 62))%Q.

End Spec.
Import Spec.

(** The loop body of [DownloadThread.run] on one record, read off as values:
    the events it adds, the world it leaves and the counters it returns. *)
Module Item.
Section WithEnv.
Context {env : Environment}.
Import DownloadThread.

Definition events (self : DownloadThread) (total idx : nat) (video : VideoRecord)
  (w : World) : list Event :=
  let title50 := slice_to 50 (title video) in
  if already w (id video) (save_path self) then
    [Finished true (MsgAlreadyExists title50) (id video)]
  else
    let dest := destination self w idx video in
    StatusUpdate (MsgDownloading idx total title50) ::
    match snd (ydl_download w (url video) dest) with
    | Returns u =>
        [CallDownload (url video) dest (Returns u);
         Finished true (MsgDownloaded title50) (id video)]
        ++ (if paces self total idx then [CallSleep (rate_limit_delay self)] else [])
    | Raises e =>
        [CallDownload (url video) dest (Raises e);
         Finished false (MsgFailed title50) (id video)]
    end.

Definition world_after (self : DownloadThread) (total idx : nat) (video : VideoRecord)
  (w : World) : World :=
  if already w (id video) (save_path self) then w
  else
    let dest := destination self w idx video in
    match ydl_download w (url video) dest with
    | (w', Returns _) =>
        if paces self total idx then sleep w' (rate_limit_delay self) else w'
    | (w', Raises _) => w'
    end.

Definition counts_after (self : DownloadThread) (idx : nat) (video : VideoRecord)
  (w : World) (counts : nat * nat) : nat * nat :=
  if already w (id video) (save_path self) then (S (fst counts), snd counts)
  else
    match snd (ydl_download w (url video) (destination self w idx video)) with
    | Returns _ => (S (fst counts), snd counts)
    | Raises _ => (fst counts, S (snd counts))
    end.

End WithEnv.
End Item.

(** What the reads of [self._is_running] find. *)
Module Flag.
Section WithEnv.
Context {env : Environment}.

(** The flag is found set by the reads [from], ..., [from + n - 1]. *)
Definition running_during (from n : nat) : Prop :=
  forall i, from <= i < from + n -> is_running i = true.

(** [stop()] is the only writer: once a read finds the flag cleared, so do
    all later reads. *)
Definition sticky : Prop :=
  forall i j, i <= j -> is_running i = false -> is_running j = false.

(** Cancellation is never requested. *)
Definition never_cancelled : Prop := forall i, is_running i = true.

End WithEnv.
End Flag.
Import Flag.

(** Batches run in the concrete environment. *)
Module TestBatch.
Import TestWorld.

(** Five records, format 0, the default delay of 2. *)
Definition five_self : DownloadThread.DownloadThread :=
  DownloadThread.mkDownloadThread five (py "/dl") 0 (2 # 1)%Q.

(** The second download raises; nobody cancels. *)
Definition env_second_fails : Environment :=
  env_of (plain [py "https://example.com/2"] [] None).

(** The third read of the flag finds it cleared: two items were completed. *)
Definition env_cancel_after_two : Environment := env_of (plain [] [] (Some 2)).

(** Nothing fails, nobody cancels. *)
Definition env_quiet : Environment := env_of (plain [] [] None).

(** Two records. *)
Definition two_self : DownloadThread.DownloadThread :=
  DownloadThread.mkDownloadThread
    [ video "ab12" "MyClip" "https://example.com/1";
      video "cd34" "Other" "https://example.com/2" ]
    (py "/dl") 0 (2 # 1)%Q.

(** The first of the two downloads raises. *)
Definition env_first_fails : Environment :=
  env_of (plain [py "https://example.com/1"] [] None).

(** The template of the first record is a symbolic link out of [/dl]. *)
Definition env_linked : Environment :=
  env_of (plain [] [(py "/dl/01_MyClip.%(ext)s", py "/mnt/other/clip.%(ext)s")] None).

End TestBatch.

(** Notions for the collectors and for the disk check. *)
Module CollectSpec.
Section WithEnv.
Context {env : Environment}.

(** What the record invariant asks of a record. *)
Definition well_formed (v : VideoRecord) : Prop :=
  id v <> [] /\ title v <> [] /\ SecurityUtils.is_valid_url (url v) = true.

(** The part of it that [VideoInfoThread] keeps. *)
Definition titled_and_valid (v : VideoRecord) : Prop :=
  title v <> [] /\ SecurityUtils.is_valid_url (url v) = true.

(** [int((idx / total) * 90)] in double precision. *)
Definition truncated_progress (total idx : nat) : Z :=
  py_int (PrimFloat.mul (PrimFloat.div (float_of_Z (Z.of_nat idx))
                                       (float_of_Z (Z.of_nat total)))
                        (float_of_Z 90)).

(** The positions, counted from [idx], of the urls that pass [is_valid_url]. *)
Fixpoint valid_indices (idx : nat) (urls : list str) : list nat :=
  match urls with
  | [] => []
  | url :: rest =>
      if SecurityUtils.is_valid_url url then idx :: valid_indices (S idx) rest
      else valid_indices (S idx) rest
  end.

End WithEnv.

(** In the words of the specification: [z] is [round(idx / total * 90)], an
    integer nearest to the exact quotient, whatever is done with a tie. *)
Definition rounded_progress (total idx : nat) (z : Z) : Prop :=
  (Qabs (inject_Z (Z.of_nat idx) / inject_Z (Z.of_nat total) * 90 - inject_Z z)
   <= 1 # 2)%Q.

End CollectSpec.
Import CollectSpec.

(** Inputs of the collectors and of the disk check in the concrete environment. *)
Module TestCollect.
Import TestWorld.

(** Seven urls that pass the validation. *)
Definition seven_urls : list str :=
  map (fun n => py "https://example.com/v/" ++ str_of_nat n) (seq 1 7).

(** A Facebook page whose flat listing has one entry, with an id, an empty
    title and no url. *)
Definition facebook_page : str := py "https://www.facebook.com/somepage".

Definition bare_entry : Entry :=
  mkEntry (Some (py "v1")) (Some []) None None None None None None.

Definition env_facebook : Environment :=
  env_of (mkConfig (py "/dl") [] [] None None
            (fun _ => Returns (Some no_info))
            (fun url => if str_eqb url facebook_page
                        then Returns (Some [Some bare_entry])
                        else Returns None)).

(** Exactly 100 MiB free. *)
Definition env_100_mib : Environment :=
  env_of (mkConfig (py "/dl") [] [] (Some (100 * 1024 * 1024)%Z) None
            (fun _ => Returns (Some no_info)) (fun _ => Returns None)).

(** One byte more than 8 PiB free. *)
Definition env_8_pib : Environment :=
  env_of (mkConfig (py "/dl") [] [] (Some (2 ^ 53 + 1)%Z) None
            (fun _ => Returns (Some no_info)) (fun _ => Returns None)).

End TestCollect.

(** Characters that [sanitize_filename] leaves alone wherever they stand: on
    the white list and neither a dot nor a space. *)
Module Plain.

Definition plain (c : ascii) : Prop :=
  allowed c /\ c <> "."%char /\ c <> " "%char.

End Plain.
Import Plain.

(** More readings of a log. *)
Module Signals.

(** The terminal signals of a collector: [(success, videos)] of each. *)
Fixpoint finishes (l : list Event) : list (bool * list VideoRecord) :=
  match l with
  | [] => []
  | Collected success _ videos :: l' => (success, videos) :: finishes l'
  | _ :: l' => finishes l'
  end.

(** The ["Error: ..."] status lines. *)
Fixpoint errors (l : list Event) : list str :=
  match l with
  | [] => []
  | StatusUpdate (MsgError e) :: l' => e :: errors l'
  | _ :: l' => errors l'
  end.

(** The ["Invalid URL"] warnings: the indices they name. *)
Fixpoint invalid_warnings (l : list Event) : list nat :=
  match l with
  | [] => []
  | StatusUpdate (MsgInvalidURL idx) :: l' => idx :: invalid_warnings l'
  | _ :: l' => invalid_warnings l'
  end.

End Signals.
Import Signals.

(** What holds of a record made from a post by the [instaloader] path. *)
Module PostSpec.

Definition from_post (v : VideoRecord) : Prop :=
  title v <> [] /\
  length (title v) <= 100 /\
  url v = py "https://www.instagram.com/p/" ++ id v ++ py "/".

End PostSpec.
Import PostSpec.

(** A character that can stand in a profile handle. *)
Module Handle.

Definition handle_char (c : ascii) : Prop := c <> "/"%char /\ c <> "?"%char.

End Handle.
Import Handle.

(* ===================================================================== *)
(** * VersionCheckThread.is_newer_version *)
(* ===================================================================== *)

Module VersionCheckThread.

(** [s.split(c)] for a single character [c]: the pieces between the
    occurrences of [c]; there is always at least one piece. *)
Fixpoint split (c : ascii) (s : str) : list str :=
  match s with
  | [] => [[]]
  | x :: s' =>
      if Ascii.eqb x c then [] :: split c s'
      else match split c s' with
           | piece :: pieces => (x :: piece) :: pieces
           | [] => [[x]]
           end
  end.

(** [a > b] on two lists of integers: the first place where they differ
    decides, and a list is greater than each of its proper prefixes. *)
Fixpoint list_gt (a b : list Z) : bool :=
  match a, b with
  | [], _ => false
  | _ :: _, [] => true
  | x :: a', y :: b' => if (x =? y)%Z then list_gt a' b' else (y <? x)%Z
  end.

Section WithInt.
(** [int(x)] on a string; [None] when it raises. *)
Variable int_of_str : str -> option Z.

(** [[int(x) for x in parts]]; [None] when one of the conversions raises. *)
Fixpoint ints (parts : list str) : option (list Z) :=
  match parts with
  | [] => Some []
  | x :: rest =>
      match int_of_str x with
      | None => None
      | Some n =>
          match ints rest with
          | None => None
          | Some ns => Some (n :: ns)
          end
      end
  end.

(** [v.split('.')] turned into integers. *)
Definition parts_of (version : str) : option (list Z) :=
  ints (split "."%char version).

Definition is_newer_version (latest current : str) : bool :=
  match parts_of latest with
  | None => false
  | Some latest_parts =>
      match parts_of current with
      | None => false
      | Some current_parts => list_gt latest_parts current_parts
      end
  end.

End WithInt.
End VersionCheckThread.

(* ===================================================================== *)
(** * InstagramBatchDownloader: the parts without widgets *)
(* ===================================================================== *)

Module MainWindow.

(** The characters that [str.strip()] removes, among the first 256. *)
Definition whitespace : str :=
  map ascii_of_nat [9; 10; 11; 12; 13; 28; 29; 30; 31; 32; 133; 160].

(** [s.strip()] *)
Definition strip_ws (s : str) : str := strip whitespace s.

(** The cells given to the widgets by the loop of [display_videos], in the
    order of the videos, from the cell [(row, col)] on. *)
Fixpoint cells {A} (videos : list A) (row col : nat) : list (nat * nat) :=
  match videos with
  | [] => []
  | _ :: rest =>
      (row, col) ::
      (let col := col + 1 in
       if 3 <=? col then cells rest (row + 1) 0 else cells rest row col)
  end.

Definition display_videos_cells {A} (videos : list A) : list (nat * nat) :=
  cells videos 0 0.

Section WithEnv.
Context {env : Environment}.

(** [urls] of [load_videos]: the stripped, non-empty lines of the stripped text. *)
Definition urls_of_text (text : str) : list str :=
  let urls_text := strip_ws text in
  map strip_ws
      (filter (fun url => VideoInfoThread.truthy (strip_ws url))
              (VersionCheckThread.split "010"%char urls_text)).

(** [valid_urls] of [load_videos]: what is handed to [VideoInfoThread] when it
    is not empty. *)
Definition valid_urls (text : str) : list str :=
  filter SecurityUtils.is_valid_url (urls_of_text text).

End WithEnv.
End MainWindow.

(** A stand-in for [int]. *)
Module TestVersion.

(** [int(s)] on a string of ASCII decimal digits; the other strings that
    [int] accepts (signs, blanks, underscores) are treated as failures. *)
Fixpoint digits_value (acc : Z) (s : str) : option Z :=
  match s with
  | [] => Some acc
  | c :: s' =>
      let n := nat_of_ascii c in
      if (48 <=? n) && (n <=? 57)
      then digits_value (10 * acc + Z.of_nat (n - 48)) s'
      else None
  end.

Definition int_of_digits (s : str) : option Z :=
  match s with
  | [] => None
  | _ => digits_value 0 s
  end.

End TestVersion.

(** Shapes of what a computation adds to the log. *)
Module Steps.
Section WithEnv.
Context {env : Environment}.

(** [m] adds events without a terminal signal, and its result satisfies [Q]. *)
Definition adds {A} (m : M A) (Q : Res A -> Prop) : Prop :=
  forall st, exists evs,
    log (snd (m st)) = log st ++ evs /\ finishes evs = [] /\ Q (fst (m st)).

(** [evs] ends with its one terminal signal, which satisfies [R]. *)
Definition terminal (R : bool -> list VideoRecord -> Prop) (evs : list Event) : Prop :=
  exists before success message videos,
    evs = before ++ [Collected success message videos] /\
    finishes before = [] /\
    R success videos.

(** [m] returns after its one terminal signal, or raises before any. *)
Definition ends (m : M unit) (R : bool -> list VideoRecord -> Prop) : Prop :=
  forall st, exists evs,
    log (snd (m st)) = log st ++ evs /\
    match fst (m st) with
    | Ok _ => terminal R evs
    | Exc _ => finishes evs = []
    end.

(** [m] returns after its one terminal signal. *)
Definition finishes_once (m : M unit) (R : bool -> list VideoRecord -> Prop) : Prop :=
  forall st, exists evs,
    fst (m st) = Ok tt /\
    log (snd (m st)) = log st ++ evs /\
    terminal R evs.

End WithEnv.
End Steps.
Import Steps.

(** What [ProfileFetchThread] hands over. *)
Module ProfileSpec.

Definition starts_with_http (v : VideoRecord) : Prop :=
  startswith (py "http") (url v) = true.

Definition short_title (v : VideoRecord) : Prop := length (title v) <= 100.

(** A success carries at least one record, each with a title of at most 100
    characters; on Instagram each record comes from a post and there are at
    most [max_videos] of them; on TikTok and YouTube each url starts with
    [http].  A failure carries no record. *)
Definition profile_result (platform : Platform) (max_videos : Z)
  (success : bool) (videos : list VideoRecord) : Prop :=
  (success = true ->
     videos <> [] /\
     Forall short_title videos /\
     (platform = Instagram ->
        Forall from_post videos /\ (Z.of_nat (length videos) <= max_videos)%Z) /\
     (platform = TikTok \/ platform = YouTube -> Forall starts_with_http videos)) /\
  (success = false -> videos = []).

End ProfileSpec.
Import ProfileSpec.

(** [InstagramBatchDownloader.update_disk_space]: what the label shows. *)
Module DiskLabel.

(** The three colours of the label: ["#ff4444"], ["#ff9500"], ["#00d26a"]. *)
Inductive Colour := Red | Orange | Green.

(** The two texts: [f"⚠️ {free_mb:.0f}MB free"] and [f"💾 {free_gb:.1f}GB free"]. *)
Inductive FreeText :=
  | MegaBytes (free_mb : Q)
  | GigaBytes (free_gb : Q).

Section WithEnv.
Context {env : Environment}.

Definition update_disk_space (w : World) (save_directory : str) : Colour * FreeText :=
  let (has_space, free_mb) := SecurityUtils.check_disk_space w save_directory 100 in
  let free_gb := (free_mb / inject_Z 1024)%Q in
  if negb (Qle_bool 1 free_gb) then (Red, MegaBytes free_mb)
  else if negb (Qle_bool 5 free_gb) then (Orange, GigaBytes free_gb)
  else (Green, GigaBytes free_gb).

End WithEnv.
End DiskLabel.

(** An environment with [instaloader]. *)
Module TestInstagram.
Import TestWorld.

Definition post (code : string) (video : bool) (text : option string) : Post :=
  mkPost (py code) (option_map py text) (py "https://cdn.example/" ++ py code)
         video (Some 10%Z) None 3.

(** A photo and three videos. *)
Definition posts : list (Outcome Post) :=
  [ Returns (post "p1" false (Some "a photo"%string));
    Returns (post "v2" true (Some "first clip"%string));
    Returns (post "v3" true None);
    Returns (post "v4" true (Some "third clip"%string)) ].

Definition base : Environment := env_of (plain [] [] None).

Definition env : Environment := {|
  World := @World base;
  listdir := @listdir base;
  abspath := @abspath base;
  realpath := @realpath base;
  disk_free := @disk_free base;
  disk_free_range := @disk_free_range base;
  urlparse := @urlparse base;
  ydl_download := @ydl_download base;
  extract_info := @extract_info base;
  extract_flat := @extract_flat base;
  instaloader_available := fun _ => true;
  from_username := fun w username =>
    if str_eqb username (py "some.user")
    then (w, Returns (mkProfile (py "Some User") 4 posts))
    else (w, Raises (py "Profile is private"));
  sleep := @sleep base;
  is_running := @is_running base
|}.

End TestInstagram.

(* ===================================================================== *)
(** * The definitions on small inputs *)
(* ===================================================================== *)

Example sanitize_hello :
  SecurityUtils.sanitize_filename (py "03_Hello World!!") = py "03_Hello World__".
Proof. reflexivity. Qed.

Example sanitize_traversal :
  SecurityUtils.sanitize_filename (py "../../etc/passwd") = py "etcpasswd".
Proof. reflexivity. Qed.

Example basename_ex : PosixPath.basename (py "/a/b/c.txt") = py "c.txt".
Proof. reflexivity. Qed.

Example dirname_ex1 : PosixPath.dirname (py "/a/b/c.txt") = py "/a/b".
Proof. reflexivity. Qed.

Example dirname_ex2 : PosixPath.dirname (py "/c.txt") = py "/".
Proof. reflexivity. Qed.

Example dirname_ex3 : PosixPath.dirname (py "c.txt") = [].
Proof. reflexivity. Qed.

Example join_ex : PosixPath.join (py "/dl") (py "a.mp4") = py "/dl/a.mp4".
Proof. reflexivity. Qed.

Example replace_ex : replace (py "..") [] (py "a...b....c") = py "a.bc".
Proof. reflexivity. Qed.

Example fmt_ex :
  fmt_02d 3 = py "03" /\ fmt_02d 12 = py "12" /\ fmt_02d 123 = py "123".
Proof. repeat split. Qed.

Example is_valid_url_ex :
  map (fun u => @SecurityUtils.is_valid_url TestBatch.env_quiet (py u))
      ["https://example.com/1"; "ftp://x/"; "http://a/../b"; "example.com"; "https://";
       "HTTP://a.b/c/d/e/f/g/h/i/j/k"; "HTTP://a.b/c/d/e/f/g/h/i/j"]%string
  = [true; false; false; false; false; false; true].
Proof. reflexivity. Qed.

Example detect_platform_ex :
  map (fun u => ProfileFetchThread.detect_platform (py u))
      ["https://www.TikTok.com/@a"; "https://youtu.be/x"; "https://instagram.com/a";
       "https://fb.com/a"; "https://example.com/"]%string
  = [TikTok; YouTube; Instagram; Facebook; Unknown].
Proof. reflexivity. Qed.

Example extract_instagram_username_ex :
  ProfileFetchThread.extract_instagram_username (py "https://www.instagram.com/some.user/?hl=en")
  = Some (py "some.user").
Proof. reflexivity. Qed.

(** An [info] with an empty ['id'] and an empty ['display_id'] gives a record
    with an empty id: the [video_{idx}] default is used for a missing key only. *)
Example video_info_empty_id :
  id (VideoInfoThread.video_info_of 1 (py "https://example.com/1")
        (mkInfo (Some []) (Some []) (Some (py "T")) None None None None None None None None))
  = [].
Proof. reflexivity. Qed.

(** With [max_videos = 3] three posts are looked at, the photo among them:
    two records. *)
Example profile_instagram_ex :
  map (fun v => (id v, title v))
      (Log.collected
         (log (snd (@ProfileFetchThread.run TestInstagram.env
                      (py "https://www.instagram.com/some.user/") 3
                      (@init TestInstagram.env [])))))
  = [(py "v2", py "first clip"); (py "v3", py "Untitled")].
Proof. vm_compute. reflexivity. Qed.

Example profile_private_ex :
  finishes (log (snd (@ProfileFetchThread.run TestInstagram.env
                        (py "https://www.instagram.com/other/") 3
                        (@init TestInstagram.env []))))
  = [(false, [])].
Proof. vm_compute. reflexivity. Qed.

Example update_disk_space_ex :
  fst (@DiskLabel.update_disk_space TestCollect.env_100_mib [] (py "/dl")) = DiskLabel.Red /\
  fst (@DiskLabel.update_disk_space TestBatch.env_quiet [] (py "/dl")) = DiskLabel.Red.
Proof. split; reflexivity. Qed.

Example is_newer_version_ex :
  map (fun p => VersionCheckThread.is_newer_version TestVersion.int_of_digits
                  (py (fst p)) (py (snd p)))
      [("2.0.0", "1.0.0"); ("1.0.0", "1.0.0"); ("1.10", "1.9"); ("1.0.0", "1.0");
       ("1.0", "1.0.0"); ("1.x", "1.0"); ("2", "1.")]%string
  = [true; false; true; true; false; false; false].
Proof. reflexivity. Qed.

Example urls_of_text_ex :
  MainWindow.urls_of_text
    (list_ascii_of_string " https://a.b/1 " ++ ["010"; "010"; "009"]%char ++
     list_ascii_of_string "ftp://x" ++ ["013"; "010"]%char)
  = [py "https://a.b/1"; py "ftp://x"].
Proof. reflexivity. Qed.

Example display_videos_cells_ex :
  MainWindow.display_videos_cells [1; 2; 3; 4; 5; 6; 7]
  = [(0, 0); (0, 1); (0, 2); (1, 0); (1, 1); (1, 2); (2, 0)].
Proof. reflexivity. Qed.

(** Format 0 on index 3 and the title [Hello World!!]. *)
Example final_filename_ex :
  DownloadThread.final_filename 0 3 (TestWorld.video "x" "Hello World!!" "u")
  = py "03_Hello World__".
Proof. reflexivity. Qed.

(** The double-precision product can fall just below an integer that the
    exact quotient reaches: 7 of 10 gives 62, not 63. *)
Example truncated_progress_7_of_10 : truncated_progress 10 7 = 62%Z.
Proof. vm_compute. reflexivity. Qed.

(** Up to sixty urls the value is the floor of the exact quotient or one less. *)
Example truncated_progress_near_floor :
  forallb (fun total =>
    forallb (fun idx =>
      let v := truncated_progress total idx in
      let floor := (90 * Z.of_nat idx / Z.of_nat total)%Z in
      (floor - 1 <=? v)%Z && (v <=? floor)%Z) (seq 1 total)) (seq 1 60) = true.
Proof. vm_compute. reflexivity. Qed.

(* ===================================================================== *)
(** * Facts about strings *)
(* ===================================================================== *)

Section StringFacts.

Lemma startswith_spec (p s : str) :
  startswith p s = true <-> exists q, s = p ++ q.
Proof.
  revert s; induction p as [|a p IH]; intros s; simpl.
  - split; [intros _; now exists s | reflexivity].
  - destruct s as [|b s].
    + split; [discriminate | intros [q Hq]; discriminate].
    + rewrite andb_true_iff, Ascii.eqb_eq, IH. split.
      * intros [-> [q ->]]. now exists q.
      * intros [q Hq]. injection Hq as -> ->. split; [reflexivity | now exists q].
Qed.

(** [needle in hay] holds exactly when [hay] can be cut around [needle]. *)
Lemma str_in_spec (needle hay : str) :
  str_in needle hay = true <-> exists p q, hay = p ++ needle ++ q.
Proof.
  induction hay as [|c hay IH].
  - simpl. rewrite orb_false_r, startswith_spec. split.
    + intros [q Hq]. now exists [], q.
    + intros [p [q Hq]]. destruct p; [now exists q | discriminate].
  - cbn [str_in]. rewrite orb_true_iff, startswith_spec, IH. split.
    + intros [[q Hq] | [p [q Hq]]].
      * now exists [], q.
      * exists (c :: p), q. now rewrite Hq.
    + intros [[|c' p] [q Hq]].
      * left. now exists q.
      * right. injection Hq as _ ->. now exists p, q.
Qed.

Lemma char_in_spec (c : ascii) (chars : str) :
  char_in c chars = true <-> In c chars.
Proof.
  unfold char_in. rewrite existsb_exists. split.
  - intros [x [Hin Heq]]. apply Ascii.eqb_eq in Heq. now subst.
  - intros Hin. exists c. split; [assumption | apply Ascii.eqb_refl].
Qed.

Lemma Forall_lstrip (P : ascii -> Prop) (chars s : str) :
  Forall P s -> Forall P (lstrip chars s).
Proof.
  induction 1 as [|c s Hc Hs IH]; simpl; [constructor|].
  destruct (char_in c chars); [assumption | now constructor].
Qed.

Lemma Forall_strip (P : ascii -> Prop) (chars s : str) :
  Forall P s -> Forall P (strip chars s).
Proof.
  intros H. unfold strip, rstrip.
  apply Forall_rev, Forall_lstrip, Forall_rev, Forall_lstrip, H.
Qed.

Lemma Forall_basename (P : ascii -> Prop) (p : str) :
  Forall P p -> Forall P (PosixPath.basename p).
Proof.
  induction 1 as [|c s Hc Hs IH]; simpl; [constructor|].
  destruct (char_in PosixPath.sep s); [assumption|].
  destruct (Ascii.eqb c PosixPath.sep); [assumption | now constructor].
Qed.

Lemma Forall_slice_to (P : ascii -> Prop) (n : nat) (s : str) :
  Forall P s -> Forall P (slice_to n s).
Proof.
  intros H. unfold slice_to. rewrite <- (firstn_skipn n s) in H.
  now apply Forall_app in H.
Qed.

End StringFacts.

(* ===================================================================== *)
(** * sanitize_filename *)
(* ===================================================================== *)

Section SanitizeFilename.
Import SecurityUtils.

Lemma allowed_not_separator (c : ascii) :
  allowed c -> c <> "/"%char /\ c <> "\"%char.
Proof.
  unfold allowed. intros H. split; intros ->; vm_compute in H; discriminate.
Qed.

(** Every character of a sanitized name is on the white list. *)
Lemma sanitize_filename_allowed (filename : str) :
  Forall allowed (sanitize_filename filename).
Proof.
  assert (Hvideo : Forall allowed (py "video")).
  { repeat constructor. }
  unfold sanitize_filename. destruct filename as [|c0 rest]; [exact Hvideo|].
  set (replaced := replace _ _ _).
  set (mapped := map _ replaced).
  assert (Hm : Forall allowed mapped).
  { unfold mapped. apply Forall_forall. intros c Hc.
    apply in_map_iff in Hc. destruct Hc as [x [<- _]].
    unfold allowed. destruct (char_in x valid_chars) eqn:E; [exact E | reflexivity]. }
  assert (Hb : Forall allowed (PosixPath.basename (strip (py ". ") mapped))).
  { now apply Forall_basename, Forall_strip. }
  set (based := PosixPath.basename _) in *.
  assert (Ht : Forall allowed
                 (if 100 <? length based then slice_to 100 based else based)).
  { destruct (100 <? length based); [now apply Forall_slice_to | assumption]. }
  set (cut := if 100 <? length based then _ else _) in *.
  destruct cut; [exact Hvideo | exact Ht].
Qed.

(** What does hold of every output: neither ['/'] nor ['\'] occurs in it, and
    it is not empty. *)
Lemma sanitize_filename_no_separator_core (filename : str) :
  ~ In "/"%char (sanitize_filename filename) /\
  ~ In "\"%char (sanitize_filename filename) /\
  sanitize_filename filename <> [].
Proof.
  pose proof (sanitize_filename_allowed filename) as H.
  rewrite Forall_forall in H. repeat split.
  - intros Hin. apply H, allowed_not_separator in Hin. now destruct Hin.
  - intros Hin. apply H, allowed_not_separator in Hin. now destruct Hin.
  - unfold sanitize_filename. destruct filename; [discriminate|].
    match goal with |- match ?x with _ => _ end <> _ => destruct x end;
      discriminate.
Qed.

(** X1: whatever the input, the output of [sanitize_filename] contains
    neither [/] nor [\] and is never empty. *)
Theorem sanitize_filename_no_separator (filename : str) :
  ~ In "/"%char (sanitize_filename filename) /\
  ~ In "\"%char (sanitize_filename filename) /\
  sanitize_filename filename <> [].
Proof. intros. apply sanitize_filename_no_separator_core; assumption. Qed.

(** C5 (the code departs from the claim): on the title [a./.b] the removal of
    [..] runs before the removal of [/], so the output [a..b] contains [..],
    and sanitizing it once more gives [ab]: the function is not idempotent and
    its output can contain [..]. *)
Theorem sanitize_filename_dotdot_survives :
  sanitize_filename (py "a./.b") = py "a..b" /\
  str_in (py "..") (sanitize_filename (py "a./.b")) = true /\
  sanitize_filename (sanitize_filename (py "a./.b")) = py "ab" /\
  sanitize_filename (sanitize_filename (py "a./.b")) <> sanitize_filename (py "a./.b").
Proof. repeat split. discriminate. Qed.

End SanitizeFilename.

(* ===================================================================== *)
(** * Reading a log: distribution over concatenation *)
(* ===================================================================== *)

Section LogFacts.
Import Log.

Lemma outcomes_app (a b : list Event) : outcomes (a ++ b) = outcomes a ++ outcomes b.
Proof.
  induction a as [|e a IH]; [reflexivity|].
  destruct e; simpl; now rewrite IH.
Qed.

Lemma summaries_app (a b : list Event) :
  summaries (a ++ b) = summaries a ++ summaries b.
Proof.
  induction a as [|e a IH]; [reflexivity|].
  destruct e as [| |m| | |]; simpl; try now rewrite IH.
  destruct m; simpl; now rewrite IH.
Qed.

Lemma raised_app (a b : list Event) : raised (a ++ b) = raised a + raised b.
Proof.
  induction a as [|e a IH]; [reflexivity|].
  destruct e as [| | | |u o r|]; simpl; try now rewrite IH.
  destruct r; simpl; now rewrite IH.
Qed.

Lemma failures_app (a b : list Event) : failures (a ++ b) = failures a + failures b.
Proof.
  unfold failures. now rewrite outcomes_app, filter_app, length_app.
Qed.

Lemma sleeps_app (a b : list Event) : sleeps (a ++ b) = sleeps a ++ sleeps b.
Proof.
  induction a as [|e a IH]; [reflexivity|].
  destruct e; simpl; now rewrite IH.
Qed.

Lemma downloads_app (a b : list Event) :
  downloads (a ++ b) = downloads a ++ downloads b.
Proof.
  induction a as [|e a IH]; [reflexivity|].
  destruct e; simpl; now rewrite IH.
Qed.

Lemma progress_values_app (a b : list Event) :
  progress_values (a ++ b) = progress_values a ++ progress_values b.
Proof.
  induction a as [|e a IH]; [reflexivity|].
  destruct e; simpl; now rewrite IH.
Qed.

End LogFacts.

(* ===================================================================== *)
(** * DownloadThread: one item *)
(* ===================================================================== *)

Section DownloadItem.
Context {env : Environment}.
Import DownloadThread Log.
Variable self : DownloadThread.

Lemma is_already_downloaded_eq (video_id path : str) (st : St) :
  is_already_downloaded video_id path st = (Ok (already (world st) video_id path), st).
Proof.
  unfold is_already_downloaded, try_except, os_listdir, bind, get_world, already.
  destruct (listdir (world st) path); reflexivity.
Qed.

(** The loop body never lets an exception out, touches neither the read
    counter nor the earlier log, and does what [Item] says. *)
Lemma loop_body_eq (total idx : nat) (video : VideoRecord) (counts : nat * nat) (st : St) :
  loop_body self total idx video counts st =
  (Ok (Item.counts_after self idx video (world st) counts),
   mkSt (Item.world_after self total idx video (world st)) (reads st)
        (log st ++ Item.events self total idx video (world st))).
Proof.
  destruct counts as [s f].
  unfold loop_body, try_except, bind.
  rewrite is_already_downloaded_eq.
  unfold Item.counts_after, Item.world_after, Item.events.
  destruct (already (world st) (id video) (save_path self)) eqn:Hdup.
  - reflexivity.
  - unfold emit, get_world, download, destination. simpl.
    destruct (ydl_download _ _ _) as [w' [u|e]]; simpl.
    + unfold paces. destruct ((idx <? total) && _); simpl.
      * unfold time_sleep, bind, emit, get_world, set_world. simpl.
        now rewrite <- !app_assoc.
      * now rewrite <- !app_assoc.
    + now rewrite <- !app_assoc.
Qed.

(** Each item adds exactly one outcome, for its own id, and no summary. *)
Lemma item_outcomes (total idx : nat) (video : VideoRecord) (w : World) :
  exists success,
    outcomes (Item.events self total idx video w) = [(success, id video)] /\
    summaries (Item.events self total idx video w) = [] /\
    (success = false <-> raised (Item.events self total idx video w) = 1) /\
    (success = true <-> raised (Item.events self total idx video w) = 0) /\
    failures (Item.events self total idx video w) =
      raised (Item.events self total idx video w).
Proof.
  unfold Item.events.
  destruct (already _ _ _).
  - exists true. simpl. repeat split; auto; discriminate.
  - destruct (snd (ydl_download _ _ _)) as [u|e].
    + exists true. destruct (paces self total idx); simpl;
        repeat split; auto; discriminate.
    + exists false. simpl. repeat split; auto; discriminate.
Qed.

Lemma item_counts (total idx : nat) (video : VideoRecord) (w : World) (s f : nat) :
  Item.counts_after self idx video w (s, f) =
  (S s - raised (Item.events self total idx video w),
   f + raised (Item.events self total idx video w)).
Proof.
  unfold Item.counts_after, Item.events.
  destruct (already _ _ _); simpl.
  - f_equal; lia.
  - destruct (snd (ydl_download _ _ _)) as [u|e]; simpl.
    + destruct (paces self total idx); simpl; f_equal; lia.
    + f_equal; lia.
Qed.

End DownloadItem.

(* ===================================================================== *)
(** * DownloadThread: the loop *)
(* ===================================================================== *)

Section DownloadLoop.
Context {env : Environment}.
Import DownloadThread Log.
Variable self : DownloadThread.

Lemma for_videos_break (total idx : nat) (video : VideoRecord)
  (rest : list VideoRecord) (counts : nat * nat) (st : St) :
  is_running (reads st) = false ->
  for_videos self total idx (video :: rest) counts st =
  (Ok counts, mkSt (world st) (S (reads st)) (log st)).
Proof.
  intros H. simpl. unfold bind, running. now rewrite H.
Qed.

Lemma for_videos_step (total idx : nat) (video : VideoRecord)
  (rest : list VideoRecord) (counts : nat * nat) (st : St) :
  is_running (reads st) = true ->
  for_videos self total idx (video :: rest) counts st =
  for_videos self total (S idx) rest
    (Item.counts_after self idx video (world st) counts)
    (mkSt (Item.world_after self total idx video (world st)) (S (reads st))
          (log st ++ Item.events self total idx video (world st))).
Proof.
  intros H. simpl. unfold bind at 1. unfold running. rewrite H. simpl.
  unfold bind. now rewrite loop_body_eq.
Qed.

(** While the flag stays set, every record gets its one outcome, in order. *)
Lemma for_videos_running (total : nat) (vs : list VideoRecord) :
  forall (idx s f : nat) (st : St),
    running_during (reads st) (length vs) ->
    exists s' f' w' evs,
      for_videos self total idx vs (s, f) st =
        (Ok (s', f'), mkSt w' (reads st + length vs) (log st ++ evs)) /\
      map snd (outcomes evs) = map id vs /\
      summaries evs = [] /\
      failures evs = raised evs /\
      f' = f + raised evs /\
      s' + f' = s + f + length vs.
Proof.
  induction vs as [|v vs IH]; intros idx s f st Hrun.
  - exists s, f, (world st), []. simpl. unfold ret.
    rewrite Nat.add_0_r, app_nil_r. destruct st; simpl.
    repeat split; auto; lia.
  - rewrite for_videos_step by (apply Hrun; simpl; lia).
    rewrite (item_counts self total).
    set (evs := Item.events self total idx v (world st)).
    set (st1 := mkSt _ _ _).
    destruct (IH (S idx) (S s - raised evs) (f + raised evs) st1)
      as (s' & f' & w' & evs' & Heq & Hids & Hsum & Hfail & Hf & Hsf).
    { intros i Hi. apply Hrun. simpl in *. lia. }
    destruct (item_outcomes self total idx v (world st))
      as (b & Hout & Hnos & Hfalse & Htrue & Hfr).
    fold evs in Hout, Hnos, Hfalse, Htrue, Hfr.
    exists s', f', w', (evs ++ evs').
    rewrite Heq. simpl.
    rewrite outcomes_app, summaries_app, raised_app, failures_app, Hout, Hnos.
    simpl. rewrite Hids, <- app_assoc.
    replace (S (reads st + length vs)) with (reads st + S (length vs)) by lia.
    repeat split; auto.
    + lia.
    + assert (raised evs <= 1) by (destruct b; [rewrite (proj1 Htrue) | rewrite (proj1 Hfalse)]; auto).
      lia.
Qed.

(** The loop over a list cut in two, when the flag stays set over the first part. *)
Lemma for_videos_app (total : nat) (pre post : list VideoRecord) :
  forall (idx : nat) (counts c1 : nat * nat) (st st1 : St),
    running_during (reads st) (length pre) ->
    for_videos self total idx pre counts st = (Ok c1, st1) ->
    for_videos self total idx (pre ++ post) counts st =
    for_videos self total (idx + length pre) post c1 st1.
Proof.
  induction pre as [|v pre IH]; intros idx counts c1 st st1 Hrun Hpre.
  - simpl in *. unfold ret in Hpre. injection Hpre as <- <-.
    now rewrite Nat.add_0_r.
  - rewrite <- app_comm_cons.
    rewrite for_videos_step in * by (apply Hrun; simpl; lia).
    rewrite (IH _ _ c1 _ st1); [f_equal; simpl; lia | | exact Hpre].
    intros i Hi. apply Hrun. simpl in *. lia.
Qed.

End DownloadLoop.

(* ===================================================================== *)
(** * DownloadThread.run *)
(* ===================================================================== *)

Section DownloadRun.
Context {env : Environment}.
Import DownloadThread Log.
Variable self : DownloadThread.

Lemma run_eq (st st1 : St) (c1 : nat * nat) :
  for_videos self (length (videos self)) 1 (videos self) (0, 0) st = (Ok c1, st1) ->
  run self st =
  (Ok tt,
   mkSt (world st1) (S (reads st1))
        (if is_running (reads st1)
         then log st1 ++ [StatusUpdate (MsgComplete (fst c1) (snd c1))]
         else log st1)).
Proof.
  intros H. unfold run, try_except, bind. rewrite H.
  unfold running. simpl. destruct (is_running (reads st1)); reflexivity.
Qed.

(** A run that is cancelled when [k] items are done: the loop handles the
    first [k] records and leaves at the next read of the flag. *)
Lemma for_videos_cancelled (total k : nat) (vs : list VideoRecord) (st : St) :
  k < length vs ->
  running_during (reads st) k ->
  is_running (reads st + k) = false ->
  exists c w' evs,
    for_videos self total 1 vs (0, 0) st =
      (Ok c, mkSt w' (S (reads st + k)) (log st ++ evs)) /\
    length (outcomes evs) = k /\
    map snd (outcomes evs) = map id (firstn k vs) /\
    summaries evs = [].
Proof.
  intros Hk Hrun Hstop.
  replace (for_videos self total 1 vs)
    with (for_videos self total 1 (firstn k vs ++ skipn k vs))
    by now rewrite firstn_skipn.
  assert (Hlen : length (firstn k vs) = k) by (rewrite length_firstn; lia).
  destruct (for_videos_running self total (firstn k vs) 1 0 0 st)
    as (s' & f' & w' & evs & Heq & Hids & Hsum & _).
  { now rewrite Hlen. }
  rewrite (for_videos_app self total (firstn k vs) (skipn k vs) 1 (0, 0) st
             ltac:(now rewrite Hlen) Heq).
  destruct (skipn k vs) as [|v rest] eqn:Hskip.
  { apply (f_equal (@length _)) in Hskip. rewrite length_skipn in Hskip.
    simpl in Hskip. lia. }
  rewrite for_videos_break by (simpl; now rewrite Hlen).
  simpl. rewrite Hlen.
  exists (s', f'), w', evs. repeat split; auto.
  rewrite <- (length_map snd), Hids, length_map. exact Hlen.
Qed.

End DownloadRun.

(** The first index at which a boolean sequence is false. *)
Lemma first_cleared (f : nat -> bool) (i : nat) :
  f i = false -> exists k, k <= i /\ f k = false /\ forall j, j < k -> f j = true.
Proof.
  induction i as [i IH] using lt_wf_ind. intros Hi.
  destruct (existsb (fun j => negb (f j)) (seq 0 i)) eqn:Hex.
  - apply existsb_exists in Hex. destruct Hex as (j & Hj & Hfj).
    apply in_seq in Hj. apply negb_true_iff in Hfj.
    destruct (IH j ltac:(lia) Hfj) as (k & Hk & Hfk & Hbefore).
    exists k. repeat split; auto. lia.
  - exists i. repeat split; auto. intros j Hj.
    destruct (f j) eqn:Hfj; [reflexivity|].
    assert (existsb (fun j => negb (f j)) (seq 0 i) = true) as Hc.
    { apply existsb_exists. exists j. split; [apply in_seq; lia | now rewrite Hfj]. }
    congruence.
Qed.

(** C2: when cancellation is never requested, the outcomes of a run are those
    of the input records, one each and in input order; the run ends with the
    one aggregate line, whose failed count is the number of downloads that
    raised and whose success count is the number of the other records; so
    with exactly one raising download (item 2 of 5, say) it reports
    failed = 1 and success = n - 1. *)
Theorem run_one_outcome_per_record {env : Environment}
  (self : DownloadThread.DownloadThread) (w : World) :
  never_cancelled ->
  let l := log (snd (DownloadThread.run self (init w))) in
  let n := length (DownloadThread.videos self) in
  map snd (Log.outcomes l) = map id (DownloadThread.videos self) /\
  (exists evs,
     l = evs ++ [StatusUpdate (MsgComplete (n - Log.raised l) (Log.raised l))] /\
     Log.summaries evs = []) /\
  Log.failures l = Log.raised l /\
  Log.raised l <= n /\
  (Log.raised l = 1 -> Log.summaries l = [(n - 1, 1)]).
Proof.
  intros Hnever l n.
  destruct (for_videos_running self n (DownloadThread.videos self) 1 0 0 (init w))
    as (s' & f' & w' & evs & Heq & Hids & Hsum & Hfail & Hf & Hsf).
  { intros i _. apply Hnever. }
  simpl in Heq, Hf, Hsf. fold n in Hsf.
  assert (Hl : l = evs ++ [StatusUpdate (MsgComplete s' f')]).
  { unfold l. rewrite (run_eq self (init w) Heq). simpl. now rewrite Hnever. }
  assert (Hr : Log.raised l = Log.raised evs).
  { rewrite Hl, raised_app. simpl. lia. }
  assert (Hs : s' = n - Log.raised l) by lia.
  assert (Hf' : f' = Log.raised l) by lia.
  repeat split.
  - rewrite Hl, outcomes_app. simpl. now rewrite app_nil_r.
  - exists evs. split; [now rewrite Hl at 1; rewrite Hs, Hf' | exact Hsum].
  - rewrite Hr, Hl, failures_app. unfold Log.failures at 2. simpl. lia.
  - lia.
  - intros H1. rewrite Hl, summaries_app, Hsum. simpl. rewrite Hs, Hf', H1.
    reflexivity.
Qed.

(** Item 2 of 5 raises: five outcomes in input order, summary 4 and 1. *)
Lemma run_one_outcome_per_record_witness :
  let l := log (snd (@DownloadThread.run TestBatch.env_second_fails
                       TestBatch.five_self (@init TestBatch.env_second_fails []))) in
  map snd (Log.outcomes l) = map id TestWorld.five /\
  Log.raised l = 1 /\
  Log.summaries l = [(4, 1)].
Proof.
  pose proof (@run_one_outcome_per_record TestBatch.env_second_fails
                TestBatch.five_self [] (fun i => eq_refl)) as H.
  cbv zeta in H. destruct H as (Hids & _ & _ & _ & Hone).
  split; [exact Hids|]. split; [reflexivity|]. apply Hone. reflexivity.
Defined.

(** C4: with a flag that stays cleared once cleared, a run cancelled after
    item [k] of [n] ([k < n]: the reads for the first [k] items find the flag
    set, the next one finds it cleared) emits exactly [k] outcomes, those of
    the first [k] records, and no aggregate line; and an aggregate line is in
    the log only if every read of the run found the flag set. *)
Theorem run_cancelled_no_summary {env : Environment}
  (self : DownloadThread.DownloadThread) (w : World) :
  sticky ->
  let l := log (snd (DownloadThread.run self (init w))) in
  let n := length (DownloadThread.videos self) in
  (forall k, k < n -> running_during 0 k -> is_running k = false ->
     length (Log.outcomes l) = k /\
     map snd (Log.outcomes l) = map id (firstn k (DownloadThread.videos self)) /\
     Log.summaries l = []) /\
  (Log.summaries l <> [] -> forall i, i <= n -> is_running i = true).
Proof.
  intros Hsticky l n.
  assert (Hcancel : forall k, k < n -> running_during 0 k -> is_running k = false ->
     length (Log.outcomes l) = k /\
     map snd (Log.outcomes l) = map id (firstn k (DownloadThread.videos self)) /\
     Log.summaries l = []).
  { intros k Hk Hrun Hstop.
    destruct (for_videos_cancelled self n (DownloadThread.videos self) (init w) Hk Hrun Hstop)
      as (c & w' & evs & Heq & Hlen & Hids & Hsum).
    unfold l. rewrite (run_eq self (init w) Heq). simpl.
    rewrite (Hsticky k (S k)) by (auto; lia). auto. }
  split; [exact Hcancel|].
  intros Hsum i Hi.
  destruct (is_running i) eqn:Hri; [reflexivity|]. exfalso. apply Hsum.
  (* the first read that finds the flag cleared *)
  assert (Hfirst : exists k, k <= i /\ is_running k = false /\ running_during 0 k).
  { destruct (first_cleared is_running i Hri) as (k & Hk & Hrk & Hbefore).
    exists k. repeat split; auto. intros j Hj. apply Hbefore. lia. }
  destruct Hfirst as (k & Hki & Hrk & Hbefore).
  destruct (Nat.lt_ge_cases k n) as [Hlt | Hge].
  - now apply (Hcancel k Hlt Hbefore).
  - assert (k = n) by lia. subst k.
    destruct (for_videos_running self n (DownloadThread.videos self) 1 0 0 (init w))
      as (s' & f' & w' & evs & Heq & Hids & Hnos & _).
    { exact Hbefore. }
    unfold l. rewrite (run_eq self (init w) Heq). simpl.
    fold n. now rewrite Hrk.
Qed.

(** Cancelled after item 2 of 5: two outcomes and no aggregate line. *)
Lemma run_cancelled_no_summary_witness :
  let l := log (snd (@DownloadThread.run TestBatch.env_cancel_after_two
                       TestBatch.five_self (@init TestBatch.env_cancel_after_two []))) in
  length (Log.outcomes l) = 2 /\
  map snd (Log.outcomes l) = [py "id1"; py "id2"] /\
  Log.summaries l = [].
Proof.
  assert (Hsticky : @sticky TestBatch.env_cancel_after_two).
  { intros i j Hij Hi. simpl in *. apply Nat.ltb_ge in Hi. apply Nat.ltb_ge. lia. }
  pose proof (@run_cancelled_no_summary TestBatch.env_cancel_after_two
                TestBatch.five_self [] Hsticky) as H.
  cbv zeta in H. destruct H as [H _].
  apply (H 2).
  - simpl. lia.
  - intros i Hi. simpl. apply Nat.ltb_lt. lia.
  - reflexivity.
Defined.

(** C10: when the save directory cannot be listed, the duplicate check
    answers "not downloaded" without raising and leaves the state as it was;
    the loop body then calls the downloader for the record, lets no exception
    out, and the loop goes on with the next record. *)
Theorem listdir_failure_proceeds {env : Environment}
  (self : DownloadThread.DownloadThread) (total idx : nat)
  (video : VideoRecord) (rest : list VideoRecord) (counts : nat * nat) (st : St) :
  listdir (world st) (DownloadThread.save_path self) = None ->
  DownloadThread.is_already_downloaded (id video) (DownloadThread.save_path self) st
    = (Ok false, st) /\
  exists result counts' st' evs,
    DownloadThread.loop_body self total idx video counts st = (Ok counts', st') /\
    log st' =
      log st ++
      StatusUpdate (MsgDownloading idx total (slice_to 50 (title video))) ::
      CallDownload (url video) (destination self (world st) idx video) result :: evs /\
    Log.outcomes evs = [(match result with Returns _ => true | Raises _ => false end,
                         id video)] /\
    (is_running (reads st) = true ->
     DownloadThread.for_videos self total idx (video :: rest) counts st =
     DownloadThread.for_videos self total (S idx) rest counts'
       (mkSt (world st') (S (reads st)) (log st'))).
Proof.
  intros Hlist.
  assert (Hdup : already (world st) (id video) (DownloadThread.save_path self) = false).
  { unfold already. now rewrite Hlist. }
  split.
  - now rewrite is_already_downloaded_eq, Hdup.
  - rewrite loop_body_eq.
    exists (snd (ydl_download (world st) (url video) (destination self (world st) idx video))).
    eexists. eexists.
    exists (tl (tl (Item.events self total idx video (world st)))).
    split; [reflexivity|].
    split; [|split].
    + cbn [log]. f_equal. unfold Item.events. rewrite Hdup.
      destruct (snd (ydl_download _ _ _)) as [u|e]; reflexivity.
    + unfold Item.events. rewrite Hdup.
      destruct (snd (ydl_download _ _ _)) as [u|e]; [|reflexivity].
      destruct (paces self total idx); reflexivity.
    + intros Hr. now rewrite for_videos_step by exact Hr.
Qed.

(** The directory [/gone] cannot be listed: the download is called. *)
Lemma listdir_failure_proceeds_witness :
  @DownloadThread.is_already_downloaded TestBatch.env_quiet
     (py "ab12") (py "/gone") (@init TestBatch.env_quiet [py "07_MyClip_ab12.mp4"])
  = (Ok false, @init TestBatch.env_quiet [py "07_MyClip_ab12.mp4"]).
Proof.
  apply (@listdir_failure_proceeds TestBatch.env_quiet
           (DownloadThread.mkDownloadThread [] (py "/gone") 0 (2 # 1)%Q) 1 1
           (TestWorld.video "ab12" "MyClip" "https://example.com/1") [] (0, 0)
           (@init TestBatch.env_quiet [py "07_MyClip_ab12.mp4"])).
  reflexivity.
Defined.

Lemma Qpositive_spec (q : Q) : Qpositive q = true <-> (0 < q)%Q.
Proof.
  unfold Qpositive. rewrite negb_true_iff. split.
  - intros H. apply Qnot_le_lt. intros Hle.
    apply Qle_bool_iff in Hle. congruence.
  - intros H. destruct (Qle_bool q 0) eqn:E; [|reflexivity].
    apply Qle_bool_iff in E. exfalso. now apply (Qlt_not_le _ _ H).
Qed.

(** C7 (the claim fails on the code): in a batch of two with the delay 2, a
    first record that is skipped as a duplicate, or whose download raises, is
    followed by the second record without any pause. *)
Lemma no_pause_after_skip_or_failure :
  let skipped := log (snd (@DownloadThread.run TestBatch.env_quiet TestBatch.two_self
                             (@init TestBatch.env_quiet [py "07_MyClip_ab12.mp4"]))) in
  let failed := log (snd (@DownloadThread.run TestBatch.env_first_fails TestBatch.two_self
                            (@init TestBatch.env_first_fails []))) in
  (0 < DownloadThread.rate_limit_delay TestBatch.two_self)%Q /\
  Log.outcomes skipped = [(true, py "ab12"); (true, py "cd34")] /\
  In (Finished true (MsgAlreadyExists (py "MyClip")) (py "ab12")) skipped /\
  Log.sleeps skipped = [] /\
  Log.outcomes failed = [(false, py "ab12"); (true, py "cd34")] /\
  Log.sleeps failed = [].
Proof.
  cbv zeta. repeat split; try reflexivity. vm_compute. now left.
Qed.

(** C1 (the code departs from the claim): the template of the first record is
    a symbolic link that leads out of the save directory; the run passes the
    resolved path to the downloader although its parent is not the canonical
    save directory, and reports the item as downloaded. *)
Theorem download_outside_save_dir :
  let w : @World TestBatch.env_linked := [] in
  let l := log (snd (@DownloadThread.run TestBatch.env_linked TestBatch.two_self
                       (@init TestBatch.env_linked w))) in
  let save_dir := @SecurityUtils.sanitize_path TestBatch.env_linked w
                    (DownloadThread.save_path TestBatch.two_self) in
  Log.downloads l =
    [(py "https://example.com/1", py "/mnt/other/clip.%(ext)s");
     (py "https://example.com/2", py "/dl/02_Other.%(ext)s")] /\
  Log.outcomes l = [(true, py "ab12"); (true, py "cd34")] /\
  save_dir = py "/dl" /\
  PosixPath.dirname (py "/mnt/other/clip.%(ext)s") = py "/mnt/other" /\
  PosixPath.dirname (py "/mnt/other/clip.%(ext)s") <> save_dir.
Proof.
  cbv zeta. repeat split; try reflexivity. vm_compute. discriminate.
Qed.

(* ===================================================================== *)
(** * SecurityUtils.check_disk_space *)
(* ===================================================================== *)

Section DoubleFacts.
Import PyNum.
Local Open Scope Z_scope.

Lemma round_half_even_near (n d : Z) :
  0 < d -> n / d <= round_half_even n d /\ 2 * Z.abs (round_half_even n d * d - n) <= d.
Proof.
  intros Hd. unfold round_half_even.
  pose proof (Z.div_mod n d ltac:(lia)) as Hdm.
  pose proof (Z.mod_pos_bound n d Hd) as Hr.
  set (q := n / d) in *. set (r := n mod d) in *.
  destruct (2 * r <? d) eqn:E1; [apply Z.ltb_lt in E1; split; [lia|nia]|].
  apply Z.ltb_ge in E1.
  destruct (d <? 2 * r) eqn:E2; [apply Z.ltb_lt in E2; split; [lia|nia]|].
  apply Z.ltb_ge in E2.
  destruct (Z.even q); split; try lia; nia.
Qed.

(** An integer of at most 53 bits is a double. *)
Lemma to_double_small (z : Z) : Z.abs z < 2 ^ 53 -> to_double z = z.
Proof. intros H. unfold to_double. apply Z.ltb_lt in H. now rewrite H. Qed.

(** Beyond that the double keeps the sign, stays beyond [2^53] and is within
    the relative distance [2^-53] of the integer. *)
Lemma to_double_magnitude (z : Z) :
  2 ^ 53 <= Z.abs z ->
  2 ^ 53 <= Z.abs (to_double z) /\
  to_double z = Z.sgn z * Z.abs (to_double z) /\
  Z.abs (to_double z - z) * 2 ^ 53 <= Z.abs z.
Proof.
  intros H. unfold to_double.
  destruct (Z.abs z <? 2 ^ 53) eqn:E; [apply Z.ltb_lt in E; lia|]. clear E.
  set (a := Z.abs z) in *.
  assert (Ha : 0 < a) by lia.
  assert (Hlog : 53 <= Z.log2 a).
  { change 53 with (Z.log2 (2 ^ 53)). now apply Z.log2_le_mono. }
  set (e := Z.log2 a - 52).
  assert (He : 1 <= e) by (unfold e; lia).
  destruct (Z.log2_spec a Ha) as [Hlo Hhi].
  replace (Z.log2 a) with (52 + e) in Hlo by (unfold e; lia).
  rewrite Z.pow_add_r in Hlo by lia.
  assert (Hd : 0 < 2 ^ e) by (apply Z.pow_pos_nonneg; lia).
  assert (Hd2 : 2 <= 2 ^ e).
  { change 2 with (2 ^ 1) at 1. apply Z.pow_le_mono_r; lia. }
  destruct (round_half_even_near a Hd) as [Hq Hnear].
  assert (Hq52 : 2 ^ 52 <= a / 2 ^ e) by (apply Z.div_le_lower_bound; lia).
  set (m := round_half_even a (2 ^ e)) in *.
  assert (Hm : 2 ^ 52 <= m) by lia.
  assert (Hmd : 2 ^ 53 <= m * 2 ^ e) by nia.
  destruct (Z.sgn_spec z) as [[Hz Hs]|[[Hz Hs]|[Hz Hs]]]; rewrite Hs.
  - assert (a = z) by (unfold a; lia).
    rewrite Z.mul_1_l. rewrite (Z.abs_eq (m * 2 ^ e)) by lia.
    split; [lia|]. split; [lia|]. nia.
  - unfold a in H. subst z. simpl in H. lia.
  - assert (a = - z) by (unfold a; lia).
    split; [lia|]. split; [lia|].
    assert (Habs : Z.abs (- (1) * (m * 2 ^ e) - z) = Z.abs (m * 2 ^ e - a)) by lia.
    rewrite Habs. nia.
Qed.

(** Rounding does not carry a byte count across a bound that is itself a
    double below [2^53]. *)
Lemma to_double_le (bound z : Z) :
  Z.abs bound < 2 ^ 53 -> (bound <= to_double z <-> bound <= z).
Proof.
  intros Hb.
  destruct (Z.lt_ge_cases (Z.abs z) (2 ^ 53)) as [Hsmall | Hbig].
  - now rewrite to_double_small.
  - destruct (to_double_magnitude z Hbig) as (Hm & Hsgn & _).
    destruct (Z.sgn_spec z) as [[Hz Hs]|[[Hz Hs]|[Hz Hs]]]; rewrite Hs in Hsgn; lia.
Qed.

End DoubleFacts.

(** C8 (the claim fails on the code): with exactly 100 MiB free and 100
    required, at least the required amount is free and the answer is [False];
    and with [2^53 + 1] bytes free and [2^33] megabytes required, more than
    the required amount is free, the quotient is rounded to [2^33] and the
    answer is [False] again. *)
Lemma check_disk_space_at_the_limit :
  let r := @SecurityUtils.check_disk_space TestCollect.env_100_mib [] (py "/dl") 100 in
  let big := @SecurityUtils.check_disk_space TestCollect.env_8_pib [] (py "/dl") (2 ^ 33) in
  (fst r = false /\ (inject_Z 100 <= snd r)%Q /\ (snd r == 100)%Q) /\
  (fst big = false /\ (snd big == inject_Z (2 ^ 33))%Q /\
   (2 ^ 33 * (1024 * 1024) < 2 ^ 53 + 1)%Z).
Proof.
  cbv zeta. repeat split; vm_compute; try reflexivity; discriminate.
Qed.

(** C8, as the code has it: when the file system answers, the second
    component is the double nearest to the quotient of the byte count by
    [1024 * 1024] (the byte count rounded to 53 significant bits, divided by
    [2^20]; the quotient itself below [2^53] bytes), and the first component
    is [True] exactly when that number is strictly greater than
    [required_mb]; the division cannot overflow on a byte count that
    [disk_usage] reports; when the query fails, the result is [(True, 0)]. *)
Theorem check_disk_space_strict {env : Environment}
  (w : World) (path : str) (required_mb : Z) :
  match disk_free w path with
  | Some free =>
      let r := SecurityUtils.check_disk_space w path required_mb in
      (fst r = true <-> (inject_Z required_mb < snd r)%Q) /\
      (fst r = true <-> (required_mb * (1024 * 1024) < to_double free)%Z) /\
      (snd r == inject_Z (to_double free) / inject_Z (1024 * 1024))%Q /\
      (Z.abs (to_double free - free) * 2 ^ 53 <= Z.abs free)%Z /\
      (Z.abs (to_double free) < 2 ^ 1024)%Z /\
      ((Z.abs free < 2 ^ 53)%Z ->
       to_double free = free /\
       (snd r == inject_Z free / inject_Z (1024 * 1024))%Q /\
       (fst r = true <-> (required_mb * (1024 * 1024) < free)%Z))
  | None => SecurityUtils.check_disk_space w path required_mb = (true, 0%Q)
  end.
Proof.
  unfold SecurityUtils.check_disk_space.
  pose proof (disk_free_range w path) as Hrange.
  destruct (disk_free w path) as [free|]; [|reflexivity].
  cbv zeta. cbn [fst snd].
  set (free_mb := (inject_Z (to_double free) / inject_Z (1024 * 1024))%Q).
  assert (Hnear : (Z.abs (to_double free - free) * 2 ^ 53 <= Z.abs free)%Z).
  { destruct (Z.lt_ge_cases (Z.abs free) (2 ^ 53)) as [Hsmall | Hbig].
    - rewrite to_double_small by exact Hsmall. rewrite Z.sub_diag. simpl. lia.
    - now destruct (to_double_magnitude free Hbig) as (_ & _ & H). }
  assert (Hlt : (inject_Z required_mb < free_mb)%Q <->
                (required_mb * (1024 * 1024) < to_double free)%Z).
  { unfold free_mb, Qlt, Qdiv, Qmult, Qinv, inject_Z. simpl. lia. }
  assert (Hb : negb (Qle_bool free_mb (inject_Z required_mb)) = true <->
               (inject_Z required_mb < free_mb)%Q).
  { rewrite negb_true_iff. split.
    - intros H. apply Qnot_le_lt. intros Hle.
      apply Qle_bool_iff in Hle. congruence.
    - intros H. destruct (Qle_bool free_mb (inject_Z required_mb)) eqn:E;
        [|reflexivity].
      apply Qle_bool_iff in E. exfalso. now apply (Qlt_not_le _ _ H). }
  split; [exact Hb|]. split; [now rewrite Hb|]. split; [reflexivity|].
  split; [exact Hnear|]. split.
  - unfold disk_usage_range in Hrange. apply andb_true_iff in Hrange.
    destruct Hrange as [Hlo Hhi]. apply Z.leb_le in Hlo, Hhi.
    assert (Z.abs free <= 2 ^ 126)%Z by lia.
    assert (2 ^ 127 < 2 ^ 1024)%Z by (apply Z.pow_lt_mono_r; lia).
    assert (2 ^ 127 = 2 * 2 ^ 126)%Z by reflexivity.
    assert (0 < 2 ^ 53)%Z by reflexivity.
    assert (Z.abs (to_double free - free) <= Z.abs free)%Z by nia.
    lia.
  - intros Hsmall. unfold free_mb in *.
    rewrite to_double_small in * by exact Hsmall.
    split; [reflexivity|]. split; [reflexivity|]. now rewrite Hb.
Qed.

(* ===================================================================== *)
(** * VideoInfoThread *)
(* ===================================================================== *)

Section InfoThread.
Context {env : Environment}.
Import VideoInfoThread Log.

Lemma collected_app (a b : list Event) : collected (a ++ b) = collected a ++ collected b.
Proof.
  induction a as [|e a IH]; [reflexivity|].
  destruct e as [|[] ? ?| | | |]; simpl; rewrite ?IH, ?app_assoc; reflexivity.
Qed.

Lemma app_not_nil (a b : str) : b <> [] -> a ++ b <> [].
Proof. destruct a; [auto | discriminate]. Qed.

(** The title of a record is never empty. *)
Lemma derive_title_not_empty (url : str) (info : Info) : derive_title url info <> [].
Proof.
  unfold derive_title. cbv zeta.
  match goal with |- (if ?c then _ else _) <> [] => destruct c eqn:Hc end.
  - match goal with |- (if ?c then _ else _) <> [] => destruct c end;
      apply app_not_nil; unfold py; simpl; discriminate.
  - apply orb_false_iff in Hc. destruct Hc as [Ht _].
    apply negb_false_iff in Ht. intros E. rewrite E in Ht. discriminate.
Qed.

(** The loop body on one url: no exception leaves it, the read counter and
    the earlier log are untouched, the progress value is the truncated one and
    is emitted for a url that passes the validation only, and a record that is
    added has a title and a valid url. *)
Lemma info_loop_body (total idx : nat) (url : str) (videos : list VideoRecord) (st : St) :
  0 < total ->
  exists vs' w' evs,
    loop_body total idx url videos st = (Ok vs', mkSt w' (reads st) (log st ++ evs)) /\
    progress_values evs =
      (if SecurityUtils.is_valid_url url then [truncated_progress total idx] else []) /\
    collected evs = [] /\
    (Forall titled_and_valid videos -> Forall titled_and_valid vs').
Proof.
  intros Htotal.
  unfold loop_body, try_except, bind.
  destruct (SecurityUtils.is_valid_url url) eqn:Hvalid; simpl.
  - unfold int_scaled.
    replace (Z.of_nat total =? 0)%Z with false
      by (symmetry; apply Z.eqb_neq; lia).
    simpl. unfold call. simpl.
    destruct (extract_info (world st) url) as [w' [[info|]|e]]; simpl.
    + exists (videos ++ [video_info_of idx url info]), w'.
      eexists. rewrite <- app_assoc. split; [reflexivity|].
      repeat split. intros H. apply Forall_app. split; [exact H|].
      constructor; [|constructor]. split; [apply derive_title_not_empty | exact Hvalid].
    + exists videos, w'. eexists. rewrite <- app_assoc.
      split; [reflexivity|]. repeat split. auto.
    + exists videos, w'. eexists. rewrite <- !app_assoc.
      split; [reflexivity|]. repeat split. auto.
  - exists videos, (world st). eexists. split; [reflexivity|].
    repeat split. auto.
Qed.

(** The loop, whatever the flag does. *)
Lemma for_urls_any (total : nat) (urls : list str) :
  0 < total ->
  forall (idx : nat) (videos : list VideoRecord) (st : St),
    exists vs' w' r' evs,
      for_urls total idx urls videos st = (Ok vs', mkSt w' r' (log st ++ evs)) /\
      collected evs = [] /\
      (Forall titled_and_valid videos -> Forall titled_and_valid vs').
Proof.
  intros Htotal. induction urls as [|url rest IH]; intros idx videos st.
  - exists videos, (world st), (reads st), []. simpl. unfold ret.
    rewrite app_nil_r. destruct st. repeat split; auto.
  - simpl. unfold bind at 1. unfold running.
    destruct (is_running (reads st)); simpl.
    + unfold bind.
      destruct (info_loop_body idx url videos
                  (mkSt (world st) (S (reads st)) (log st)) Htotal)
        as (vs1 & w1 & evs1 & Heq & _ & Hcol & Hgood).
      cbn [reads log world] in Heq. rewrite Heq.
      destruct (IH (S idx) vs1 (mkSt w1 (S (reads st)) (log st ++ evs1)))
        as (vs2 & w2 & r2 & evs2 & Heq2 & Hcol2 & Hgood2).
      rewrite Heq2. simpl. exists vs2, w2, r2, (evs1 ++ evs2).
      rewrite app_assoc, collected_app, Hcol, Hcol2. repeat split; auto.
    + exists videos, (world st), (S (reads st)), []. rewrite app_nil_r.
      repeat split; auto.
Qed.

(** The loop, while the flag stays set: one progress value per valid url. *)
Lemma for_urls_running (total : nat) (urls : list str) :
  0 < total ->
  forall (idx : nat) (videos : list VideoRecord) (st : St),
    running_during (reads st) (length urls) ->
    exists vs' w' r' evs,
      for_urls total idx urls videos st = (Ok vs', mkSt w' r' (log st ++ evs)) /\
      progress_values evs = map (truncated_progress total) (valid_indices idx urls).
Proof.
  intros Htotal. induction urls as [|url rest IH]; intros idx videos st Hrun.
  - exists videos, (world st), (reads st), []. simpl. unfold ret.
    rewrite app_nil_r. destruct st. repeat split; auto.
  - simpl. unfold bind at 1. unfold running.
    rewrite (Hrun (reads st)) by (simpl; lia). simpl. unfold bind.
    destruct (info_loop_body idx url videos
                (mkSt (world st) (S (reads st)) (log st)) Htotal)
      as (vs1 & w1 & evs1 & Heq & Hprog & _).
    cbn [reads log world] in Heq. rewrite Heq.
    destruct (IH (S idx) vs1 (mkSt w1 (S (reads st)) (log st ++ evs1)))
      as (vs2 & w2 & r2 & evs2 & Heq2 & Hprog2).
    { intros i Hi. apply Hrun. simpl in *. lia. }
    rewrite Heq2. simpl. exists vs2, w2, r2, (evs1 ++ evs2).
    rewrite app_assoc, progress_values_app, Hprog, Hprog2. split; [reflexivity|].
    destruct (SecurityUtils.is_valid_url url); reflexivity.
Qed.

(** The loop, whatever the flag does: it handles the urls up to the first
    read that finds the flag cleared. *)
Lemma for_urls_reached (total : nat) (urls : list str) :
  0 < total ->
  forall (idx : nat) (videos : list VideoRecord) (st : St),
    exists k vs' w' r' evs,
      k <= length urls /\
      running_during (reads st) k /\
      (k < length urls -> is_running (reads st + k) = false) /\
      for_urls total idx urls videos st = (Ok vs', mkSt w' r' (log st ++ evs)) /\
      progress_values evs =
        map (truncated_progress total) (valid_indices idx (firstn k urls)).
Proof.
  intros Htotal. induction urls as [|url rest IH]; intros idx videos st.
  - exists 0, videos, (world st), (reads st), []. simpl. unfold ret.
    rewrite app_nil_r. destruct st. repeat split; auto; try lia.
    intros i Hi. lia.
  - simpl. unfold bind at 1. unfold running.
    destruct (is_running (reads st)) eqn:Hr; simpl.
    + unfold bind.
      destruct (info_loop_body idx url videos
                  (mkSt (world st) (S (reads st)) (log st)) Htotal)
        as (vs1 & w1 & evs1 & Heq & Hprog & _).
      cbn [reads log world] in Heq. rewrite Heq.
      destruct (IH (S idx) vs1 (mkSt w1 (S (reads st)) (log st ++ evs1)))
        as (k & vs2 & w2 & r2 & evs2 & Hk & Hrun & Hstop & Heq2 & Hprog2).
      cbn [reads] in Hrun, Hstop.
      rewrite Heq2. simpl. exists (S k), vs2, w2, r2, (evs1 ++ evs2).
      rewrite app_assoc, progress_values_app, Hprog, Hprog2.
      repeat split; auto; try lia.
      * intros i Hi. destruct (Nat.eq_dec i (reads st)) as [-> | Hne]; [exact Hr|].
        apply Hrun. lia.
      * intros Hlt. replace (reads st + S k) with (S (reads st) + k) by lia.
        apply Hstop. lia.
      * cbn [firstn valid_indices].
        destruct (SecurityUtils.is_valid_url url); reflexivity.
    + exists 0, videos, (world st), (S (reads st)), []. rewrite app_nil_r.
      repeat split; auto; try lia.
      * intros i Hi. lia.
      * intros _. now rewrite Nat.add_0_r.
Qed.

(** The run after its loop. *)
Lemma info_run_eq (urls : list str) (st : St) (vs : list VideoRecord)
  (w' : World) (r' : nat) (l' : list Event) :
  for_urls (length urls) 1 urls [] st = (Ok vs, mkSt w' r' l') ->
  exists tail,
    log (snd (run urls st)) = l' ++ Progress 100 :: tail /\
    progress_values tail = [] /\
    (collected tail = [] \/ collected tail = vs).
Proof.
  intros Heq. unfold run, try_except, bind. rewrite Heq. simpl.
  destruct vs as [|v vs]; simpl.
  - eexists. rewrite <- app_assoc. split; [reflexivity|]. auto.
  - unfold running. simpl. destruct (is_running r'); simpl.
    + eexists. rewrite <- app_assoc. split; [reflexivity|]. split; [reflexivity|].
      right. simpl. now rewrite app_nil_r.
    + eexists. rewrite <- app_assoc. split; [reflexivity|]. auto.
Qed.

End InfoThread.

(** The records that [VideoInfoThread] hands over have a non-empty title and
    a url that passes [is_valid_url]. *)
Theorem video_info_records_titled_and_valid {env : Environment}
  (urls : list str) (w : World) :
  Forall titled_and_valid (Log.collected (log (snd (VideoInfoThread.run urls (init w))))).
Proof.
  destruct urls as [|url rest].
  - vm_compute. constructor.
  - destruct (@for_urls_any env (length (url :: rest)) (url :: rest)
                ltac:(simpl; lia) 1 [] (init w))
      as (vs & w' & r' & evs & Heq & Hcol & Hgood).
    destruct (info_run_eq (url :: rest) (init w) Heq) as (tail & Hlog & _ & Htail).
    rewrite Hlog. change (Progress 100 :: tail) with ([Progress 100] ++ tail).
    rewrite !collected_app. simpl in Hcol |- *. rewrite Hcol. simpl.
    destruct Htail as [-> | ->]; [constructor | apply Hgood; constructor].
Qed.

(** C9 (the claim fails on the code): over seven valid urls the values are
    12, 25, 38, 51, 64, 77, 90 and then 100; for the first url the quotient
    is 12.857..., and 12 is not a nearest integer to it. *)
Lemma progress_is_truncated_not_rounded :
  Log.progress_values
    (log (snd (@VideoInfoThread.run TestBatch.env_quiet TestCollect.seven_urls
                 (@init TestBatch.env_quiet []))))
  = [12; 25; 38; 51; 64; 77; 90; 100]%Z /\
  ~ rounded_progress 7 1 12 /\
  rounded_progress 7 1 13.
Proof.
  split; [vm_compute; reflexivity|].
  unfold rounded_progress. split.
  - intros H. vm_compute in H. apply H. reflexivity.
  - vm_compute. discriminate.
Qed.

(** C9, as the code has it: whatever the flag does, a run handles the urls up
    to the first read of the flag that finds it cleared (all of them when
    there is none), and its progress values are, for each of these urls that
    passes the validation, [int((index / total) * 90)] with [index] its
    position counted from 1 and [total] the number of all urls (the
    double-precision product cut towards zero), followed by 100. *)
Theorem progress_values_of_run {env : Environment} (urls : list str) (w : World) :
  exists k,
    k <= length urls /\
    running_during 0 k /\
    (k < length urls -> is_running k = false) /\
    Log.progress_values (log (snd (VideoInfoThread.run urls (init w)))) =
    map (truncated_progress (length urls)) (valid_indices 1 (firstn k urls)) ++ [100%Z].
Proof.
  destruct urls as [|url rest].
  - exists 0. split; [simpl; lia|]. split; [intros i Hi; lia|].
    split; [simpl; intros H; lia|]. vm_compute. reflexivity.
  - destruct (@for_urls_reached env (length (url :: rest)) (url :: rest)
                ltac:(simpl; lia) 1 [] (init w))
      as (k & vs & w' & r' & evs & Hk & Hrun & Hstop & Heq & Hprog).
    destruct (info_run_eq (url :: rest) (init w) Heq) as (tail & Hlog & Htail & _).
    exists k. split; [exact Hk|]. split; [exact Hrun|]. split; [exact Hstop|].
    rewrite Hlog. change (Progress 100 :: tail) with ([Progress 100] ++ tail).
    rewrite !progress_values_app, Htail. cbn [log init app] in Hprog |- *.
    rewrite Hprog. reflexivity.
Qed.

(* ===================================================================== *)
(** * ProfileFetchThread *)
(* ===================================================================== *)

(** C6 (the code departs from the claim): the flat listing of a Facebook page
    has an entry with an id, an empty title and no url; [ProfileFetchThread]
    reports success and hands over a record whose title is empty and whose
    url is empty and fails [is_valid_url]; it never calls [is_valid_url] and
    has no fallback for an empty title, which [VideoInfoThread] has. *)
Theorem profile_record_breaks_invariant :
  let l := log (snd (@ProfileFetchThread.run TestCollect.env_facebook
                       TestCollect.facebook_page 50 (@init TestCollect.env_facebook []))) in
  Log.collected l = [mkVideo (py "v1") [] [] [] 0 0 0] /\
  @SecurityUtils.is_valid_url TestCollect.env_facebook TestCollect.facebook_page = true /\
  @SecurityUtils.is_valid_url TestCollect.env_facebook [] = false /\
  ~ Forall (@well_formed TestCollect.env_facebook) (Log.collected l).
Proof.
  cbv zeta. repeat split; try reflexivity.
  intros H. vm_compute in H. inversion H as [|v vs [_ [Ht _]] _]. now apply Ht.
Qed.

(* ===================================================================== *)
(** * More on strings and on sanitize_filename *)
(* ===================================================================== *)

Section StripFacts.
Variable chars : str.

Lemma lstrip_length (s : str) : length (lstrip chars s) <= length s.
Proof.
  induction s as [|c s IH]; simpl; [lia|].
  destruct (char_in c chars); simpl; lia.
Qed.

Lemma lstrip_keeps_head (c : ascii) (s : str) :
  char_in c chars = false -> lstrip chars (c :: s) = c :: s.
Proof. intros H. simpl. now rewrite H. Qed.

(** A string that [lstrip] leaves alone is empty or starts outside [chars]. *)
Lemma lstrip_fixed_inv (s : str) :
  lstrip chars s = s -> s = [] \/ exists c t, s = c :: t /\ char_in c chars = false.
Proof.
  destruct s as [|c t]; [now left|]. intros H. right. exists c, t. split; [reflexivity|].
  destruct (char_in c chars) eqn:E; [|reflexivity]. simpl in H. rewrite E in H.
  pose proof (lstrip_length t) as Hlen. rewrite H in Hlen. simpl in Hlen. lia.
Qed.

Lemma lstrip_idempotent (s : str) : lstrip chars (lstrip chars s) = lstrip chars s.
Proof.
  induction s as [|c s IH]; [reflexivity|]. simpl.
  destruct (char_in c chars) eqn:E; [exact IH|]. simpl. now rewrite E.
Qed.

Lemma lstrip_app_stop (a b : str) (c : ascii) :
  char_in c chars = false -> lstrip chars (a ++ c :: b) = lstrip chars a ++ c :: b.
Proof.
  intros H. induction a as [|x a IH]; simpl.
  - now rewrite H.
  - destruct (char_in x chars); [exact IH | reflexivity].
Qed.

Lemma rstrip_keeps_head (c : ascii) (s : str) :
  char_in c chars = false -> rstrip chars (c :: s) = c :: rstrip chars s.
Proof.
  intros H. unfold rstrip. simpl. rewrite lstrip_app_stop by exact H.
  rewrite rev_app_distr. reflexivity.
Qed.

(** [rstrip] does not reach into a prefix that ends outside [chars]. *)
Lemma rstrip_app_keep (p s : str) (c : ascii) :
  char_in c chars = false ->
  rstrip chars ((p ++ [c]) ++ s) = (p ++ [c]) ++ rstrip chars s.
Proof.
  intros H. unfold rstrip. rewrite !rev_app_distr. simpl.
  rewrite <- app_assoc. simpl. rewrite lstrip_app_stop by exact H.
  rewrite rev_app_distr. simpl. rewrite rev_involutive.
  now rewrite <- !app_assoc.
Qed.

Lemma lstrip_fixed_rstrip (s : str) :
  lstrip chars s = s -> lstrip chars (rstrip chars s) = rstrip chars s.
Proof.
  intros H. destruct (lstrip_fixed_inv H) as [-> | (c & t & -> & Hc)];
    [reflexivity|].
  rewrite rstrip_keeps_head by exact Hc. now apply lstrip_keeps_head.
Qed.

Lemma lstrip_fixed_firstn (n : nat) (s : str) :
  lstrip chars s = s -> lstrip chars (firstn n s) = firstn n s.
Proof.
  intros H. destruct (lstrip_fixed_inv H) as [-> | (c & t & -> & Hc)].
  - now rewrite firstn_nil.
  - destruct n; [reflexivity|]. simpl. now rewrite Hc.
Qed.

End StripFacts.

Section ReplaceFacts.

(** Replacing a string that does not occur changes nothing. *)
Lemma replace_absent (old new s : str) :
  str_in old s = false -> replace old new s = s.
Proof.
  unfold replace. induction s as [|c s IH]; [reflexivity|].
  intros H. cbn [str_in] in H. apply orb_false_iff in H. destruct H as [Hs Hin].
  cbn [replace_from]. rewrite Hs. now rewrite IH.
Qed.

Lemma str_in_single_absent (c : ascii) (s : str) :
  ~ In c s -> str_in [c] s = false.
Proof.
  intros H. destruct (str_in [c] s) eqn:E; [|reflexivity].
  apply str_in_spec in E. destruct E as (p & q & ->).
  exfalso. apply H. apply in_or_app. right. now left.
Qed.

(** A prefix without the first character of [old] is copied as it is. *)
Lemma replace_skips_prefix (c0 : ascii) (old new p r : str) :
  Forall (fun c => c <> c0) p ->
  replace (c0 :: old) new (p ++ r) = p ++ replace (c0 :: old) new r.
Proof.
  unfold replace. induction 1 as [|c p Hc Hp IH]; [reflexivity|].
  cbn [app replace_from startswith].
  replace (Ascii.eqb c0 c) with false
    by (symmetry; apply Ascii.eqb_neq; congruence).
  simpl. now rewrite IH.
Qed.

Lemma basename_no_sep (p : str) :
  ~ In PosixPath.sep p -> PosixPath.basename p = p.
Proof.
  destruct p as [|c p]; [reflexivity|]. intros H. simpl.
  replace (char_in PosixPath.sep p) with false.
  - replace (Ascii.eqb c PosixPath.sep) with false; [reflexivity|].
    symmetry. apply Ascii.eqb_neq. intros ->. apply H. now left.
  - symmetry. destruct (char_in PosixPath.sep p) eqn:E; [|reflexivity].
    apply char_in_spec in E. exfalso. apply H. now right.
Qed.

End ReplaceFacts.

Section SanitizeMore.
Import SecurityUtils.

Lemma allowed_map_fixed (s : str) :
  Forall allowed s ->
  map (fun c => if char_in c valid_chars then c else "_"%char) s = s.
Proof.
  induction 1 as [|c s Hc Hs IH]; [reflexivity|].
  cbn [map]. unfold allowed in Hc. now rewrite Hc, IH.
Qed.

Lemma allowed_no_sep (s : str) : Forall allowed s -> ~ In PosixPath.sep s.
Proof.
  intros H Hin. rewrite Forall_forall in H.
  apply H, allowed_not_separator in Hin. now destruct Hin.
Qed.

(** The shape of every output: characters of the white list only, at most
    100 of them, and neither a dot nor a space in front. *)
Lemma sanitize_filename_shape_core (filename : str) :
  Forall allowed (sanitize_filename filename) /\
  length (sanitize_filename filename) <= 100 /\
  lstrip (py ". ") (sanitize_filename filename) = sanitize_filename filename.
Proof.
  split; [apply sanitize_filename_allowed|].
  unfold sanitize_filename. destruct filename as [|c0 rest]; [split; [simpl; lia | reflexivity]|].
  set (mapped := map _ _).
  set (based := PosixPath.basename (strip (py ". ") mapped)).
  assert (Hbased : lstrip (py ". ") based = based).
  { unfold based. rewrite basename_no_sep.
    - unfold strip. apply lstrip_fixed_rstrip, lstrip_idempotent.
    - apply allowed_no_sep, Forall_strip.
      unfold mapped. apply Forall_forall. intros c Hc.
      apply in_map_iff in Hc. destruct Hc as [x [<- _]].
      unfold allowed. destruct (char_in x valid_chars) eqn:E; [exact E | reflexivity]. }
  set (cut := if 100 <? length based then slice_to 100 based else based).
  assert (Hcut : length cut <= 100 /\ lstrip (py ". ") cut = cut).
  { unfold cut. destruct (100 <? length based) eqn:E.
    - split; [apply firstn_le_length | now apply lstrip_fixed_firstn].
    - apply Nat.ltb_ge in E. split; assumption. }
  destruct cut; [split; [simpl; lia | reflexivity] | exact Hcut].
Qed.

(** X2: every output of [sanitize_filename] consists of white-listed
    characters only, has at most 100 of them, and does not begin with a dot
    or a space. *)
Theorem sanitize_filename_shape (filename : str) :
  Forall allowed (sanitize_filename filename) /\
  length (sanitize_filename filename) <= 100 /\
  lstrip (py ". ") (sanitize_filename filename) = sanitize_filename filename.
Proof. intros. apply sanitize_filename_shape_core; assumption. Qed.

(** A name that is already clean is returned as it is. *)
Lemma sanitize_filename_fixed_core (x : str) :
  x <> [] ->
  Forall allowed x ->
  str_in (py "..") x = false ->
  lstrip (py ". ") x = x ->
  rstrip (py ". ") x = x ->
  length x <= 100 ->
  sanitize_filename x = x.
Proof.
  intros Hne Hall Hdots Hl Hr Hlen.
  unfold sanitize_filename. destruct x as [|c0 rest]; [congruence|].
  set (x := c0 :: rest) in *.
  rewrite (@replace_absent _ [] _ Hdots).
  rewrite (@replace_absent (py "/") [] x)
    by (apply str_in_single_absent; exact (allowed_no_sep Hall)).
  rewrite (@replace_absent (py "\") [] x).
  2:{ apply str_in_single_absent. intros Hin. rewrite Forall_forall in Hall.
      apply Hall, allowed_not_separator in Hin. now destruct Hin. }
  rewrite (allowed_map_fixed Hall).
  unfold strip. rewrite Hl, Hr.
  rewrite basename_no_sep by exact (allowed_no_sep Hall).
  replace (100 <? length x) with false by (symmetry; apply Nat.ltb_ge; exact Hlen).
  reflexivity.
Qed.

(** X3: [sanitize_filename] returns a clean name as it is: a non-empty name
    of at most 100 white-listed characters, without [..] and with neither a
    dot nor a space at either end. *)
Theorem sanitize_filename_fixed (x : str) :
  x <> [] ->
  Forall allowed x ->
  str_in (py "..") x = false ->
  lstrip (py ". ") x = x ->
  rstrip (py ". ") x = x ->
  length x <= 100 ->
  sanitize_filename x = x.
Proof. intros. apply sanitize_filename_fixed_core; assumption. Qed.

Lemma sanitize_filename_fixed_witness :
  sanitize_filename (py "03_Hello World__") = py "03_Hello World__".
Proof.
  apply sanitize_filename_fixed; try reflexivity.
  - discriminate.
  - repeat constructor.
  - simpl. lia.
Defined.

(** X4: where a second application changes nothing: on every output that has no
    [..] inside and neither a dot nor a space at its end. *)
Theorem sanitize_filename_idempotent_when (x : str) :
  str_in (py "..") (sanitize_filename x) = false ->
  rstrip (py ". ") (sanitize_filename x) = sanitize_filename x ->
  sanitize_filename (sanitize_filename x) = sanitize_filename x.
Proof.
  intros Hdots Hr.
  destruct (sanitize_filename_shape_core x) as (Hall & Hlen & Hl).
  apply sanitize_filename_fixed_core; auto.
  apply sanitize_filename_no_separator_core.
Qed.

Lemma sanitize_filename_idempotent_when_witness :
  sanitize_filename (sanitize_filename (py "Hello World!!")) =
  sanitize_filename (py "Hello World!!").
Proof.
  apply sanitize_filename_idempotent_when; reflexivity.
Defined.

Lemma plain_not_stripped (c : ascii) : plain c -> char_in c (py ". ") = false.
Proof.
  intros (_ & Hdot & Hsp). unfold char_in. simpl.
  rewrite !orb_false_r. apply orb_false_iff. split; apply Ascii.eqb_neq; congruence.
Qed.

(** A non-empty prefix of plain characters, of at most 100 of them, survives
    in front of the output whatever follows it. *)
Lemma sanitize_filename_keeps_plain_prefix_core (p r : str) :
  p <> [] ->
  Forall plain p ->
  length p <= 100 ->
  exists t, sanitize_filename (p ++ r) = p ++ t.
Proof.
  intros Hne Hplain Hlen.
  assert (Hall : Forall allowed p).
  { eapply Forall_impl; [|exact Hplain]. now intros c (H & _). }
  assert (Hnotc : forall c0, ~ allowed c0 \/ c0 = "."%char -> Forall (fun c => c <> c0) p).
  { intros c0 Hc0. eapply Forall_impl; [|exact Hplain].
    intros c (Ha & Hd & _) ->. destruct Hc0 as [H | H]; [now apply H | now apply Hd]. }
  unfold sanitize_filename.
  destruct (p ++ r) as [|c0 rest] eqn:Hpr.
  { destruct p; [congruence | discriminate]. }
  rewrite <- Hpr. clear Hpr c0 rest.
  change (py "..") with ("."%char :: py ".").
  change (py "/") with ("/"%char :: []).
  change (py "\") with ("\"%char :: []).
  rewrite (@replace_skips_prefix "."%char (py ".") [] p r) by (apply Hnotc; now right).
  rewrite (@replace_skips_prefix "/"%char [] [] p)
    by (apply Hnotc; left; intros H; vm_compute in H; discriminate).
  rewrite (@replace_skips_prefix "\"%char [] [] p)
    by (apply Hnotc; left; intros H; vm_compute in H; discriminate).
  set (r' := replace _ _ (replace _ _ (replace _ _ r))).
  rewrite map_app, (allowed_map_fixed Hall).
  set (m := map _ r').
  assert (Hm : Forall allowed m).
  { unfold m. apply Forall_forall. intros c Hc.
    apply in_map_iff in Hc. destruct Hc as [x [<- _]].
    unfold allowed. destruct (char_in x valid_chars) eqn:E; [exact E | reflexivity]. }
  (* strip leaves the prefix alone *)
  assert (Hstrip : strip (py ". ") (p ++ m) = p ++ rstrip (py ". ") m).
  { unfold strip.
    destruct p as [|c p']; [congruence|].
    rewrite <- app_comm_cons.
    rewrite lstrip_keeps_head
      by (apply plain_not_stripped; now inversion Hplain).
    rewrite app_comm_cons.
    destruct (exists_last Hne) as (q & z & Hq). rewrite Hq.
    apply rstrip_app_keep. apply plain_not_stripped.
    rewrite Hq in Hplain. apply Forall_app in Hplain.
    destruct Hplain as [_ Hz]. now inversion Hz. }
  rewrite Hstrip.
  assert (Hrm : Forall allowed (rstrip (py ". ") m)).
  { unfold rstrip. now apply Forall_rev, Forall_lstrip, Forall_rev. }
  rewrite basename_no_sep
    by (apply allowed_no_sep, Forall_app; split; assumption).
  set (t := rstrip (py ". ") m) in *.
  destruct (100 <? length (p ++ t)).
  - unfold slice_to. rewrite firstn_app, (firstn_all2 p Hlen).
    destruct (p ++ firstn (100 - length p) t) eqn:E.
    + destruct p; [congruence | discriminate].
    + rewrite <- E. now exists (firstn (100 - length p) t).
  - destruct (p ++ t) eqn:E.
    + destruct p; [congruence | discriminate].
    + rewrite <- E. now exists t.
Qed.

(** X5: a non-empty prefix of at most 100 plain characters (white-listed,
    neither dot nor space) stays in front of the output of
    [sanitize_filename], whatever follows it in the input. *)
Theorem sanitize_filename_keeps_plain_prefix (p r : str) :
  p <> [] ->
  Forall plain p ->
  length p <= 100 ->
  exists t, sanitize_filename (p ++ r) = p ++ t.
Proof. intros. apply sanitize_filename_keeps_plain_prefix_core; assumption. Qed.

Lemma sanitize_filename_keeps_plain_prefix_witness :
  exists t, sanitize_filename (py "07_" ++ py "../x") = py "07_" ++ t.
Proof.
  apply sanitize_filename_keeps_plain_prefix.
  - discriminate.
  - repeat constructor; discriminate.
  - simpl. lia.
Defined.

End SanitizeMore.

(* ===================================================================== *)
(** * Paths and file names of the orchestrator *)
(* ===================================================================== *)

Section PathFacts.
Import PosixPath.

Lemma basename_app_sep (a b : str) :
  ~ In sep b -> basename (a ++ sep :: b) = b.
Proof.
  intros Hb. induction a as [|c a IH].
  - simpl. replace (char_in sep b) with false; [reflexivity|].
    symmetry. destruct (char_in sep b) eqn:E; [|reflexivity].
    apply char_in_spec in E. contradiction.
  - cbn [app basename].
    replace (char_in sep (a ++ sep :: b)) with true; [exact IH|].
    symmetry. apply char_in_spec, in_or_app. right. now left.
Qed.

(** Joining a directory that does not end with a slash and a name without a
    slash, and splitting the result again, gives the two back. *)
Theorem join_then_split (q b : str) (z : ascii) :
  z <> sep ->
  ~ In sep b ->
  basename (join (q ++ [z]) b) = b /\
  dirname (join (q ++ [z]) b) = q ++ [z].
Proof.
  intros Hz Hb.
  assert (Hjoin : join (q ++ [z]) b = (q ++ [z]) ++ sep :: b).
  { unfold join.
    replace (startswith [sep] b) with false.
    - rewrite rev_app_distr. cbn [rev app].
      replace (Ascii.eqb z sep) with false; [reflexivity|].
      symmetry. now apply Ascii.eqb_neq.
    - symmetry. destruct b as [|c b]; [reflexivity|]. cbn [startswith].
      rewrite andb_true_r. apply Ascii.eqb_neq. intros <-. apply Hb. now left. }
  rewrite Hjoin. split; [now apply basename_app_sep|].
  unfold dirname, head_of. rewrite basename_app_sep by exact Hb.
  replace (length ((q ++ [z]) ++ sep :: b) - length b)
    with (length ((q ++ [z]) ++ [sep]) + 0)
    by (rewrite !length_app; simpl; lia).
  replace ((q ++ [z]) ++ sep :: b) with (((q ++ [z]) ++ [sep]) ++ b)
    by (now rewrite <- !app_assoc).
  rewrite firstn_app_2. cbn [firstn]. rewrite app_nil_r.
  replace (forallb (Ascii.eqb sep) ((q ++ [z]) ++ [sep])) with false.
  - rewrite rstrip_app_keep.
    + change (rstrip [sep] [sep]) with (@nil ascii). now rewrite app_nil_r.
    + unfold char_in. cbn [existsb]. rewrite orb_false_r.
      apply Ascii.eqb_neq. exact Hz.
  - symmetry. rewrite !forallb_app. cbn [forallb].
    replace (Ascii.eqb sep z) with false
      by (symmetry; apply Ascii.eqb_neq; congruence).
    now rewrite andb_false_r.
Qed.

Lemma join_then_split_witness :
  basename (join (py "/dl") (py "01_One.%(ext)s")) = py "01_One.%(ext)s" /\
  dirname (join (py "/dl") (py "01_One.%(ext)s")) = py "/dl".
Proof.
  apply (@join_then_split (py "/d") (py "01_One.%(ext)s") "l"%char).
  - discriminate.
  - vm_compute. intuition discriminate.
Defined.

End PathFacts.

Section FileNames.
Import DownloadThread.

Lemma digits_plain (d : Decimal.uint) :
  Forall plain (list_ascii_of_string (NilEmpty.string_of_uint d)).
Proof.
  induction d; simpl; constructor; auto;
    (split; [reflexivity | split; discriminate]).
Qed.

Lemma fmt_02d_plain (n : nat) : Forall plain (fmt_02d n).
Proof.
  assert (H : Forall plain (str_of_nat n)).
  { unfold str_of_nat, NilZero.string_of_uint.
    destruct (Nat.to_uint n) eqn:E; try (rewrite <- E; apply digits_plain).
    repeat constructor; discriminate. }
  unfold fmt_02d. destruct (n <? 10); [|exact H].
  constructor; [|exact H]. split; [reflexivity | split; discriminate].
Qed.

(** X7: the numbered formats keep their number: with format 0 or 2 the file name
    begins with the two-digit index and an underscore. *)
Theorem final_filename_keeps_index (filename_format : Z) (idx : nat) (video : VideoRecord) :
  filename_format = 0%Z \/ filename_format = 2%Z ->
  length (fmt_02d idx) < 100 ->
  exists t, final_filename filename_format idx video = fmt_02d idx ++ py "_" ++ t.
Proof.
  intros Hff Hlen.
  assert (Hprefix : forall r,
            exists t, SecurityUtils.sanitize_filename ((fmt_02d idx ++ py "_") ++ r)
                      = (fmt_02d idx ++ py "_") ++ t).
  { intros r. apply sanitize_filename_keeps_plain_prefix_core.
    - intros H. apply app_eq_nil in H. destruct H as [_ H]. discriminate.
    - apply Forall_app. split; [apply fmt_02d_plain|].
      constructor; [|constructor]. split; [reflexivity | split; discriminate].
    - rewrite length_app. simpl. lia. }
  unfold final_filename. destruct Hff as [-> | ->]; simpl Z.eqb; cbv iota.
  - destruct (Hprefix (SecurityUtils.sanitize_filename (title video))) as (t & Ht).
    exists t. rewrite <- app_assoc in Ht. rewrite Ht. now rewrite <- app_assoc.
  - destruct (Hprefix (SecurityUtils.sanitize_filename (title video) ++ py "_" ++
                       slice_to 10 (SecurityUtils.sanitize_filename (id video))))
      as (t & Ht).
    exists t. rewrite <- app_assoc in Ht. rewrite Ht. now rewrite <- app_assoc.
Qed.

Lemma final_filename_keeps_index_witness :
  exists t, final_filename 0 3 (TestWorld.video "x" "Hello World!!" "u")
            = fmt_02d 3 ++ py "_" ++ t.
Proof.
  apply final_filename_keeps_index.
  - now left.
  - simpl. lia.
Defined.

(** Before it is resolved, the template of a record lies directly in the save
    directory: its parent is [save_path] (which is taken not to end with a
    slash) and its last component is the sanitized name with the extension
    placeholder, a name of at most 100 white-listed characters. *)
Lemma template_inside_save_path_core (filename_format : Z) (idx : nat)
  (video : VideoRecord) (q : str) (z : ascii) :
  z <> PosixPath.sep ->
  let name := final_filename filename_format idx video in
  let template := PosixPath.join (q ++ [z]) (name ++ py ".%(ext)s") in
  PosixPath.dirname template = q ++ [z] /\
  PosixPath.basename template = name ++ py ".%(ext)s" /\
  Forall allowed name /\ 0 < length name <= 100.
Proof.
  intros Hz name template.
  assert (Hshape : Forall allowed name /\ length name <= 100 /\ name <> []).
  { unfold name, final_filename.
    match goal with |- context [SecurityUtils.sanitize_filename ?x] =>
      destruct (sanitize_filename_shape_core x) as (Ha & Hl & _);
      destruct (sanitize_filename_no_separator_core x) as (_ & _ & Hn)
    end.
    auto. }
  destruct Hshape as (Hall & Hlen & Hne).
  assert (Hsep : ~ In PosixPath.sep (name ++ py ".%(ext)s")).
  { intros Hin. apply in_app_or in Hin. destruct Hin as [Hin | Hin].
    - now apply (allowed_no_sep Hall).
    - vm_compute in Hin. intuition discriminate. }
  destruct (@join_then_split q (name ++ py ".%(ext)s") z Hz Hsep) as [Hbase Hdir].
  repeat split; auto.
  destruct name; [congruence | simpl; lia].
Qed.

(** X8: before it is resolved, the output template of a record lies directly
    in the save directory (taken not to end with a slash): its parent is
    [save_path], its last component is the sanitized name followed by the
    extension placeholder, and that name has between 1 and 100 white-listed
    characters. *)
Theorem template_inside_save_path (filename_format : Z) (idx : nat)
  (video : VideoRecord) (q : str) (z : ascii) :
  z <> PosixPath.sep ->
  let name := final_filename filename_format idx video in
  let template := PosixPath.join (q ++ [z]) (name ++ py ".%(ext)s") in
  PosixPath.dirname template = q ++ [z] /\
  PosixPath.basename template = name ++ py ".%(ext)s" /\
  Forall allowed name /\ 0 < length name <= 100.
Proof. intros. apply template_inside_save_path_core; assumption. Qed.

Lemma template_inside_save_path_witness :
  PosixPath.dirname
    (PosixPath.join (py "/dl")
       (final_filename 0 3 (TestWorld.video "x" "Hello World!!" "u") ++ py ".%(ext)s"))
  = py "/dl".
Proof.
  apply (@template_inside_save_path 0 3 (TestWorld.video "x" "Hello World!!" "u")
           (py "/d") "l"%char).
  discriminate.
Defined.

End FileNames.

(** X9: where nothing on the way is a symbolic link, that is where
    [sanitize_path] returns the template as it is, the destination handed to
    the downloader has the save directory as its parent. *)
Theorem destination_parent_without_links {env : Environment}
  (self : DownloadThread.DownloadThread) (w : World) (idx : nat)
  (video : VideoRecord) (q : str) (z : ascii) :
  DownloadThread.save_path self = q ++ [z] ->
  z <> PosixPath.sep ->
  (let template :=
     PosixPath.join (DownloadThread.save_path self)
       (DownloadThread.final_filename (DownloadThread.filename_format self) idx video
        ++ py ".%(ext)s") in
   SecurityUtils.sanitize_path w template = template) ->
  PosixPath.dirname (destination self w idx video) = DownloadThread.save_path self.
Proof.
  intros Hsave Hz Hresolved. cbv zeta in Hresolved.
  unfold destination, DownloadThread.output_template.
  rewrite Hresolved, Hsave.
  apply (@template_inside_save_path_core (DownloadThread.filename_format self) idx video q z Hz).
Qed.

Lemma destination_parent_without_links_witness :
  PosixPath.dirname
    (@destination TestBatch.env_quiet TestBatch.two_self [] 1
       (TestWorld.video "ab12" "MyClip" "https://example.com/1"))
  = py "/dl".
Proof.
  apply (@destination_parent_without_links TestBatch.env_quiet TestBatch.two_self [] 1
           (TestWorld.video "ab12" "MyClip" "https://example.com/1") (py "/d") "l"%char).
  - reflexivity.
  - discriminate.
  - reflexivity.
Defined.

(* ===================================================================== *)
(** * SecurityUtils.is_valid_url *)
(* ===================================================================== *)

Lemma str_eqb_spec (a b : str) : str_eqb a b = true <-> a = b.
Proof.
  unfold str_eqb. destruct (list_eq_dec ascii_dec a b); split; congruence.
Qed.

(** X6: what [is_valid_url] accepts, whatever [urlparse] is: exactly the urls
    that it parses without raising into the scheme [http] or [https] and a
    non-empty netloc, that contain no [..] and that have at most ten ['/']. *)
Theorem is_valid_url_spec {env : Environment} (url : str) :
  SecurityUtils.is_valid_url url = true <->
  (exists scheme netloc,
     urlparse url = Some (scheme, netloc) /\
     (scheme = py "http" \/ scheme = py "https") /\
     netloc <> []) /\
  (forall p q, url <> p ++ py ".." ++ q) /\
  count "/"%char url <= 10.
Proof.
  unfold SecurityUtils.is_valid_url.
  assert (Hdots : str_in (py "..") url = false <-> forall p q, url <> p ++ py ".." ++ q).
  { split.
    - intros H p q ->. assert (str_in (py "..") (p ++ py ".." ++ q) = true)
        by (apply str_in_spec; now exists p, q). congruence.
    - intros H. destruct (str_in (py "..") url) eqn:E; [|reflexivity].
      apply str_in_spec in E. destruct E as (p & q & E). now apply H in E. }
  destruct (urlparse url) as [[scheme netloc]|].
  2:{ split; [discriminate | intros ((s & n & H & _) & _); discriminate]. }
  destruct (str_eqb scheme (py "http") || str_eqb scheme (py "https")) eqn:Hs; cbn [negb].
  - assert (Hscheme : scheme = py "http" \/ scheme = py "https").
    { apply orb_true_iff in Hs. destruct Hs as [H|H]; apply str_eqb_spec in H; auto. }
    destruct netloc as [|c netloc].
    + split; [discriminate|]. intros ((s & n & H & _ & Hn) & _).
      injection H as <- <-. congruence.
    + destruct (str_in (py "..") url) eqn:Hd; cbn [orb].
      * split; [discriminate|]. intros (_ & H & _).
        apply Hdots in H. congruence.
      * destruct (10 <? count "/"%char url) eqn:Hc.
        -- split; [discriminate|]. intros (_ & _ & H). apply Nat.ltb_lt in Hc. lia.
        -- split; [|reflexivity]. intros _. apply Nat.ltb_ge in Hc.
           repeat split; auto.
           ++ exists scheme, (c :: netloc). repeat split; auto. discriminate.
           ++ now apply Hdots.
  - split; [discriminate|]. intros ((s & n & H & Hsch & _) & _).
    injection H as <- <-. apply orb_false_iff in Hs. destruct Hs as [H1 H2].
    destruct Hsch as [-> | ->]; [|].
    + assert (str_eqb (py "http") (py "http") = true) by now apply str_eqb_spec.
      congruence.
    + assert (str_eqb (py "https") (py "https") = true) by now apply str_eqb_spec.
      congruence.
Qed.

(* ===================================================================== *)
(** * VideoInfoThread: the terminal signal *)
(* ===================================================================== *)

Section InfoThreadMore.
Context {env : Environment}.
Import VideoInfoThread Log.

Lemma finishes_app (a b : list Event) : finishes (a ++ b) = finishes a ++ finishes b.
Proof.
  induction a as [|e a IH]; [reflexivity|].
  destruct e; simpl; now rewrite IH.
Qed.

Lemma invalid_warnings_app (a b : list Event) :
  invalid_warnings (a ++ b) = invalid_warnings a ++ invalid_warnings b.
Proof.
  induction a as [|e a IH]; [reflexivity|].
  destruct e as [| |m| | |]; simpl; try now rewrite IH.
  destruct m; simpl; now rewrite IH.
Qed.

Variable P : VideoRecord -> Prop.

(** The loop body, for any [total]: it returns normally, adds no terminal
    signal, and adds at most one record, made from a url that passed the
    validation. *)
Lemma info_loop_body_gen (total idx : nat) (url : str) (videos : list VideoRecord) (st : St) :
  (SecurityUtils.is_valid_url url = true -> forall info, P (video_info_of idx url info)) ->
  Forall P videos ->
  exists vs' st' evs,
    loop_body total idx url videos st = (Ok vs', st') /\
    log st' = log st ++ evs /\
    reads st' = reads st /\
    finishes evs = [] /\
    invalid_warnings evs =
      (if SecurityUtils.is_valid_url url then [] else [idx]) /\
    Forall P vs' /\
    length vs' <= S (length videos).
Proof.
  intros HP Hvs.
  unfold loop_body, try_except, bind.
  destruct (SecurityUtils.is_valid_url url) eqn:Hvalid; cbn [negb].
  - unfold emit at 1. cbn [fst snd world reads log].
    destruct (int_scaled (Z.of_nat idx) (Z.of_nat total) 90) as [p|].
    + unfold emit at 1. cbn [fst snd world reads log]. unfold call. cbn [world reads log].
      destruct (extract_info (world st) url) as [w' [[info|]|e]]; cbn.
      * eexists. eexists. eexists. split; [reflexivity|]. cbn.
        rewrite <- app_assoc. repeat split; auto.
        -- apply Forall_app. split; [exact Hvs|]. constructor; [|constructor]. now apply HP.
        -- rewrite length_app. simpl. lia.
      * eexists. eexists. eexists. split; [reflexivity|]. cbn.
        rewrite <- app_assoc. repeat split; auto.
      * eexists. eexists. eexists. split; [reflexivity|]. cbn.
        rewrite <- !app_assoc. repeat split; auto.
    + cbn. eexists. eexists. eexists. split; [reflexivity|]. cbn.
      rewrite <- !app_assoc. repeat split; auto.
  - cbn. eexists. eexists. eexists. split; [reflexivity|]. cbn.
    repeat split; auto.
Qed.

(** The loop, whatever the flag does and whatever [total] is. *)
Lemma for_urls_gen (total : nat) (all : list str) (urls : list str) :
  (forall i url info, In url all -> SecurityUtils.is_valid_url url = true ->
                      P (video_info_of i url info)) ->
  incl urls all ->
  forall (idx : nat) (videos : list VideoRecord) (st : St),
    Forall P videos ->
    exists vs' st' evs,
      for_urls total idx urls videos st = (Ok vs', st') /\
      log st' = log st ++ evs /\
      finishes evs = [] /\
      Forall P vs' /\
      length vs' <= length videos + length urls /\
      (Forall (fun u => SecurityUtils.is_valid_url u = true) urls ->
       invalid_warnings evs = []).
Proof.
  intros HP. induction urls as [|url rest IH]; intros Hincl idx videos st Hvs.
  - exists videos, st, []. simpl. unfold ret. rewrite app_nil_r.
    repeat split; auto. lia.
  - cbn [for_urls]. unfold bind at 1. unfold running. cbn [fst snd].
    destruct (is_running (reads st)); cbn [negb].
    + unfold bind.
      destruct (@info_loop_body_gen total idx url videos
                  (mkSt (world st) (S (reads st)) (log st)))
        as (vs1 & st1 & evs1 & Heq & Hlog1 & _ & Hfin1 & Hw1 & Hvs1 & Hlen1); auto.
      { intros Hvalid info. apply HP; [apply Hincl; now left | exact Hvalid]. }
      rewrite Heq.
      destruct (IH (fun u Hu => Hincl u (or_intror Hu)) (S idx) vs1 st1 Hvs1)
        as (vs2 & st2 & evs2 & Heq2 & Hlog2 & Hfin2 & Hvs2 & Hlen2 & Hw2).
      rewrite Heq2. exists vs2, st2, (evs1 ++ evs2).
      rewrite Hlog2, Hlog1. cbn [log]. rewrite app_assoc, finishes_app, Hfin1, Hfin2.
      repeat split; auto.
      * simpl. lia.
      * intros Hall. inversion Hall as [|? ? Hu Hrest]. subst.
        rewrite invalid_warnings_app, Hw1, Hu, (Hw2 Hrest). reflexivity.
    + exists videos, (mkSt (world st) (S (reads st)) (log st)), [].
      cbn [log]. rewrite app_nil_r. repeat split; auto. lia.
Qed.

End InfoThreadMore.

(** X14: every run of [VideoInfoThread] returns normally and ends with the
    progress value 100 followed by its one terminal signal.  A success
    carries at least one and at most as many records as there are urls, each
    with a url of the input that passes [is_valid_url] and with a non-empty
    title, and counts them in its message; a failure carries no record. *)
Theorem video_info_run_finishes_once {env : Environment} (urls : list str) (w : World) :
  fst (VideoInfoThread.run urls (init w)) = Ok tt /\
  exists evs success message videos,
    log (snd (VideoInfoThread.run urls (init w)))
      = evs ++ [Progress 100; Collected success message videos] /\
    finishes evs = [] /\
    (success = true ->
       videos <> [] /\ message = MsgLoaded (length videos) /\
       length videos <= length urls /\
       Forall (fun v => In (url v) urls /\ title v <> [] /\
                        SecurityUtils.is_valid_url (url v) = true) videos) /\
    (success = false -> videos = [] /\ message = MsgNoValidURLs).
Proof.
  set (P := fun v => In (url v) urls /\ title v <> [] /\
                     SecurityUtils.is_valid_url (url v) = true).
  destruct (@for_urls_gen env P (length urls) urls urls) with (idx := 1)
    (videos := @nil VideoRecord) (st := init w)
    as (vs & st1 & evs & Heq & Hlog & Hfin & Hvs & Hlen & _).
  { intros i u info Hin Hvalid. unfold P. simpl.
    repeat split; auto. apply derive_title_not_empty. }
  { apply incl_refl. }
  { constructor. }
  unfold VideoInfoThread.run, try_except, bind. rewrite Heq.
  unfold emit at 1. cbn [fst snd world reads log].
  simpl in Hlog, Hlen.
  destruct vs as [|v vs].
  - cbn. split; [reflexivity|]. exists evs, false, MsgNoValidURLs, [].
    rewrite Hlog, <- app_assoc. repeat split; auto; discriminate.
  - unfold running. cbn.
    destruct (is_running (reads st1)); cbn.
    + split; [reflexivity|].
      exists evs, true, (MsgLoaded (S (length vs))), (v :: vs).
      rewrite Hlog, <- app_assoc. repeat split; auto; discriminate.
    + split; [reflexivity|]. exists evs, false, MsgNoValidURLs, [].
      rewrite Hlog, <- app_assoc. repeat split; auto; discriminate.
Qed.

(* ===================================================================== *)
(** * DownloadThread.run, whatever the flag does *)
(* ===================================================================== *)

Section DownloadAny.
Context {env : Environment}.
Import DownloadThread Log.
Variable self : DownloadThread.

Lemma errors_app (a b : list Event) : errors (a ++ b) = errors a ++ errors b.
Proof.
  induction a as [|e a IH]; [reflexivity|].
  destruct e as [| |m| | |]; simpl; try now rewrite IH.
  destruct m; simpl; now rewrite IH.
Qed.

(** The calls and the status lines of one item. *)
Lemma item_effects (total idx : nat) (video : VideoRecord) (w : World) :
  let evs := Item.events self total idx video w in
  errors evs = [] /\
  (downloads evs = [] \/ downloads evs = [(url video, destination self w idx video)]) /\
  (sleeps evs = [] \/
   sleeps evs = [rate_limit_delay self] /\ idx < total /\
   Qpositive (rate_limit_delay self) = true /\
   outcomes evs = [(true, id video)] /\ downloads evs <> []).
Proof.
  unfold Item.events. destruct (already _ _ _); [simpl; auto|].
  destruct (snd (ydl_download _ _ _)) as [u|e]; [|simpl; auto].
  unfold paces. destruct (idx <? total) eqn:Hlt;
    destruct (Qpositive (rate_limit_delay self)) eqn:Hq; simpl; auto.
  split; [reflexivity|]. split; [now right|]. right.
  apply Nat.ltb_lt in Hlt. repeat split; auto. discriminate.
Qed.

Lemma for_videos_any (total : nat) (vs : list VideoRecord) :
  forall (idx s f : nat) (st : St),
    exists k s' f' st' evs,
      k <= length vs /\
      for_videos self total idx vs (s, f) st = (Ok (s', f'), st') /\
      log st' = log st ++ evs /\
      map snd (outcomes evs) = map id (firstn k vs) /\
      summaries evs = [] /\
      errors evs = [] /\
      failures evs = raised evs /\
      f' = f + raised evs /\
      s' + f' = s + f + k /\
      Forall (fun d => In (fst d) (map url vs)) (downloads evs) /\
      length (downloads evs) <= k /\
      Forall (fun q => q = rate_limit_delay self /\ Qpositive q = true) (sleeps evs) /\
      length (sleeps evs) <= total - idx /\
      length (sleeps evs) <= length (downloads evs).
Proof.
  induction vs as [|v vs IH]; intros idx s f st.
  - exists 0, s, f, st, []. simpl. unfold ret. rewrite app_nil_r.
    repeat split; auto; lia.
  - destruct (is_running (reads st)) eqn:Hr.
    + rewrite for_videos_step by exact Hr.
      rewrite (item_counts self total).
      set (evs := Item.events self total idx v (world st)).
      set (st1 := mkSt _ _ _).
      destruct (IH (S idx) (S s - raised evs) (f + raised evs) st1)
        as (k & s' & f' & st' & evs' & Hk & Heq & Hlog & Hids & Hsum & Herr
            & Hfail & Hf & Hsf & Hdl & Hdlen & Hsl & Hslen & Hsd).
      destruct (item_outcomes self total idx v (world st))
        as (b & Hout & Hnos & Hfalse & Htrue & Hfr).
      destruct (item_effects total idx v (world st)) as (Herr0 & Hdl0 & Hsl0).
      fold evs in Hout, Hnos, Hfalse, Htrue, Hfr, Herr0, Hdl0, Hsl0.
      assert (Hr1 : raised evs <= 1)
        by (destruct b; [rewrite (proj1 Htrue) | rewrite (proj1 Hfalse)]; auto).
      exists (S k), s', f', st', (evs ++ evs').
      rewrite Heq, Hlog. unfold st1. cbn [log].
      rewrite outcomes_app, summaries_app, errors_app, raised_app, failures_app,
        downloads_app, sleeps_app, !length_app, Hout, Hnos, Herr0, Hsum, Herr.
      cbn [map snd firstn app]. rewrite Hids, <- app_assoc.
      repeat split; auto; try (simpl; lia).
      * apply Forall_app. split.
        -- destruct Hdl0 as [-> | ->]; constructor; [|constructor]. simpl. now left.
        -- eapply Forall_impl; [|exact Hdl]. intros d Hd. simpl. now right.
      * destruct Hdl0 as [-> | ->]; simpl; lia.
      * apply Forall_app. split; [|exact Hsl].
        destruct Hsl0 as [-> | (-> & _ & Hq & _)]; constructor; auto.
      * destruct Hsl0 as [-> | (-> & Hlt & _)]; simpl; lia.
      * destruct Hsl0 as [-> | (-> & _ & _ & _ & Hd)]; simpl; [lia|].
        destruct Hdl0 as [H0 | H0]; [congruence|]. rewrite H0. simpl. lia.
    + rewrite for_videos_break by exact Hr.
      exists 0, s, f, (mkSt (world st) (S (reads st)) (log st)), [].
      cbn [log]. rewrite app_nil_r. simpl. repeat split; auto; lia.
Qed.

End DownloadAny.

(* ===================================================================== *)
(** * DownloadThread.run at one record of the batch *)
(* ===================================================================== *)

Section DownloadAt.
Context {env : Environment}.
Import DownloadThread Log.
Variable self : DownloadThread.

(** Either the first [n] reads find the flag set, or one of them is the first
    to find it cleared. *)
Lemma running_or_cleared (n : nat) :
  running_during 0 n \/ exists i, i < n /\ is_running i = false.
Proof.
  induction n as [|n IH].
  - left. intros i Hi. lia.
  - destruct IH as [Hrun | (i & Hi & Hstop)].
    + destruct (is_running n) eqn:Hn.
      * left. intros i Hi. destruct (Nat.eq_dec i n) as [-> | Hne]; [exact Hn|].
        apply Hrun. lia.
      * right. exists n. split; [lia | exact Hn].
    + right. exists i. split; [lia | exact Hstop].
Qed.

(** A loop that is left inside the first part of its list never sees the rest. *)
Lemma for_videos_stopped (total : nat) (pre post : list VideoRecord) :
  forall (idx : nat) (counts : nat * nat) (st : St),
    (exists i, reads st <= i < reads st + length pre /\ is_running i = false) ->
    for_videos self total idx (pre ++ post) counts st =
    for_videos self total idx pre counts st.
Proof.
  induction pre as [|v pre IH]; intros idx counts st (i & Hi & Hstop).
  - simpl in Hi. lia.
  - rewrite <- app_comm_cons. destruct (is_running (reads st)) eqn:Hr.
    + rewrite !for_videos_step by exact Hr. apply IH.
      exists i. split; [|exact Hstop]. cbn [reads].
      assert (i <> reads st) by congruence. simpl in Hi. lia.
    + now rewrite !for_videos_break by exact Hr.
Qed.

(** The events of an item do not begin with a pause. *)
Lemma item_events_head (total idx : nat) (video : VideoRecord) (w : World)
  (tail : list Event) :
  forall q rest, Item.events self total idx video w ++ tail <> CallSleep q :: rest.
Proof.
  intros q rest. unfold Item.events.
  destruct (already _ _ _); [discriminate|].
  destruct (snd (ydl_download _ _ _)); discriminate.
Qed.

(** Nor does what the loop adds to the log. *)
Lemma for_videos_head (total : nat) (vs : list VideoRecord) (idx : nat)
  (counts : nat * nat) (st : St) (evs : list Event) :
  log (snd (for_videos self total idx vs counts st)) = log st ++ evs ->
  forall q rest, evs <> CallSleep q :: rest.
Proof.
  intros Hlog q rest. destruct vs as [|v vs].
  - simpl in Hlog. rewrite <- (app_nil_r (log st)) in Hlog at 1.
    apply app_inv_head in Hlog. subst evs. discriminate.
  - destruct (is_running (reads st)) eqn:Hr.
    + rewrite for_videos_step in Hlog by exact Hr.
      destruct (Item.counts_after self idx v (world st) counts) as [s f].
      match type of Hlog with
      | log (snd (for_videos _ _ _ _ _ ?st2)) = _ =>
          destruct (for_videos_any self total vs (S idx) s f st2)
            as (k & s' & f' & st' & evs' & _ & Heq & Hlog' & _)
      end.
      rewrite Heq in Hlog. cbn [snd] in Hlog. rewrite Hlog' in Hlog.
      cbn [log] in Hlog. rewrite <- app_assoc in Hlog.
      apply app_inv_head in Hlog. subst evs. apply item_events_head.
    + rewrite for_videos_break in Hlog by exact Hr. cbn [snd log] in Hlog.
      rewrite <- (app_nil_r (log st)) in Hlog at 1.
      apply app_inv_head in Hlog. subst evs. discriminate.
Qed.

(** A run that reaches a record: its log is the log of the records before,
    the events of the record, and what the later records and the end of the
    run add. *)
Lemma run_at_record (w : World) (pre post : list VideoRecord) (video : VideoRecord) :
  videos self = pre ++ video :: post ->
  running_during 0 (S (length pre)) ->
  let n := length (videos self) in
  let st1 := state_before self w pre in
  exists tail,
    log (snd (run self (init w))) =
      log st1 ++ Item.events self n (S (length pre)) video (world st1) ++ tail /\
    map snd (outcomes (log st1)) = map id pre /\
    (forall q rest, tail <> CallSleep q :: rest) /\
    Forall (fun d => In (fst d) (map url post)) (downloads tail) /\
    length (downloads tail) <= length (outcomes tail) /\
    length (outcomes tail) <= length post /\
    (post = [] -> sleeps tail = []) /\
    (exists k, map snd (outcomes tail) = map id (firstn k post)).
Proof.
  intros Hv Hrun n st1.
  destruct (for_videos_running self n pre 1 0 0 (init w))
    as (s1 & f1 & w1 & evs1 & Heq1 & Hids1 & _).
  { intros i Hi. apply Hrun. simpl in Hi. lia. }
  cbn [reads log init app Nat.add] in Heq1.
  assert (Hst1 : st1 = mkSt w1 (length pre) evs1).
  { unfold st1, state_before. fold n. now rewrite Heq1. }
  assert (Hloop : for_videos self n 1 (videos self) (0, 0) (init w) =
                  for_videos self n (S (S (length pre))) post
                    (Item.counts_after self (S (length pre)) video w1 (s1, f1))
                    (mkSt (Item.world_after self n (S (length pre)) video w1)
                          (S (length pre))
                          (evs1 ++ Item.events self n (S (length pre)) video w1))).
  { rewrite Hv.
    rewrite (for_videos_app self n pre (video :: post) 1 (0, 0) (init w)
               ltac:(intros i Hi; apply Hrun; simpl in Hi; lia) Heq1).
    rewrite for_videos_step by (cbn [reads]; apply Hrun; lia).
    reflexivity. }
  destruct (Item.counts_after self (S (length pre)) video w1 (s1, f1)) as [s2 f2].
  match type of Hloop with
  | _ = for_videos _ _ _ _ _ ?st2 =>
      destruct (for_videos_any self n post (S (S (length pre))) s2 f2 st2)
        as (k & s' & f' & st' & evs' & Hk & Heq & Hlog & Hids & _ & _ & _ & _ & _
            & Hdl & Hdlen & _ & Hslen & _);
      pose proof (@for_videos_head n post (S (S (length pre))) (s2, f2) st2 evs'
                    ltac:(rewrite Heq; exact Hlog)) as Hhead
  end.
  cbn [log] in Hlog. rewrite Heq in Hloop.
  assert (Hlen : length (outcomes evs') = k).
  { rewrite <- (length_map snd), Hids, length_map, length_firstn. lia. }
  assert (Hn : n = length pre + S (length post)).
  { unfold n. rewrite Hv, length_app. reflexivity. }
  rewrite (run_eq self (init w) Hloop). cbn [snd log].
  rewrite Hst1. cbn [log world].
  destruct (is_running (reads st')).
  - exists (evs' ++ [StatusUpdate (MsgComplete s' f')]).
    rewrite Hlog, <- !app_assoc. split; [reflexivity|].
    rewrite downloads_app, outcomes_app, sleeps_app. simpl. rewrite !app_nil_r.
    repeat split; auto; try lia.
    + intros q rest. destruct evs' as [|e evs'']; [discriminate|].
      intros H. injection H as -> _. now apply (Hhead q evs'').
    + intros ->. simpl in Hn. destruct (sleeps evs'); [reflexivity|].
      simpl in Hslen. lia.
    + now exists k.
  - exists evs'. rewrite Hlog, <- !app_assoc. split; [reflexivity|].
    repeat split; auto; try lia.
    + intros ->. simpl in Hn. destruct (sleeps evs'); [reflexivity|].
      simpl in Hslen. lia.
    + now exists k.
Qed.

(** A run that is left before it reaches a record adds nothing for it or for
    a later one. *)
Lemma run_not_reached (w : World) (pre post : list VideoRecord) (video : VideoRecord) :
  videos self = pre ++ video :: post ->
  ~ running_during 0 (S (length pre)) ->
  exists tail,
    log (snd (run self (init w))) = log (state_before self w pre) ++ tail /\
    outcomes tail = [] /\ downloads tail = [].
Proof.
  intros Hv Hnot. set (n := length (videos self)).
  assert (Hend : forall c st',
            for_videos self n 1 (videos self) (0, 0) (init w) = (Ok c, st') ->
            log st' = log (state_before self w pre) ->
            exists tail,
              log (snd (run self (init w))) = log (state_before self w pre) ++ tail /\
              outcomes tail = [] /\ downloads tail = []).
  { intros c st' Heq Hlog. rewrite (run_eq self (init w) Heq). cbn [snd log].
    rewrite Hlog. destruct (is_running (reads st')).
    - eexists. split; [reflexivity|]. split; reflexivity.
    - exists []. rewrite app_nil_r. repeat split. }
  destruct (running_or_cleared (length pre)) as [Hrun | Hstop].
  - destruct (is_running (length pre)) eqn:Hlast.
    + exfalso. apply Hnot. intros i Hi.
      destruct (Nat.eq_dec i (length pre)) as [-> | Hne]; [exact Hlast|].
      apply Hrun. lia.
    + destruct (for_videos_running self n pre 1 0 0 (init w))
        as (s1 & f1 & w1 & evs1 & Heq1 & _).
      { exact Hrun. }
      cbn [reads log init app Nat.add] in Heq1.
      eapply Hend.
      * rewrite Hv.
        rewrite (for_videos_app self n pre (video :: post) 1 (0, 0) (init w) Hrun Heq1).
        rewrite for_videos_break by exact Hlast. reflexivity.
      * unfold state_before. fold n. now rewrite Heq1.
  - destruct (for_videos_any self n pre 1 0 0 (init w))
      as (k & s' & f' & st' & evs' & _ & Heq & _).
    eapply Hend.
    + rewrite Hv, for_videos_stopped; [exact Heq|].
      destruct Hstop as (i & Hi & Hs). exists i. split; [simpl; lia | exact Hs].
    + unfold state_before. fold n. now rewrite Heq.
Qed.

End DownloadAt.

(** C3: a record whose id is part of a file name of the save directory, as the
    directory is when the run is done with the records before it.  If the
    run reaches the record (it is not cancelled before), the log is the log
    of the earlier records, then the one successful "already exists" outcome
    of the record, then what the later records add; if the run is cancelled
    before, nothing is added for the record or after it except, possibly,
    the closing line.  In both cases no download is called for the record:
    every download call after the earlier records is for a url of a later
    record, with at most one call for each outcome that follows, and the
    outcomes that follow are those of the first later records, in order. *)
Theorem duplicate_is_skipped {env : Environment}
  (self : DownloadThread.DownloadThread) (w : World)
  (pre post : list VideoRecord) (video : VideoRecord)
  (names : list str) (name : str) :
  DownloadThread.videos self = pre ++ video :: post ->
  listdir (world (state_before self w pre)) (DownloadThread.save_path self) = Some names ->
  In name names ->
  (exists a b, name = a ++ id video ++ b) ->
  let skipped := Finished true (MsgAlreadyExists (slice_to 50 (title video))) (id video) in
  exists own tail,
    log (snd (DownloadThread.run self (init w))) =
      log (state_before self w pre) ++ own ++ tail /\
    (running_during 0 (S (length pre)) ->
       own = [skipped] /\
       map snd (Log.outcomes (log (state_before self w pre))) = map id pre) /\
    (own = [skipped] \/
     own = [] /\ Log.outcomes tail = [] /\ Log.downloads tail = []) /\
    Forall (fun d => In (fst d) (map url post)) (Log.downloads tail) /\
    length (Log.downloads tail) <= length (Log.outcomes tail) /\
    (exists k, map snd (Log.outcomes tail) = map id (firstn k post)).
Proof.
  intros Hv Hlist Hin Hsub skipped.
  assert (Hdup : already (world (state_before self w pre)) (id video)
                   (DownloadThread.save_path self) = true).
  { unfold already. rewrite Hlist. apply existsb_exists.
    exists name. split; [exact Hin | now apply str_in_spec]. }
  destruct (running_or_cleared (S (length pre))) as [Hrun | Hstop].
  - destruct (run_at_record self w pre post video Hv Hrun)
      as (tail & Hlog & Hids & _ & Hdl & Hdlen & _ & _ & Hlater).
    unfold Item.events in Hlog. rewrite Hdup in Hlog.
    exists [skipped], tail. repeat split; auto.
  - destruct (@run_not_reached env self w pre post video Hv) as (tail & Hlog & Hout & Hdl).
    { intros Hrun. destruct Hstop as (i & Hi & Hs).
      rewrite Hrun in Hs by lia. discriminate. }
    exists [], tail. rewrite Hout, Hdl. split; [exact Hlog|]. split.
    + intros Hrun. exfalso. destruct Hstop as (i & Hi & Hs).
      rewrite Hrun in Hs by lia. discriminate.
    + split; [right; auto|]. split; [constructor|]. split; [simpl; lia|].
      now exists 0.
Qed.

(** The file [07_MyClip_ab12.mp4] is there and the first of two records has
    the id [ab12]; nobody cancels. *)
Lemma duplicate_is_skipped_witness :
  exists own tail,
    log (snd (@DownloadThread.run TestBatch.env_quiet TestBatch.two_self
                (@init TestBatch.env_quiet [py "07_MyClip_ab12.mp4"]))) =
      [] ++ own ++ tail /\
    (@running_during TestBatch.env_quiet 0 1 ->
       own = [Finished true (MsgAlreadyExists (py "MyClip")) (py "ab12")]) /\
    Forall (fun d => In (fst d) [py "https://example.com/2"]) (Log.downloads tail).
Proof.
  destruct (@duplicate_is_skipped TestBatch.env_quiet TestBatch.two_self
              [py "07_MyClip_ab12.mp4"] []
              [TestWorld.video "cd34" "Other" "https://example.com/2"]
              (TestWorld.video "ab12" "MyClip" "https://example.com/1")
              [py "07_MyClip_ab12.mp4"] (py "07_MyClip_ab12.mp4"))
    as (own & tail & Hlog & Hown & _ & Hdl & _).
  - reflexivity.
  - reflexivity.
  - simpl. left. reflexivity.
  - exists (py "07_MyClip_"), (py ".mp4"). reflexivity.
  - exists own, tail. split; [exact Hlog|]. split; [|exact Hdl].
    intros Hrun. now destruct (Hown Hrun).
Defined.

(** C7, as the code has it: a run with a positive delay that [time.sleep]
    accepts, at a record that it reaches.  What the run adds to the log for
    the record is: for a duplicate, the one "already exists" outcome; for a
    download that raises, the status line, the call and the failure outcome;
    for a download that returns, the status line, the call, the success
    outcome and then, unless the record is the last of the batch, one pause
    of [rate_limit_delay].  What follows in the log does not begin with a
    pause, and after the last record there is no pause at all. *)
Theorem pause_only_after_download {env : Environment}
  (self : DownloadThread.DownloadThread) (w : World)
  (pre post : list VideoRecord) (video : VideoRecord) :
  DownloadThread.videos self = pre ++ video :: post ->
  (0 < DownloadThread.rate_limit_delay self)%Q ->
  sleep_accepts (DownloadThread.rate_limit_delay self) ->
  running_during 0 (S (length pre)) ->
  let n := length (DownloadThread.videos self) in
  let idx := S (length pre) in
  let st1 := state_before self w pre in
  let title50 := slice_to 50 (title video) in
  let delay := DownloadThread.rate_limit_delay self in
  let dest := destination self (world st1) idx video in
  let duplicate :=
    fst (DownloadThread.is_already_downloaded (id video) (DownloadThread.save_path self) st1) in
  let result := snd (ydl_download (world st1) (url video) dest) in
  exists own tail,
    log (snd (DownloadThread.run self (init w))) = log st1 ++ own ++ tail /\
    (forall q rest, tail <> CallSleep q :: rest) /\
    (post = [] -> Log.sleeps tail = []) /\
    (duplicate = Ok true ->
       own = [Finished true (MsgAlreadyExists title50) (id video)]) /\
    (forall e, duplicate = Ok false -> result = Raises e ->
       own = [StatusUpdate (MsgDownloading idx n title50);
              CallDownload (url video) dest (Raises e);
              Finished false (MsgFailed title50) (id video)]) /\
    (forall u, duplicate = Ok false -> result = Returns u ->
       own = [StatusUpdate (MsgDownloading idx n title50);
              CallDownload (url video) dest (Returns u);
              Finished true (MsgDownloaded title50) (id video)]
             ++ match post with
                | [] => []
                | _ :: _ => [CallSleep delay]
                end).
Proof.
  intros Hv Hpos _ Hrun n idx st1 title50 delay dest duplicate result.
  destruct (run_at_record self w pre post video Hv Hrun)
    as (tail & Hlog & _ & Hhead & _ & _ & _ & Hlast & _).
  fold n st1 in Hlog. fold idx in Hlog.
  exists (Item.events self n idx video (world st1)), tail.
  split; [exact Hlog|]. split; [exact Hhead|]. split; [exact Hlast|].
  unfold duplicate. rewrite is_already_downloaded_eq. cbn [fst].
  unfold Item.events. fold title50 dest result delay.
  assert (Hpaces : paces self n idx = match post with [] => false | _ :: _ => true end).
  { unfold paces. fold delay.
    replace (Qpositive delay) with true by (symmetry; now apply Qpositive_spec).
    rewrite andb_true_r. unfold n, idx. rewrite Hv, length_app.
    destruct post as [|v post]; simpl.
    - apply Nat.ltb_ge. lia.
    - apply Nat.ltb_lt. lia. }
  destruct (already (world st1) (id video) (DownloadThread.save_path self)).
  - split; [reflexivity|]. split; intros ? H; discriminate.
  - split; [discriminate|]. split.
    + intros e _ ->. reflexivity.
    + intros u _ ->. rewrite Hpaces. now destruct post.
Qed.

(** Two records, the delay 2, nothing is there and nothing fails: the first
    download returns and one pause of 2 follows its outcome. *)
Lemma pause_only_after_download_witness :
  exists tail,
    log (snd (@DownloadThread.run TestBatch.env_quiet TestBatch.two_self
                (@init TestBatch.env_quiet []))) =
      [StatusUpdate (MsgDownloading 1 2 (py "MyClip"));
       CallDownload (py "https://example.com/1") (py "/dl/01_MyClip.%(ext)s") (Returns tt);
       Finished true (MsgDownloaded (py "MyClip")) (py "ab12");
       CallSleep (2 # 1)%Q] ++ tail /\
    (forall q rest, tail <> CallSleep q :: rest).
Proof.
  destruct (@pause_only_after_download TestBatch.env_quiet TestBatch.two_self []
              [] [TestWorld.video "cd34" "Other" "https://example.com/2"]
              (TestWorld.video "ab12" "MyClip" "https://example.com/1"))
    as (own & tail & Hlog & Hhead & _ & _ & _ & Hown).
  - reflexivity.
  - reflexivity.
  - unfold sleep_accepts. vm_compute. discriminate.
  - intros i Hi. reflexivity.
  - exists tail. split; [|exact Hhead].
    rewrite Hlog. rewrite (Hown tt eq_refl eq_refl). reflexivity.
Defined.

(** X11: whatever the cancellation flag does, a run of the orchestrator returns
    normally and never sends an ["Error: ..."] line; its outcomes are those of
    the first [k] records, in input order, for some [k]; and when it sends the
    aggregate line, that line is the last event, is sent once, and its two
    counts are the numbers of successful and of failed outcomes. *)
Theorem run_outcomes_are_a_prefix {env : Environment}
  (self : DownloadThread.DownloadThread) (w : World) :
  let l := log (snd (DownloadThread.run self (init w))) in
  fst (DownloadThread.run self (init w)) = Ok tt /\
  errors l = [] /\
  (exists k, k <= length (DownloadThread.videos self) /\
     map snd (Log.outcomes l) = map id (firstn k (DownloadThread.videos self))) /\
  (Log.summaries l = [] \/
   exists evs s f,
     l = evs ++ [StatusUpdate (MsgComplete s f)] /\
     Log.summaries evs = [] /\
     s + f = length (Log.outcomes l) /\
     f = Log.failures l).
Proof.
  intros l.
  destruct (for_videos_any self (length (DownloadThread.videos self))
              (DownloadThread.videos self) 1 0 0 (init w))
    as (k & s' & f' & st' & evs & Hk & Heq & Hlog & Hids & Hsum & Herr
        & Hfail & Hf & Hsf & _).
  simpl in Hlog, Hf, Hsf.
  assert (Hlen : length (Log.outcomes evs) = k).
  { rewrite <- (length_map snd), Hids, length_map, length_firstn. lia. }
  unfold l. rewrite (run_eq self (init w) Heq). cbn [fst snd log].
  split; [reflexivity|].
  destruct (is_running (reads st')).
  - rewrite Hlog, errors_app, outcomes_app, summaries_app, Herr, Hsum.
    simpl. rewrite app_nil_r. repeat split; auto.
    + now exists k.
    + right. exists evs, s', f'. repeat split; auto.
      * lia.
      * rewrite failures_app. unfold Log.failures at 2. simpl. lia.
  - rewrite Hlog. repeat split; auto. now exists k.
Qed.

(** X12: the downloader is called for urls of the batch only, and at most once for
    each outcome. *)
Theorem run_downloads_from_batch {env : Environment}
  (self : DownloadThread.DownloadThread) (w : World) :
  let l := log (snd (DownloadThread.run self (init w))) in
  Forall (fun d => In (fst d) (map url (DownloadThread.videos self))) (Log.downloads l) /\
  length (Log.downloads l) <= length (Log.outcomes l) /\
  length (Log.outcomes l) <= length (DownloadThread.videos self).
Proof.
  intros l.
  destruct (for_videos_any self (length (DownloadThread.videos self))
              (DownloadThread.videos self) 1 0 0 (init w))
    as (k & s' & f' & st' & evs & Hk & Heq & Hlog & Hids & _ & _ & _ & _ & _
        & Hdl & Hdlen & _).
  simpl in Hlog.
  assert (Hlen : length (Log.outcomes evs) = k).
  { rewrite <- (length_map snd), Hids, length_map, length_firstn. lia. }
  unfold l. rewrite (run_eq self (init w) Heq). cbn [snd log].
  destruct (is_running (reads st')); rewrite Hlog.
  - rewrite downloads_app, outcomes_app. simpl. rewrite !app_nil_r.
    repeat split; auto; lia.
  - repeat split; auto; lia.
Qed.


(* ===================================================================== *)
(** * The duplicate check *)
(* ===================================================================== *)

Lemma str_in_trans (a b c : str) :
  str_in a b = true -> str_in b c = true -> str_in a c = true.
Proof.
  intros Hab Hbc. apply str_in_spec in Hab. apply str_in_spec in Hbc.
  destruct Hab as (p & q & ->). destruct Hbc as (p' & q' & ->).
  apply str_in_spec. exists (p' ++ p), (q ++ q'). now rewrite <- !app_assoc.
Qed.

(** X10: the duplicate check is a substring test on file names and nothing more.
    It never raises and never changes the state, and it answers [True]
    exactly when the directory can be listed and one of the listed names is
    [u ++ a ++ v] for the id [a] and some [u] and [v].  So an empty id is
    found in any directory that has an entry; an id that is part of another
    id is found wherever the other one is; and in an empty directory nothing
    is found. *)
Theorem dedup_is_by_substring {env : Environment} (path : str) (st : St) (a b : str) :
  (exists answer,
     DownloadThread.is_already_downloaded a path st = (Ok answer, st) /\
     (answer = true <->
      exists names name u v,
        listdir (world st) path = Some names /\ In name names /\ name = u ++ a ++ v)) /\
  (forall name names, listdir (world st) path = Some (name :: names) ->
     DownloadThread.is_already_downloaded [] path st = (Ok true, st)) /\
  ((exists u v, b = u ++ a ++ v) ->
     DownloadThread.is_already_downloaded b path st = (Ok true, st) ->
     DownloadThread.is_already_downloaded a path st = (Ok true, st)) /\
  (listdir (world st) path = Some [] ->
     DownloadThread.is_already_downloaded a path st = (Ok false, st)) /\
  (exists answer, DownloadThread.is_already_downloaded a path st = (Ok answer, st)).
Proof.
  rewrite !is_already_downloaded_eq. unfold already. split; [|repeat split].
  - eexists. split; [reflexivity|]. split.
    + destruct (listdir (world st) path) as [names|]; [|discriminate].
      intros H. apply existsb_exists in H. destruct H as (name & Hin & Hb).
      apply str_in_spec in Hb. destruct Hb as (u & v & ->).
      now exists names, (u ++ a ++ v), u, v.
    + intros (names & name & u & v & -> & Hin & ->).
      apply existsb_exists. exists (u ++ a ++ v). split; [exact Hin|].
      apply str_in_spec. now exists u, v.
  - intros name names ->. destruct name; reflexivity.
  - intros Hsub H. injection H as H.
    destruct (listdir (world st) path) as [names|]; [|discriminate].
    f_equal. f_equal. apply existsb_exists in H. destruct H as (name & Hin & Hb).
    apply existsb_exists. exists name. split; [exact Hin|].
    apply (str_in_trans a b); [now apply str_in_spec | exact Hb].
  - now intros ->.
  - eexists. reflexivity.
Qed.

(* ===================================================================== *)
(** * ProfileFetchThread: platform and profile handle *)
(* ===================================================================== *)

Section PlatformFacts.
Import ProfileFetchThread.

Lemma lower_char_idempotent (c : ascii) : lower_char (lower_char c) = lower_char c.
Proof. destruct c as [[] [] [] [] [] [] [] []]; reflexivity. Qed.

Lemma lower_idempotent (s : str) : lower (lower s) = lower s.
Proof.
  unfold lower. rewrite map_map. apply map_ext. apply lower_char_idempotent.
Qed.

Lemma str_in_extend (n h p q : str) :
  str_in n h = true -> str_in n (p ++ h ++ q) = true.
Proof.
  intros H. apply str_in_spec in H. destruct H as (a & b & ->).
  apply str_in_spec. exists (p ++ a), (b ++ q). now rewrite <- !app_assoc.
Qed.

(** X17: the platform does not depend on the case of the url, and the first test
    wins: a url classified as TikTok stays TikTok whatever is put around it. *)
Theorem detect_platform_case_and_order (url p q : str) :
  detect_platform (lower url) = detect_platform url /\
  (detect_platform url = TikTok -> detect_platform (p ++ url ++ q) = TikTok).
Proof.
  split.
  - unfold detect_platform. now rewrite lower_idempotent.
  - unfold detect_platform. unfold lower at 7. rewrite !map_app. fold (lower p) (lower url) (lower q).
    destruct (str_in (py "tiktok.com") (lower url)) eqn:E.
    + intros _. now rewrite (@str_in_extend _ _ (lower p) (lower q) E).
    + repeat match goal with |- context [if ?c then _ else _] => destruct c end;
        discriminate.
Qed.

End PlatformFacts.

Section HandleFacts.
Import ProfileFetchThread.

Lemma handle_char_spec (c : ascii) : char_in c (py "/?") = false <-> handle_char c.
Proof.
  unfold char_in, handle_char. cbn [py list_ascii_of_string existsb].
  rewrite orb_false_r, orb_false_iff, !Ascii.eqb_neq. tauto.
Qed.

(** [segment] cuts a string at its first ['/'] or ['?']. *)
Lemma segment_spec (s : str) :
  exists rest,
    s = segment s ++ rest /\
    Forall handle_char (segment s) /\
    (rest = [] \/ exists c r, rest = c :: r /\ ~ handle_char c).
Proof.
  induction s as [|c s (rest & Hs & Hall & Hrest)].
  - exists []. repeat split; auto.
  - cbn [segment]. destruct (char_in c (py "/?")) eqn:E.
    + exists (c :: s). repeat split; auto. right. exists c, s. split; [reflexivity|].
      intros H. apply handle_char_spec in H. congruence.
    + exists rest. repeat split; auto.
      * simpl. now rewrite <- Hs.
      * constructor; [now apply handle_char_spec | exact Hall].
Qed.

Lemma search_group_unfold (lit s : str) :
  search_group lit s =
  match (if startswith lit s then
           match segment (skipn (length lit) s) with
           | [] => None
           | g => Some g
           end
         else None) with
  | Some g => Some g
  | None => match s with
            | [] => None
            | _ :: s' => search_group lit s'
            end
  end.
Proof. destruct s; reflexivity. Qed.

(** What a match is: the literal, then a non-empty run of handle characters
    that goes up to the next ['/'] or ['?'] or to the end. *)
Lemma search_group_spec (lit s g : str) :
  search_group lit s = Some g ->
  g <> [] /\ Forall handle_char g /\
  exists p q, s = p ++ lit ++ g ++ q /\
              (q = [] \/ exists c r, q = c :: r /\ ~ handle_char c).
Proof.
  induction s as [|c s IH]; rewrite search_group_unfold.
  - destruct (startswith lit []) eqn:E.
    + apply startswith_spec in E. destruct E as (r & E).
      symmetry in E. apply app_eq_nil in E. destruct E as [-> ->]. discriminate.
    + discriminate.
  - destruct (startswith lit (c :: s)) eqn:E.
    + apply startswith_spec in E. destruct E as (r & E). rewrite E.
      rewrite skipn_app, skipn_all, Nat.sub_diag. cbn [app skipn].
      destruct (segment_spec r) as (rest & Hr & Hall & Hrest).
      destruct (segment r) as [|x xs] eqn:Hseg.
      * rewrite <- E. intros H. destruct (IH H) as (Hne & Hg & p & q & Hs & Hq).
        repeat split; auto. exists (c :: p), q. split; [now rewrite Hs | exact Hq].
      * intros H. injection H as <-. repeat split; auto; [discriminate|].
        exists [], rest. split; [simpl; now rewrite Hr | exact Hrest].
    + intros H. destruct (IH H) as (Hne & Hg & p & q & Hs & Hq).
      repeat split; auto. exists (c :: p), q. split; [now rewrite Hs | exact Hq].
Qed.

(** Where the first pattern finds nothing, the second one finds nothing. *)
Lemma second_pattern_is_dead (s : str) :
  search_group (py "instagram.com/") s = None ->
  search_group (py "instagram.com/@") s = None.
Proof.
  induction s as [|c s IH]; rewrite !(search_group_unfold _ (_ :: _)) || reflexivity.
  destruct (startswith (py "instagram.com/@") (c :: s)) eqn:E2.
  - apply startswith_spec in E2. destruct E2 as (r & E2).
    change (py "instagram.com/@") with (py "instagram.com/" ++ py "@") in E2.
    rewrite <- app_assoc in E2.
    assert (E1 : startswith (py "instagram.com/") (c :: s) = true)
      by (apply startswith_spec; now exists (py "@" ++ r)).
    rewrite E1, E2. rewrite skipn_app, skipn_all, Nat.sub_diag. cbn [app skipn].
    cbn. discriminate.
  - destruct (startswith (py "instagram.com/") (c :: s));
      [destruct (segment _); [exact IH | discriminate] | exact IH].
Qed.

Lemma before_question_fixed (g : str) :
  Forall handle_char g -> before_question g = g.
Proof.
  induction 1 as [|c g [_ Hc] Hg IH]; [reflexivity|].
  cbn [before_question].
  replace (Ascii.eqb c "?"%char) with false by (symmetry; now apply Ascii.eqb_neq).
  now rewrite IH.
Qed.

Lemma strip_slash_fixed (g : str) :
  Forall handle_char g -> strip (py "/") g = g.
Proof.
  intros H.
  assert (Hc : forall c, handle_char c -> char_in c (py "/") = false).
  { intros c [Hc _]. unfold char_in. cbn [py list_ascii_of_string existsb].
    rewrite orb_false_r. now apply Ascii.eqb_neq. }
  assert (Hl : forall t, Forall handle_char t -> lstrip (py "/") t = t).
  { intros t Ht. destruct Ht as [|c t Hct Ht]; [reflexivity|].
    apply lstrip_keeps_head. now apply Hc. }
  unfold strip, rstrip. rewrite (Hl g H).
  rewrite (Hl (rev g)) by now apply Forall_rev.
  apply rev_involutive.
Qed.

(** X18: the handle is what the first pattern matches, as it is: the second
    pattern and the cleaning after the match never change the answer.  A
    handle that is found is not empty, has no ['/'] and no ['?'], stands in
    the url right after [instagram.com/] and goes up to the next ['/'] or
    ['?'] or to the end of the url. *)
Theorem extract_instagram_username_spec (url : str) :
  extract_instagram_username url = search_group (py "instagram.com/") url /\
  forall username,
    extract_instagram_username url = Some username ->
    username <> [] /\ Forall handle_char username /\
    exists p q, url = p ++ py "instagram.com/" ++ username ++ q /\
                (q = [] \/ exists c r, q = c :: r /\ ~ handle_char c).
Proof.
  assert (Heq : extract_instagram_username url = search_group (py "instagram.com/") url).
  { unfold extract_instagram_username.
    destruct (search_group (py "instagram.com/") url) as [g|] eqn:E.
    - destruct (search_group_spec _ _ E) as (_ & Hg & _).
      now rewrite (before_question_fixed Hg), (strip_slash_fixed Hg).
    - now rewrite (second_pattern_is_dead _ E). }
  split; [exact Heq|]. intros username H. rewrite Heq in H.
  now apply search_group_spec.
Qed.

End HandleFacts.

(* ===================================================================== *)
(** * VersionCheckThread.is_newer_version *)
(* ===================================================================== *)

Section VersionFacts.
Import VersionCheckThread.

Lemma list_gt_irrefl (a : list Z) : list_gt a a = false.
Proof.
  induction a as [|x a IH]; [reflexivity|]. simpl. now rewrite Z.eqb_refl.
Qed.

Lemma list_gt_asym (a b : list Z) : list_gt a b = true -> list_gt b a = false.
Proof.
  revert b. induction a as [|x a IH]; intros [|y b]; simpl; try congruence.
  rewrite (Z.eqb_sym y x).
  destruct (Z.eqb_spec x y) as [->|Hne]; [apply IH|].
  intros H. apply Z.ltb_lt in H. apply Z.ltb_ge. lia.
Qed.

Lemma list_gt_trans (a b c : list Z) :
  list_gt a b = true -> list_gt b c = true -> list_gt a c = true.
Proof.
  revert b c. induction a as [|x a IH]; intros [|y b] [|z c]; simpl; try congruence.
  destruct (Z.eqb_spec x y) as [->|Hxy].
  - destruct (Z.eqb_spec y z) as [->|Hyz]; [apply IH | auto].
  - intros Hlt. apply Z.ltb_lt in Hlt.
    destruct (Z.eqb_spec y z) as [->|Hyz].
    + intros _. destruct (Z.eqb_spec x z); [lia | now apply Z.ltb_lt].
    + intros Hlt'. apply Z.ltb_lt in Hlt'.
      destruct (Z.eqb_spec x z); [lia | apply Z.ltb_lt; lia].
Qed.

Lemma list_gt_total (a b : list Z) :
  a <> b -> list_gt a b = true \/ list_gt b a = true.
Proof.
  revert b. induction a as [|x a IH]; intros [|y b] Hne; simpl; auto; try congruence.
  rewrite (Z.eqb_sym y x).
  destruct (Z.eqb_spec x y) as [->|Hxy].
  - apply IH. congruence.
  - destruct (Z.ltb_spec y x); [now left|]. right. apply Z.ltb_lt. lia.
Qed.

Lemma list_gt_extension (a : list Z) (x : Z) (rest : list Z) :
  list_gt (a ++ x :: rest) a = true.
Proof.
  induction a as [|y a IH]; [reflexivity|]. simpl. now rewrite Z.eqb_refl.
Qed.

Variable int_of_str : str -> option Z.

(** X20: whatever [int] accepts, "newer than" is a strict order on the versions
    that parse: no version is newer than itself, two versions are never each
    newer than the other, the relation is transitive, and of two versions
    with different number lists one is newer.  A version that does not parse
    is neither newer nor older than anything, and a version that continues
    another one with further numbers is the newer of the two. *)
Theorem is_newer_version_strict_order (a b c : str) :
  is_newer_version int_of_str a a = false /\
  (is_newer_version int_of_str a b = true -> is_newer_version int_of_str b a = false) /\
  (is_newer_version int_of_str a b = true -> is_newer_version int_of_str b c = true ->
   is_newer_version int_of_str a c = true) /\
  (forall la lb, parts_of int_of_str a = Some la -> parts_of int_of_str b = Some lb ->
     la <> lb ->
     is_newer_version int_of_str a b = true \/ is_newer_version int_of_str b a = true) /\
  (parts_of int_of_str a = None ->
   is_newer_version int_of_str a b = false /\ is_newer_version int_of_str b a = false) /\
  (forall lb x rest, parts_of int_of_str b = Some lb ->
     parts_of int_of_str a = Some (lb ++ x :: rest) ->
     is_newer_version int_of_str a b = true).
Proof.
  unfold is_newer_version.
  destruct (parts_of int_of_str a) as [la|];
    destruct (parts_of int_of_str b) as [lb|];
    destruct (parts_of int_of_str c) as [lc|];
    repeat split; try discriminate; try congruence; auto using list_gt_irrefl, list_gt_asym.
  all: try (intros; eapply list_gt_trans; eassumption).
  all: try (intros la' lb' Ha Hb Hne; injection Ha as <-; injection Hb as <-;
            now apply list_gt_total).
  all: try (intros lb' x rest Hb Ha; injection Ha as ->; injection Hb as <-;
            apply list_gt_extension).
Qed.

End VersionFacts.

(* ===================================================================== *)
(** * InstagramBatchDownloader.display_videos *)
(* ===================================================================== *)

Section GridFacts.
Import MainWindow.

Lemma cells_from {A} (videos : list A) :
  forall row col, col < 3 ->
    cells videos row col =
    map (fun i => ((3 * row + col + i) / 3, (3 * row + col + i) mod 3))
        (seq 0 (length videos)).
Proof.
  induction videos as [|v rest IH]; intros row col Hcol; [reflexivity|].
  cbn [cells length seq map]. f_equal.
  - rewrite Nat.add_0_r. f_equal.
    + apply (Nat.div_unique _ 3 row col); lia.
    + apply (Nat.mod_unique _ 3 row col); lia.
  - rewrite <- seq_shift, map_map.
    destruct (3 <=? col + 1) eqn:E.
    + apply Nat.leb_le in E. assert (col = 2) by lia. subst col.
      rewrite IH by lia. apply map_ext. intros i.
      replace (3 * (row + 1) + 0 + i) with (3 * row + 2 + S i) by lia. reflexivity.
    + apply Nat.leb_gt in E. rewrite IH by lia. apply map_ext. intros i.
      replace (3 * row + (col + 1) + i) with (3 * row + col + S i) by lia. reflexivity.
Qed.

(** X21: the grid is filled row by row, three to a row: the widget of the i-th
    video (from 0) goes to row [i / 3] and column [i mod 3]; so every video
    gets a cell and no cell is given twice. *)
Theorem display_videos_grid {A} (videos : list A) :
  display_videos_cells videos = map (fun i => (i / 3, i mod 3)) (seq 0 (length videos)) /\
  length (display_videos_cells videos) = length videos /\
  NoDup (display_videos_cells videos).
Proof.
  assert (H : display_videos_cells videos
              = map (fun i => (i / 3, i mod 3)) (seq 0 (length videos))).
  { unfold display_videos_cells. rewrite cells_from by lia. now apply map_ext. }
  rewrite H. split; [reflexivity|]. split; [now rewrite length_map, length_seq|].
  apply NoDup_map_NoDup_ForallPairs; [|apply seq_NoDup].
  intros i j _ _ Hij. cbv beta in Hij.
  assert (Hd : i / 3 = j / 3) by congruence.
  assert (Hm : i mod 3 = j mod 3) by congruence.
  rewrite (Nat.div_mod_eq i 3), (Nat.div_mod_eq j 3). now rewrite Hd, Hm.
Qed.

End GridFacts.

(* ===================================================================== *)
(** * InstagramBatchDownloader.load_videos *)
(* ===================================================================== *)

Section LoadVideos.
Context {env : Environment}.
Import MainWindow.

Lemma split_no_sep (c : ascii) (s : str) :
  Forall (fun piece => ~ In c piece) (VersionCheckThread.split c s).
Proof.
  induction s as [|x s IH]; cbn [VersionCheckThread.split].
  - constructor; [intros [] | constructor].
  - destruct (Ascii.eqb_spec x c) as [->|Hne].
    + constructor; [intros [] | exact IH].
    + destruct (VersionCheckThread.split c s) as [|piece pieces].
      * constructor; [|constructor]. intros [H|[]]. congruence.
      * inversion IH as [|? ? Hp Hps]. subst. constructor; [|exact Hps].
        intros [H|H]; [congruence | contradiction].
Qed.

Lemma rstrip_idempotent (chars s : str) :
  rstrip chars (rstrip chars s) = rstrip chars s.
Proof.
  unfold rstrip. now rewrite rev_involutive, lstrip_idempotent.
Qed.

Lemma valid_indices_all (urls : list str) :
  Forall (fun u => SecurityUtils.is_valid_url u = true) urls ->
  forall idx, valid_indices idx urls = seq idx (length urls).
Proof.
  induction 1 as [|u urls Hu Hall IH]; intros idx; [reflexivity|].
  simpl. now rewrite Hu, IH.
Qed.

(** After its loop a run sends no warning. *)
Lemma info_run_no_late_warning (urls : list str) (st : St) (vs : list VideoRecord)
  (st1 : St) :
  VideoInfoThread.for_urls (length urls) 1 urls [] st = (Ok vs, st1) ->
  invalid_warnings (log (snd (VideoInfoThread.run urls st)))
  = invalid_warnings (log st1).
Proof.
  intros Heq. unfold VideoInfoThread.run, try_except, bind. rewrite Heq.
  unfold emit at 1. cbn [fst snd world reads log].
  destruct vs as [|v vs]; cbn.
  - now rewrite !invalid_warnings_app, !app_nil_r.
  - unfold running. cbn. destruct (is_running (reads st1)); cbn;
      now rewrite !invalid_warnings_app, !app_nil_r.
Qed.

(** What [load_videos] hands to [VideoInfoThread]: urls that pass
    [is_valid_url], each a non-empty piece of one line of the text, without
    line feed and without white space at either end. *)
Lemma load_videos_urls_are_clean_core (text : str) :
  Forall (fun u =>
            u <> [] /\ ~ In "010"%char u /\
            lstrip whitespace u = u /\ rstrip whitespace u = u /\
            SecurityUtils.is_valid_url u = true)
         (valid_urls text).
Proof.
  unfold valid_urls. apply Forall_forall. intros u Hu.
  apply filter_In in Hu. destruct Hu as [Hin Hvalid].
  unfold urls_of_text in Hin. apply in_map_iff in Hin.
  destruct Hin as (line & <- & Hline). apply filter_In in Hline.
  destruct Hline as [Hline Hne].
  pose proof (split_no_sep "010"%char (strip_ws text)) as Hsplit.
  rewrite Forall_forall in Hsplit. specialize (Hsplit line Hline).
  repeat split; auto.
  - intros E. rewrite E in Hne. discriminate.
  - intros H. apply Hsplit.
    assert (Hall : Forall (fun c => In c line) (strip_ws line)).
    { apply Forall_strip. now apply Forall_forall. }
    rewrite Forall_forall in Hall. now apply Hall.
  - unfold strip_ws, strip. apply lstrip_fixed_rstrip, lstrip_idempotent.
  - unfold strip_ws, strip. apply rstrip_idempotent.
Qed.

(** X15: the urls that [load_videos] hands to [VideoInfoThread] pass
    [is_valid_url]; each is non-empty, has no line feed and has no white
    space at either end. *)
Theorem load_videos_urls_are_clean (text : str) :
  Forall (fun u =>
            u <> [] /\ ~ In "010"%char u /\
            lstrip whitespace u = u /\ rstrip whitespace u = u /\
            SecurityUtils.is_valid_url u = true)
         (valid_urls text).
Proof. intros. apply load_videos_urls_are_clean_core; assumption. Qed.

(** X16: [load_videos] followed by [VideoInfoThread]: the second validation never
    rejects anything, so no "Invalid URL" warning is sent, and when nobody
    cancels, a progress value is sent for every url in turn, then 100. *)
Theorem load_videos_then_collect (text : str) (w : World) :
  let urls := valid_urls text in
  let l := log (snd (VideoInfoThread.run urls (init w))) in
  invalid_warnings l = [] /\
  (never_cancelled ->
   Log.progress_values l =
   map (truncated_progress (length urls)) (seq 1 (length urls)) ++ [100%Z]).
Proof.
  intros urls l.
  assert (Hall : Forall (fun u => SecurityUtils.is_valid_url u = true) urls).
  { eapply Forall_impl; [|apply load_videos_urls_are_clean_core]. now intros u (_ & _ & _ & _ & H). }
  subst l. clearbody urls. split.
  - destruct (@for_urls_gen env (fun _ => True) (length urls) urls urls) with (idx := 1)
      (videos := @nil VideoRecord) (st := init w)
      as (vs & st1 & evs & Heq & Hlog & _ & _ & _ & Hw); auto using incl_refl.
    rewrite (info_run_no_late_warning urls (init w) Heq), Hlog.
    simpl. now apply Hw.
  - intros Hnever. destruct urls as [|u rest].
    + vm_compute. reflexivity.
    + set (urls := u :: rest) in *.
      destruct (@for_urls_running env (length urls) urls
                  ltac:(simpl; lia) 1 [] (init w))
        as (vs & w' & r' & evs & Heq & Hprog).
      { intros i _. apply Hnever. }
      destruct (info_run_eq urls (init w) Heq) as (tail & Hlog & Htail & _).
      rewrite Hlog.
      change (Progress 100 :: tail) with ([Progress 100] ++ tail).
      rewrite (valid_indices_all Hall) in Hprog.
      rewrite !progress_values_app, Htail. cbn [log init app] in Hprog |- *.
      rewrite Hprog. cbn [Log.progress_values]. now rewrite app_nil_r.
Qed.

End LoadVideos.

(* ===================================================================== *)
(** * Steps of a collector *)
(* ===================================================================== *)

Section StepFacts.
Context {env : Environment}.

Lemma adds_ret {A} (a : A) (Q : Res A -> Prop) : Q (Ok a) -> adds (ret a) Q.
Proof. intros H st. exists []. cbn. now rewrite app_nil_r. Qed.

Lemma adds_raise {A} (e : str) (Q : Res A -> Prop) : Q (Exc e) -> adds (raise e) Q.
Proof. intros H st. exists []. cbn. now rewrite app_nil_r. Qed.

Lemma adds_emit (ev : Event) (Q : Res unit -> Prop) :
  finishes [ev] = [] -> Q (Ok tt) -> adds (emit ev) Q.
Proof. intros Hev H st. exists [ev]. cbn. auto. Qed.

Lemma adds_running (Q : Res bool -> Prop) : (forall b, Q (Ok b)) -> adds running Q.
Proof. intros H st. exists []. cbn. rewrite app_nil_r. auto. Qed.

Lemma adds_get_world (Q : Res World -> Prop) : (forall w, Q (Ok w)) -> adds get_world Q.
Proof. intros H st. exists []. cbn. rewrite app_nil_r. auto. Qed.

Lemma adds_of_outcome {A} (o : Outcome A) (Q : Res A -> Prop) :
  (forall r, Q r) -> adds (of_outcome o) Q.
Proof. intros H st. exists []. destruct o; cbn; rewrite app_nil_r; auto. Qed.

Lemma adds_call {A} (f : World -> World * Outcome A) (Q : Res A -> Prop) :
  (forall r, Q r) -> adds (call f) Q.
Proof.
  intros H st. exists []. unfold call.
  destruct (f (world st)) as [w [a|e]]; cbn; rewrite app_nil_r; auto.
Qed.

Lemma adds_time_sleep (q : Q) (P : Res unit -> Prop) : P (Ok tt) -> adds (time_sleep q) P.
Proof. intros H st. exists [CallSleep q]. cbn. auto. Qed.

Lemma adds_bind {A B} (m : M A) (k : A -> M B) (Q1 : Res A -> Prop) (Q : Res B -> Prop) :
  adds m Q1 ->
  (forall a, Q1 (Ok a) -> adds (k a) Q) ->
  (forall e, Q1 (Exc e) -> Q (Exc e)) ->
  adds (bind m k) Q.
Proof.
  intros Hm Hk He st. destruct (Hm st) as (evs1 & Hlog1 & Hfin1 & HQ1).
  unfold bind. destruct (m st) as [[a|e] st1]; cbn [fst snd] in *.
  - destruct (Hk a HQ1 st1) as (evs2 & Hlog2 & Hfin2 & HQ2).
    exists (evs1 ++ evs2). rewrite Hlog2, Hlog1, app_assoc, finishes_app, Hfin1, Hfin2. auto.
  - exists evs1. auto.
Qed.

Lemma ends_emit (R : bool -> list VideoRecord -> Prop) (success : bool)
  (message : Message) (videos : list VideoRecord) :
  R success videos -> ends (emit (Collected success message videos)) R.
Proof.
  intros H st. exists [Collected success message videos]. cbn. split; [reflexivity|].
  exists [], success, message, videos. auto.
Qed.

Lemma ends_bind {A} (m : M A) (k : A -> M unit) (Q1 : Res A -> Prop)
  (R : bool -> list VideoRecord -> Prop) :
  adds m Q1 ->
  (forall a, Q1 (Ok a) -> ends (k a) R) ->
  ends (bind m k) R.
Proof.
  intros Hm Hk st. destruct (Hm st) as (evs1 & Hlog1 & Hfin1 & HQ1).
  unfold bind. destruct (m st) as [[a|e] st1]; cbn [fst snd] in *.
  - destruct (Hk a HQ1 st1) as (evs2 & Hlog2 & Hend).
    exists (evs1 ++ evs2). rewrite Hlog2, Hlog1, app_assoc. split; [reflexivity|].
    destruct (fst (k a st1)).
    + destruct Hend as (before & b & msg & vs & -> & Hbefore & HR).
      exists (evs1 ++ before), b, msg, vs. rewrite app_assoc, finishes_app, Hfin1, Hbefore.
      auto.
    + now rewrite finishes_app, Hfin1, Hend.
  - exists evs1. auto.
Qed.

Lemma finishes_once_ends (m : M unit) (R : bool -> list VideoRecord -> Prop) :
  finishes_once m R -> ends m R.
Proof.
  intros H st. destruct (H st) as (evs & Hok & Hlog & Hterm).
  exists evs. rewrite Hok. auto.
Qed.

Lemma finishes_once_emit (R : bool -> list VideoRecord -> Prop) (success : bool)
  (message : Message) (videos : list VideoRecord) :
  R success videos -> finishes_once (emit (Collected success message videos)) R.
Proof.
  intros H st. exists [Collected success message videos]. cbn.
  repeat split. exists [], success, message, videos. auto.
Qed.

(** A [try] around a body that ends, with a handler that finishes. *)
Lemma finishes_once_try (body : M unit) (handler : str -> M unit)
  (R : bool -> list VideoRecord -> Prop) :
  ends body R ->
  (forall e, finishes_once (handler e) R) ->
  finishes_once (try_except body handler) R.
Proof.
  intros Hb Hh st. destruct (Hb st) as (evs1 & Hlog1 & Hend).
  unfold try_except. destruct (body st) as [[[]|e] st1]; cbn [fst snd] in *.
  - exists evs1. auto.
  - destruct (Hh e st1) as (evs2 & Hok & Hlog2 & before & b & msg & vs & -> & Hbefore & HR).
    exists (evs1 ++ before ++ [Collected b msg vs]). rewrite Hlog2, Hlog1, <- app_assoc.
    repeat split; auto.
    exists (evs1 ++ before), b, msg, vs. rewrite <- app_assoc, finishes_app, Hend, Hbefore.
    auto.
Qed.

(** Steps that cannot raise, before a computation that finishes. *)
Lemma finishes_once_bind {A} (m : M A) (k : A -> M unit) (Q1 : Res A -> Prop)
  (R : bool -> list VideoRecord -> Prop) :
  adds m Q1 ->
  (forall e, ~ Q1 (Exc e)) ->
  (forall a, Q1 (Ok a) -> finishes_once (k a) R) ->
  finishes_once (bind m k) R.
Proof.
  intros Hm Hne Hk st. destruct (Hm st) as (evs1 & Hlog1 & Hfin1 & HQ1).
  unfold bind. destruct (m st) as [[a|e] st1]; cbn [fst snd] in *.
  - destruct (Hk a HQ1 st1) as (evs2 & Hok & Hlog2 & before & b & msg & vs & -> & Hbefore & HR).
    exists (evs1 ++ before ++ [Collected b msg vs]). rewrite Hlog2, Hlog1, <- app_assoc.
    repeat split; auto.
    exists (evs1 ++ before), b, msg, vs. rewrite <- app_assoc, finishes_app, Hfin1, Hbefore.
    auto.
  - now apply Hne in HQ1.
Qed.

End StepFacts.

(* ===================================================================== *)
(** * ProfileFetchThread: the records and the terminal signal *)
(* ===================================================================== *)

Section ProfileFacts.
Context {env : Environment}.
Import ProfileFetchThread.

Lemma slice_to_length (n : nat) (s : str) : length (slice_to n s) <= n.
Proof. unfold slice_to. apply firstn_le_length. Qed.

Lemma video_info_of_post_ok (post : Post) :
  from_post (video_info_of_post post) /\ short_title (video_info_of_post post).
Proof.
  assert (H : title (video_info_of_post post) <> [] /\
              length (title (video_info_of_post post)) <= 100).
  { cbn [video_info_of_post title].
    destruct (caption post) as [[|c cs]|]; cbn [VideoInfoThread.truthy].
    - split; [discriminate | cbn; lia].
    - split; [|apply slice_to_length].
      change (slice_to 100 (c :: cs)) with (c :: slice_to 99 cs). discriminate.
    - split; [discriminate | cbn; lia]. }
  destruct H as [Hne Hlen]. repeat split; auto.
Qed.

Lemma video_info_of_entry_ok (platform : Platform) (idx : nat) (entry : Entry) :
  short_title (video_info_of_entry platform idx entry) /\
  (platform = TikTok \/ platform = YouTube ->
   starts_with_http (video_info_of_entry platform idx entry)).
Proof.
  split.
  - unfold short_title. cbn [video_info_of_entry title]. apply slice_to_length.
  - unfold starts_with_http. cbn [video_info_of_entry url].
    match goal with |- context [negb (startswith ?p ?u)] =>
      destruct (startswith p u) eqn:E
    end; cbn [negb].
    + now intros _.
    + intros [-> | ->]; reflexivity.
Qed.

Lemma adds_weaken {A} (m : M A) (Q Q' : Res A -> Prop) :
  adds m Q -> (forall r, Q r -> Q' r) -> adds m Q'.
Proof.
  intros Hm HQ st. destruct (Hm st) as (evs & Hlog & Hfin & H).
  exists evs. auto.
Qed.

Lemma adds_progress_60_90 (num den : Z) :
  adds (progress_60_90 num den) (fun _ => True).
Proof.
  unfold progress_60_90. destruct (int_scaled num den 30).
  - now apply adds_emit.
  - now apply adds_raise.
Qed.

(** The loop over the posts keeps the records within [max_videos]. *)
Lemma adds_for_posts (max_videos : Z) (posts : list (Outcome Post)) :
  forall (count : Z) (videos : list VideoRecord),
    Forall from_post videos ->
    (Z.of_nat (length videos) <= count)%Z ->
    (count <= Z.max 0 max_videos)%Z ->
    adds (for_posts max_videos posts count videos)
         (fun r => match r with
                   | Ok vs => Forall from_post vs /\
                              (Z.of_nat (length vs) <= Z.max 0 max_videos)%Z
                   | Exc _ => True
                   end).
Proof.
  induction posts as [|next rest IH]; intros count videos Hvs Hlen Hcount.
  - apply adds_ret. split; [exact Hvs | lia].
  - cbn [for_posts].
    eapply adds_bind; [apply adds_of_outcome with (Q := fun _ => True); auto | | auto].
    intros post _.
    eapply adds_bind; [apply adds_running with (Q := fun _ => True); auto | | auto].
    intros r _. destruct r; cbn [negb]; [|apply adds_ret; split; [exact Hvs | lia]].
    destruct (max_videos <=? count)%Z eqn:Hmax;
      [apply adds_ret; split; [exact Hvs | lia]|].
    apply Z.leb_gt in Hmax.
    eapply adds_bind with
      (Q1 := fun r => match r with
                      | Ok vs => Forall from_post vs /\
                                 (Z.of_nat (length vs) <= count + 1)%Z
                      | Exc _ => False
                      end).
    + destruct (is_video post).
      * eapply adds_bind with (Q1 := fun r => r = Ok tt);
          [apply adds_emit; auto | | intros e; discriminate].
        intros _ _. apply adds_ret. split.
        -- apply Forall_app. split; [exact Hvs|].
           constructor; [apply video_info_of_post_ok | constructor].
        -- rewrite length_app. simpl. lia.
      * apply adds_ret. split; [exact Hvs | lia].
    + intros vs [Hvs' Hlen'].
      eapply adds_bind; [apply adds_progress_60_90 | | auto].
      intros _ _.
      eapply adds_bind; [apply adds_time_sleep with (P := fun _ => True); auto | | auto].
      intros _ _. apply IH; auto. lia.
    + intros e [].
Qed.

Lemma adds_scrape (max_videos : Z) (username : str) :
  adds (scrape_instagram_with_instaloader max_videos username)
       (fun r => match r with
                 | Ok vs => Forall from_post vs /\
                            (Z.of_nat (length vs) <= Z.max 0 max_videos)%Z
                 | Exc _ => True
                 end).
Proof.
  unfold scrape_instagram_with_instaloader.
  eapply adds_bind; [apply adds_emit with (Q := fun _ => True); auto | | auto].
  intros _ _.
  eapply adds_bind; [apply adds_call with (Q := fun _ => True); auto | | auto].
  intros profile _.
  eapply adds_bind; [apply adds_emit with (Q := fun _ => True); auto | | auto].
  intros _ _.
  eapply adds_bind; [apply adds_emit with (Q := fun _ => True); auto | | auto].
  intros _ _. apply adds_for_posts; [constructor | simpl; lia | lia].
Qed.

Lemma adds_for_entries (platform : Platform) (n_entries : nat)
  (entries : list (option Entry)) :
  forall (idx : nat) (videos : list VideoRecord),
    Forall short_title videos ->
    (platform = TikTok \/ platform = YouTube -> Forall starts_with_http videos) ->
    adds (for_entries platform n_entries idx entries videos)
         (fun r => match r with
                   | Ok vs => Forall short_title vs /\
                              (platform = TikTok \/ platform = YouTube ->
                               Forall starts_with_http vs) /\
                              length vs <= length videos + length entries
                   | Exc _ => True
                   end).
Proof.
  induction entries as [|entry rest IH]; intros idx videos Hshort Hhttp.
  - apply adds_ret. repeat split; auto. simpl. lia.
  - cbn [for_entries].
    eapply adds_bind; [apply adds_running with (Q := fun _ => True); auto | | auto].
    intros r _. destruct r; cbn [negb]; [|apply adds_ret; repeat split; auto; simpl; lia].
    eapply adds_bind; [apply adds_progress_60_90 | | auto].
    intros _ _.
    cbv zeta. eapply adds_weaken; [apply IH|].
    + destruct entry as [entry|]; [|exact Hshort].
      apply Forall_app. split; [exact Hshort|].
      constructor; [apply video_info_of_entry_ok | constructor].
    + destruct entry as [entry|]; [|exact Hhttp].
      intros Hp. apply Forall_app. split; [now apply Hhttp|].
      constructor; [now apply video_info_of_entry_ok | constructor].
    + intros [vs|e]; [|auto]. intros (H1 & H2 & H3). repeat split; auto.
      destruct entry; [rewrite length_app in H3|]; simpl in *; lia.
Qed.

End ProfileFacts.

Section ProfileRun.
Context {env : Environment}.
Import ProfileFetchThread.

Lemma profile_result_failure (platform : Platform) (max_videos : Z) :
  profile_result platform max_videos false [].
Proof. split; [discriminate | reflexivity]. Qed.

Lemma bind_emit {A} (ev : Event) (k : unit -> M A) (st : St) :
  bind (emit ev) k st = k tt (mkSt (world st) (reads st) (log st ++ [ev])).
Proof. reflexivity. Qed.

Lemma bind_running {A} (k : bool -> M A) (st : St) :
  bind running k st = k (is_running (reads st)) (mkSt (world st) (S (reads st)) (log st)).
Proof. reflexivity. Qed.

(** The Instagram branch always finishes, with a result of the right shape. *)
Lemma run_instagram_finishes (url : str) (max_videos : Z) :
  finishes_once (run_instagram url max_videos) (profile_result Instagram max_videos).
Proof.
  unfold run_instagram.
  eapply finishes_once_bind with (Q1 := fun r => exists w, r = Ok w).
  { apply adds_get_world. intros w. now exists w. }
  { intros e [w H]. discriminate. }
  intros w _.
  destruct (instaloader_available w);
    [|apply finishes_once_emit, profile_result_failure].
  destruct (extract_instagram_username url) as [[|c username]|];
    try (apply finishes_once_emit, profile_result_failure).
  eapply finishes_once_bind with (Q1 := fun r => r = Ok tt);
    [apply adds_emit; auto | intros e; discriminate | intros _ _].
  eapply finishes_once_bind with (Q1 := fun r => r = Ok tt);
    [apply adds_emit; auto | intros e; discriminate | intros _ _].
  apply finishes_once_try.
  - eapply ends_bind; [apply adds_scrape|].
    intros vs [Hvs Hlen]. destruct vs as [|v vs];
      [apply ends_emit, profile_result_failure|].
    eapply ends_bind; [apply adds_running with (Q := fun _ => True); auto|].
    intros r _. destruct r; [|apply ends_emit, profile_result_failure].
    eapply ends_bind; [apply adds_emit with (Q := fun _ => True); auto|].
    intros _ _. apply ends_emit. split; [|discriminate]. intros _.
    split; [discriminate|]. split.
    + eapply Forall_impl; [|exact Hvs]. now intros x (_ & H & _).
    + split; [|intros [H|H]; discriminate]. intros _. split; [exact Hvs|].
      simpl length in *. lia.
  - intros error_msg.
    destruct (str_in (py "private") (lower error_msg));
      [apply finishes_once_emit, profile_result_failure|].
    destruct (str_in (py "429") error_msg || str_in (py "rate") (lower error_msg));
      apply finishes_once_emit, profile_result_failure.
Qed.

(** The branch of the other platforms, once it has found the flag set. *)
Lemma listing_ends (platform : Platform) (url : str) (max_videos : Z) (st : St) :
  platform <> Instagram ->
  exists evs,
    log (snd (run_listing platform url max_videos st)) = log st ++ evs /\
    (if is_running (reads st) then
       match fst (run_listing platform url max_videos st) with
       | Ok _ => terminal (profile_result platform max_videos) evs
       | Exc _ => finishes evs = []
       end
     else evs = [] /\ fst (run_listing platform url max_videos st) = Ok tt).
Proof.
  intros Hp. unfold run_listing. rewrite bind_running.
  destruct (is_running (reads st)); cbn [negb];
    [|exists []; cbn; now rewrite app_nil_r].
  set (st1 := mkSt _ _ _). change (log st) with (log st1).
  match goal with |- context [log (snd (?m st1))] =>
    assert (Hends : ends m (profile_result platform max_videos))
  end.
  { eapply ends_bind; [apply adds_emit with (Q := fun _ => True); auto|]. intros _ _.
    eapply ends_bind; [apply adds_emit with (Q := fun _ => True); auto|]. intros _ _.
    eapply ends_bind; [apply adds_call with (Q := fun _ => True); auto|].
    intros [entries|] _; [|apply ends_emit, profile_result_failure].
    eapply ends_bind; [apply adds_emit with (Q := fun _ => True); auto|]. intros _ _.
    destruct entries as [|entry entries]; [apply ends_emit, profile_result_failure|].
    eapply ends_bind.
    { apply adds_for_entries with (videos := []); [constructor | intros _; constructor]. }
    intros vs (Hshort & Hhttp & _).
    eapply ends_bind; [apply adds_emit with (Q := fun _ => True); auto|]. intros _ _.
    destruct vs as [|v vs]; [apply ends_emit, profile_result_failure|].
    eapply ends_bind; [apply adds_running with (Q := fun _ => True); auto|].
    intros r _. destruct r; [|apply ends_emit, profile_result_failure].
    apply ends_emit. split; [|discriminate]. intros _.
    split; [discriminate|]. split; [exact Hshort|]. split; [contradiction | exact Hhttp]. }
  apply (Hends st1).
Qed.

End ProfileRun.

(** X19: every run of [ProfileFetchThread] returns normally and sends its terminal
    signal at most once, as its last event.  It sends none only when it finds
    the flag cleared at its first read or, for a platform other than
    Instagram, at its second.  A success carries at least one record, each
    with a title of at most 100 characters; from an Instagram profile it
    carries at most [max_videos] records, each made from a post (non-empty
    title, the post's link as url); from TikTok or YouTube every url starts
    with [http].  A failure carries no record. *)
Theorem profile_run_finishes_at_most_once {env : Environment}
  (url : str) (max_videos : Z) (w : World) :
  let l := log (snd (ProfileFetchThread.run url max_videos (init w))) in
  let platform := ProfileFetchThread.detect_platform url in
  fst (ProfileFetchThread.run url max_videos (init w)) = Ok tt /\
  (finishes l = [] \/ terminal (profile_result platform max_videos) l) /\
  (finishes l = [] ->
   is_running 0 = false \/ (platform <> Instagram /\ is_running 1 = false)).
Proof.
  intros l platform. unfold l. clear l.
  unfold ProfileFetchThread.run, try_except. rewrite bind_running.
  cbn [init reads world log].
  destruct (is_running 0) eqn:H0; cbn [negb];
    [|cbn; repeat split; auto].
  fold platform. rewrite !bind_emit. cbn [world reads log app].
  set (st2 := mkSt _ _ _).
  destruct (ProfileFetchThread.Platform_eqb platform Instagram) eqn:Hp.
  - assert (Hi : platform = Instagram) by (destruct platform; try discriminate; reflexivity).
    destruct (run_instagram_finishes url max_videos st2)
      as (evs & Hok & Hlog & before & b & msg & vs & -> & Hbefore & HR).
    destruct (ProfileFetchThread.run_instagram url max_videos st2) as [r st3].
    cbn [fst snd] in *. subst r. cbn [fst snd]. rewrite Hlog. unfold st2. cbn [log].
    split; [reflexivity|].
    assert (Hterm : terminal (profile_result platform max_videos)
                      (([StatusUpdate (MsgDetected platform); Progress 10] ++ before)
                       ++ [Collected b msg vs])).
    { exists ([StatusUpdate (MsgDetected platform); Progress 10] ++ before), b, msg, vs.
      rewrite finishes_app, Hbefore, Hi. auto. }
    rewrite <- app_assoc in Hterm. split; [now right|].
    intros Hnone. exfalso.
    rewrite app_assoc, finishes_app in Hnone. simpl in Hnone.
    apply app_eq_nil in Hnone. destruct Hnone as [_ Hnone]. discriminate.
  - assert (Hi : platform <> Instagram) by (intros E; rewrite E in Hp; discriminate).
    destruct (@listing_ends env platform url max_videos st2 Hi) as (evs & Hlog & Hcase).
    change (is_running (reads st2)) with (is_running 1) in Hcase.
    destruct (ProfileFetchThread.run_listing platform url max_videos st2) as [r st3].
    cbn [fst snd] in *. unfold st2 in Hlog. cbn [log] in Hlog.
    destruct (is_running 1) eqn:H1.
    + destruct r as [[]|e]; cbn [fst snd].
      * rewrite Hlog. split; [reflexivity|].
        destruct Hcase as (before & b & msg & vs & -> & Hbefore & HR).
        split.
        -- right. exists ([StatusUpdate (MsgDetected platform); Progress 10] ++ before), b, msg, vs.
           rewrite finishes_app, Hbefore, <- app_assoc. auto.
        -- intros Hnone. exfalso. rewrite !finishes_app in Hnone. simpl in Hnone.
           apply app_eq_nil in Hnone. destruct Hnone as [_ Hnone]. discriminate.
      * cbn. rewrite Hlog. split; [reflexivity|]. split.
        -- right. exists ([StatusUpdate (MsgDetected platform); Progress 10] ++ evs),
             false, (MsgError e), [].
           rewrite finishes_app, Hcase.
           split; [reflexivity|]. split; [reflexivity | apply profile_result_failure].
        -- intros Hnone. exfalso. rewrite !finishes_app in Hnone. simpl in Hnone.
           apply app_eq_nil in Hnone. destruct Hnone as [_ Hnone]. discriminate.
    + destruct Hcase as [-> ->]. cbn [fst snd]. rewrite Hlog. cbn.
      repeat split; auto.
Qed.

(* ===================================================================== *)
(** * InstagramBatchDownloader.update_disk_space *)
(* ===================================================================== *)

Section DiskLabelFacts.
Context {env : Environment}.
Import DiskLabel.

Lemma Qle_bool_false (a b : Q) : Qle_bool a b = false <-> (b < a)%Q.
Proof.
  split.
  - intros H. apply Qnot_le_lt. intros Hle. apply Qle_bool_iff in Hle. congruence.
  - intros H. destruct (Qle_bool a b) eqn:E; [|reflexivity].
    apply Qle_bool_iff in E. exfalso. now apply (Qlt_not_le _ _ H).
Qed.

(** X22: the colour of the free-space label, in bytes: red below 1 GiB, orange
    from 1 GiB to below 5 GiB, green from 5 GiB on; and red, with zero
    megabytes shown, when the free space cannot be queried. *)
Theorem disk_label_thresholds (w : World) (save_directory : str) :
  match disk_free w save_directory with
  | Some free =>
      (fst (update_disk_space w save_directory) = Red <-> (free < 2 ^ 30)%Z) /\
      (fst (update_disk_space w save_directory) = Orange <->
         (2 ^ 30 <= free < 5 * 2 ^ 30)%Z) /\
      (fst (update_disk_space w save_directory) = Green <-> (5 * 2 ^ 30 <= free)%Z)
  | None => update_disk_space w save_directory = (Red, MegaBytes 0)
  end.
Proof.
  unfold update_disk_space, SecurityUtils.check_disk_space.
  destruct (disk_free w save_directory) as [free|]; [|reflexivity].
  set (free_gb := (inject_Z (to_double free) / inject_Z (1024 * 1024) / inject_Z 1024)%Q).
  assert (H1 : Qle_bool 1 free_gb = true <-> (2 ^ 30 <= free)%Z).
  { rewrite <- (@to_double_le (2 ^ 30) free) by (simpl; lia).
    rewrite Qle_bool_iff. unfold free_gb, Qle, Qdiv, Qmult, Qinv, inject_Z. simpl. lia. }
  assert (H5 : Qle_bool 5 free_gb = true <-> (5 * 2 ^ 30 <= free)%Z).
  { rewrite <- (@to_double_le (5 * 2 ^ 30) free) by (simpl; lia).
    rewrite Qle_bool_iff. unfold free_gb, Qle, Qdiv, Qmult, Qinv, inject_Z. simpl. lia. }
  destruct (Qle_bool 1 free_gb) eqn:E1; cbn [negb fst].
  - destruct (Qle_bool 5 free_gb) eqn:E5; cbn [negb fst].
    + assert (5 * 2 ^ 30 <= free)%Z by now apply H5.
      repeat split; try discriminate; try lia; auto.
    + assert (2 ^ 30 <= free)%Z by now apply H1.
      assert (~ (5 * 2 ^ 30 <= free)%Z) by (intros H'; apply H5 in H'; discriminate).
      repeat split; try discriminate; try lia; auto.
  - assert (~ (2 ^ 30 <= free)%Z) by (intros H'; apply H1 in H'; discriminate).
    repeat split; try discriminate; try lia; auto.
Qed.

End DiskLabelFacts.
